(** * reptile-commerce: the title/price parsing pipeline of the Newegg and
      Sylvane processors, embedded in Rocq.

    Sources embedded here:
      - src/newegg/newegg_process_data.py   (class NeweggDataProcessor)
      - src/sylvane/sylvane_process_fixed.py (class SylvaneDataProcessor)
      - src/newegg/newegg_scraper.py         (extract_price)

    Modelling conventions.
      - Python text is a list of characters.  A character is an 8-bit [ascii],
        read as the Unicode code point of the same number (Latin-1), and the
        character predicates below are Python's on that range.  Text with
        code points above 255 is outside the model.
      - Python [float] is IEEE binary64, taken from [SpecFloat] with
        precision 53 and maximal exponent 1024.
      - A Python call that may raise is a computation in the monad [py].
      - Python [int] is unbounded; the interpreter's optional limit on the
        number of digits [int()] reads is not modelled.
      - [print] calls only write a progress log and are left out.
      - [datetime.now().isoformat()] is an explicit clock argument. *)

From Stdlib Require Import ZArith NArith Ascii String List Bool Lia.
From Stdlib Require Import Floats.SpecFloat.
From stdpp Require Import gmap strings list fin_maps pretty.

Open Scope Z_scope.

(** ** Text *)

Abbreviation str := (list ascii).

Definition s2l (s : string) : str := list_ascii_of_string s.
Coercion s2l : string >-> list.

Definition code (c : ascii) : N := N_of_ascii c.

Definition between (lo hi : N) (c : ascii) : bool :=
  ((lo <=? code c) && (code c <=? hi))%N.

Definition chr (n : N) : ascii := ascii_of_N n.

(** The double quote character (code 34). *)
Definition dquote : ascii := chr 34.

(** [str.isdigit] / the regex class [\d]: '0'..'9' are the only decimal
    digits below code point 256. *)
Definition is_digit (c : ascii) : bool := between 48 57 c.

(** [str.isspace] / the regex class [\s]. *)
Definition is_space (c : ascii) : bool :=
  between 9 13 c || between 28 32 c || (code c =? 133)%N || (code c =? 160)%N.

(** Characters for which [str.isalnum] holds, plus the underscore: the regex
    class [\w] and the characters that count for [\b]. *)
Definition is_word (c : ascii) : bool :=
  between 48 57 c || between 65 90 c || between 97 122 c || (code c =? 95)%N
  || (code c =? 170)%N || between 178 179 c || (code c =? 181)%N
  || between 185 186 c || between 188 190 c
  || between 192 214 c || between 216 246 c || between 248 255 c.

(** Characters changed by [str.lower]. *)
Definition is_upper (c : ascii) : bool :=
  between 65 90 c || between 192 214 c || between 216 222 c.

Definition lower (c : ascii) : ascii :=
  if is_upper c then chr (code c + 32) else c.

(** The character, if any, that [lower] sends to a lower-case [c]. *)
Definition is_lower_of_upper (c : ascii) : bool :=
  between 97 122 c || between 224 246 c || between 248 254 c.

Definition unlower (c : ascii) : ascii :=
  if is_lower_of_upper c then chr (code c - 32) else c.

(** [s.lower()] *)
Definition str_lower (s : str) : str := map lower s.

(** [s.startswith(p)] *)
Fixpoint startswith (p s : str) : bool :=
  match p, s with
  | [], _ => true
  | a :: p', b :: s' => if decide (a = b) then startswith p' s' else false
  | _ :: _, [] => false
  end.

(** [needle in hay] for two strings. *)
Fixpoint str_in (needle hay : str) : bool :=
  startswith needle hay ||
  match hay with
  | [] => false
  | _ :: hay' => str_in needle hay'
  end.

(** [s.replace(old, new)]: every non-overlapping occurrence of [old], from
    the left.  [skip] counts the characters of an occurrence that are still
    to be dropped. *)
Fixpoint replace_loop (old new s : str) (skip : nat) : str :=
  match skip with
  | S k => match s with [] => [] | _ :: s' => replace_loop old new s' k end
  | O =>
      match s with
      | [] => []
      | c :: s' =>
          if startswith old s
          then new ++ replace_loop old new s' (length old - 1)
          else c :: replace_loop old new s' 0
      end
  end.

Definition str_replace (old new s : str) : str :=
  match old with
  | [] => new ++ concat (map (fun c => c :: new) s)
  | _ :: _ => replace_loop old new s 0
  end.

(** [s.strip()] *)
Fixpoint lstrip (s : str) : str :=
  match s with
  | c :: s' => if is_space c then lstrip s' else s
  | [] => []
  end.

Definition rstrip (s : str) : str := rev (lstrip (rev s)).

Definition strip (s : str) : str := rstrip (lstrip s).

(** [s.split()]: the maximal runs of non-space characters. *)
Fixpoint split_loop (s : str) (cur : str) : list str :=
  match s with
  | [] => match cur with [] => [] | _ => [rev cur] end
  | c :: s' =>
      if is_space c
      then match cur with
           | [] => split_loop s' []
           | _ => rev cur :: split_loop s' []
           end
      else split_loop s' (c :: cur)
  end.

Definition split_ws (s : str) : list str := split_loop s [].

(** [sep.join(l)] *)
Fixpoint join (sep : str) (l : list str) : str :=
  match l with
  | [] => []
  | [x] => x
  | x :: l' => x ++ sep ++ join sep l'
  end.

(** [urllib.parse.quote_plus]: letters, digits and [_.-~] are kept, a space
    becomes [+], every other character is written as the [%XX] escapes of
    its UTF-8 bytes. *)
Definition hex_digit (n : N) : ascii :=
  if (n <? 10)%N then chr (48 + n) else chr (55 + n).

Definition pct (b : N) : str :=
  ["%"%char; hex_digit (b / 16); hex_digit (b mod 16)].

Definition quote_char (c : ascii) : str :=
  if between 48 57 c || between 65 90 c || between 97 122 c
     || (code c =? 95)%N || (code c =? 46)%N || (code c =? 45)%N
     || (code c =? 126)%N
  then [c]
  else if (code c =? 32)%N then ["+"%char]
  else if (code c <? 128)%N then pct (code c)
  else pct (192 + code c / 64) ++ pct (128 + code c mod 64).

Definition quote_plus (s : str) : str := concat (map quote_char s).

(** [str(n)] for an integer. *)
Definition str_of_Z (n : Z) : str := s2l (pretty n).

(** ** Exceptions *)

Inductive exn : Type :=
| ValueError
| OverflowError
| TypeError
| AttributeError
| NameError (name : string).

Inductive py (A : Type) : Type :=
| Ok (a : A)
| Raise (e : exn).
Arguments Ok {A} a.
Arguments Raise {A} e.

#[global] Instance py_ret : MRet py := @Ok.
#[global] Instance py_bind : MBind py :=
  fun A B f m => match m with Ok a => f a | Raise e => Raise e end.

(** ** Numbers *)

Abbreviation float := spec_float.

Definition prec : Z := 53.
Definition emax : Z := 1024.

Definition float_of_Z (n : Z) : float := binary_normalize prec emax n 0 false.
Definition fzero : float := S754_zero false.
Definition fmul : float -> float -> float := SFmul prec emax.
Definition fdiv : float -> float -> float := SFdiv prec emax.
Definition flt : float -> float -> bool := SFltb.
Definition fle : float -> float -> bool := SFleb.

Definition digit_val (c : ascii) : Z := Z.of_N (code c) - 48.

(** The value of a run of decimal digits, [None] when another character
    occurs. *)
Fixpoint digits_val (acc : Z) (s : str) : option Z :=
  match s with
  | [] => Some acc
  | c :: s' => if is_digit c then digits_val (10 * acc + digit_val c) s' else None
  end.

(** [int(s)] on the strings the processors pass to it: a non-empty run of
    decimal digits.  (The signs, blanks and underscores that [int] also
    reads never reach it from the patterns below; they raise here.) *)
Definition py_int (s : str) : py Z :=
  match s with
  | [] => Raise ValueError
  | _ :: _ => match digits_val 0 s with Some n => Ok n | None => Raise ValueError end
  end.

Fixpoint split_point (s : str) : str * option str :=
  match s with
  | [] => ([], None)
  | c :: s' =>
      if decide (c = "."%char) then ([], Some s')
      else let '(a, b) := split_point s' in (c :: a, b)
  end.

(** The binary64 number nearest to [m / 10^k] (ties to even), as the
    correctly rounded division of two exact integers. *)
Definition float_of_decimal (m : Z) (k : nat) : float :=
  match m with
  | Zpos p =>
      fdiv (S754_finite false p 0)
           (S754_finite false (Z.to_pos (10 ^ Z.of_nat k)) 0)
  | _ => fzero
  end.

(** [float(s)] on the strings the processors pass to it: digits with at most
    one point.  Such a string is a float literal exactly when it holds a
    digit; [float('')] and [float('.')] raise ValueError.  (The signs,
    exponents and names that [float] also reads never reach it from the
    patterns below; they raise here.) *)
Definition py_float (s : str) : py float :=
  let '(ip, fp) := split_point s in
  let fp' := default [] fp in
  match ip ++ fp' with
  | [] => Raise ValueError
  | _ :: _ =>
      match digits_val 0 (ip ++ fp') with
      | Some m => Ok (float_of_decimal m (length fp'))
      | None => Raise ValueError
      end
  end.

(** [int(x)] for a float: truncation toward zero. *)
Definition py_int_of_float (x : float) : py Z :=
  match x with
  | S754_zero _ => Ok 0
  | S754_finite sg m e =>
      let a := match e with
               | Zneg k => Z.shiftr (Zpos m) (Zpos k)
               | _ => Z.shiftl (Zpos m) e
               end in
      Ok (if sg then - a else a)
  | S754_infinity _ => Raise OverflowError
  | S754_nan => Raise ValueError
  end.

(** [x == n] for a float [x] and an integer [n]: exact comparison. *)
Definition float_eq_Z (x : float) (n : Z) : bool :=
  match x with
  | S754_zero _ => n =? 0
  | S754_finite sg m e =>
      let v := if sg then Zneg m else Zpos m in
      match e with
      | Zneg k => v =? Z.shiftl n (Zpos k)
      | _ => Z.shiftl v e =? n
      end
  | _ => false
  end.

(** ** Regular expressions

    The fragment of Python's [re] syntax the processors use: literals,
    classes, greedy repetition of one character, alternation, capturing
    groups, [\b], [$] and negative lookahead.  Matching is by backtracking:
    [rmatch] lists the ways a pattern matches at a position in the order in
    which Python tries them, so the first one is Python's match. *)

Inductive cset_item : Type :=
| CChar (c : ascii)
| CRange (lo hi : ascii)
| CDigit
| CSpace
| CWord.

Inductive atom : Type :=
| ALit (c : ascii)
| ASet (cs : list cset_item).

Inductive regex : Type :=
| Eps
| One (a : atom)
| Str (w : str)
| Seq (r1 r2 : regex)
| Alt (r1 r2 : regex)
| Rep (lo : nat) (hi : option nat) (a : atom)
| Group (n : nat) (r : regex)
| WordB
| Eos
| NotAhead (r : regex).

Definition in_range (lo hi c : ascii) : bool :=
  ((code lo <=? code c) && (code c <=? code hi))%N.

(** With [re.IGNORECASE] a class holds the lower-cased members of its items
    and is tested against the lower-cased character; [c] below is already
    lower-cased in that case. *)
Definition item_ok (ic : bool) (c : ascii) (it : cset_item) : bool :=
  match it with
  | CChar x => bool_decide (c = if ic then lower x else x)
  | CRange lo hi => in_range lo hi c || (ic && in_range lo hi (unlower c))
  | CDigit => is_digit c
  | CSpace => is_space c
  | CWord => is_word c
  end.

Definition atom_ok (ic : bool) (a : atom) (c : ascii) : bool :=
  match a with
  | ALit x => if ic then bool_decide (lower c = lower x) else bool_decide (c = x)
  | ASet cs => existsb (item_ok ic (if ic then lower c else c)) cs
  end.

(** The state of one match attempt: the character before the start, the
    characters taken so far (last one first) and the groups closed so far. *)
Record mctx : Type := MCtx {
  prev0 : option ascii;
  taken : str;
  caps : list (nat * str)
}.

Definition eat (c : ascii) (ctx : mctx) : mctx :=
  MCtx (prev0 ctx) (c :: taken ctx) (caps ctx).

Definition prev_char (ctx : mctx) : option ascii :=
  match taken ctx with
  | c :: _ => Some c
  | [] => prev0 ctx
  end.

Definition word_at (o : option ascii) : bool :=
  match o with Some c => is_word c | None => false end.

(** [\b] *)
Definition at_boundary (ctx : mctx) (s : str) : bool :=
  xorb (word_at (prev_char ctx)) (word_at (head s)).

(** [$] without [re.MULTILINE]: the end, or the newline that ends the text. *)
Definition at_end (s : str) : bool :=
  match s with
  | [] => true
  | [c] => (code c =? 10)%N
  | _ => false
  end.

Definition close_group (n : nat) (ctx0 ctx1 : mctx) : mctx :=
  let w := rev (take (length (taken ctx1) - length (taken ctx0)) (taken ctx1)) in
  MCtx (prev0 ctx1) (taken ctx1) ((n, w) :: caps ctx1).

Fixpoint lit_run (ic : bool) (w : str) (ctx : mctx) (s : str) : list (mctx * str) :=
  match w with
  | [] => [(ctx, s)]
  | x :: w' =>
      match s with
      | c :: s' => if atom_ok ic (ALit x) c then lit_run ic w' (eat c ctx) s' else []
      | [] => []
      end
  end.

Definition below (hi : option nat) (count : nat) : bool :=
  match hi with
  | None => true
  | Some h => (count <? h)%nat
  end.

(** Greedy repetition of one character: the longest run comes first. *)
Fixpoint rep_loop (ic : bool) (a : atom) (lo : nat) (hi : option nat)
    (count : nat) (ctx : mctx) (s : str) (acc : list (mctx * str))
    : list (mctx * str) :=
  let acc' := if (lo <=? count)%nat then (ctx, s) :: acc else acc in
  match s with
  | c :: s' =>
      if atom_ok ic a c && below hi count
      then rep_loop ic a lo hi (S count) (eat c ctx) s' acc'
      else acc'
  | [] => acc'
  end.

Fixpoint rmatch (ic : bool) (r : regex) (ctx : mctx) (s : str)
    : list (mctx * str) :=
  match r with
  | Eps => [(ctx, s)]
  | One a =>
      match s with
      | c :: s' => if atom_ok ic a c then [(eat c ctx, s')] else []
      | [] => []
      end
  | Str w => lit_run ic w ctx s
  | Seq r1 r2 => p ← rmatch ic r1 ctx s; rmatch ic r2 p.1 p.2
  | Alt r1 r2 => rmatch ic r1 ctx s ++ rmatch ic r2 ctx s
  | Rep lo hi a => rep_loop ic a lo hi 0 ctx s []
  | Group n r => (fun p => (close_group n ctx p.1, p.2)) <$> rmatch ic r ctx s
  | WordB => if at_boundary ctx s then [(ctx, s)] else []
  | Eos => if at_end s then [(ctx, s)] else []
  | NotAhead r =>
      match rmatch ic r ctx s with
      | [] => [(ctx, s)]
      | _ :: _ => []
      end
  end.

(** A match object: the whole match and the closed groups. *)
Record match_obj : Type := MatchObj {
  group0 : str;
  groups : list (nat * str)
}.

Definition match_of (ctx : mctx) : match_obj :=
  MatchObj (rev (taken ctx)) (caps ctx).

Fixpoint cap_lookup (n : nat) (l : list (nat * str)) : option str :=
  match l with
  | [] => None
  | (k, w) :: l' => if decide (k = n) then Some w else cap_lookup n l'
  end.

(** [m.group(n)]: [None] for a group that took no part in the match. *)
Definition group (m : match_obj) (n : nat) : option str := cap_lookup n (groups m).

Definition try_at (ic : bool) (r : regex) (prev : option ascii) (s : str)
    : option match_obj :=
  match rmatch ic r (MCtx prev [] []) s with
  | (ctx, _) :: _ => Some (match_of ctx)
  | [] => None
  end.

(** [re.search]: the first position, from the left, with a match. *)
Fixpoint search_from (ic : bool) (r : regex) (prev : option ascii) (s : str)
    : option match_obj :=
  match try_at ic r prev s with
  | Some m => Some m
  | None =>
      match s with
      | c :: s' => search_from ic r (Some c) s'
      | [] => None
      end
  end.

Definition re_search (ic : bool) (r : regex) (s : str) : option match_obj :=
  search_from ic r None s.

(** [re.match]: a match at the start of the text. *)
Definition re_match (ic : bool) (r : regex) (s : str) : option match_obj :=
  try_at ic r None s.

(** [re.findall] for a pattern without groups: the non-overlapping matches
    from the left.  [skip] counts the characters of the last match that are
    still to be passed.  (None of the patterns used with [findall] or
    [sub] matches the empty string, where Python has a further rule.) *)
Fixpoint findall_loop (ic : bool) (r : regex) (prev : option ascii) (s : str)
    (skip : nat) : list str :=
  match skip with
  | S k =>
      match s with
      | c :: s' => findall_loop ic r (Some c) s' k
      | [] => []
      end
  | O =>
      match try_at ic r prev s with
      | Some m =>
          group0 m ::
          match s with
          | c :: s' => findall_loop ic r (Some c) s' (length (group0 m) - 1)
          | [] => []
          end
      | None =>
          match s with
          | c :: s' => findall_loop ic r (Some c) s' 0
          | [] => []
          end
      end
  end.

Definition re_findall (ic : bool) (r : regex) (s : str) : list str :=
  findall_loop ic r None s 0.

(** [re.sub(r, repl, s)] with a plain replacement text. *)
Fixpoint sub_loop (ic : bool) (r : regex) (repl : str) (prev : option ascii)
    (s : str) (skip : nat) : str :=
  match skip with
  | S k =>
      match s with
      | c :: s' => sub_loop ic r repl (Some c) s' k
      | [] => []
      end
  | O =>
      match try_at ic r prev s with
      | Some m =>
          repl ++
          match s with
          | c :: s' =>
              match group0 m with
              | [] => c :: sub_loop ic r repl (Some c) s' 0
              | _ :: w => sub_loop ic r repl (Some c) s' (length w)
              end
          | [] => []
          end
      | None =>
          match s with
          | c :: s' => c :: sub_loop ic r repl (Some c) s' 0
          | [] => []
          end
      end
  end.

Definition re_sub (ic : bool) (r : regex) (repl s : str) : str :=
  sub_loop ic r repl None s 0.

Declare Scope re_scope.
Delimit Scope re_scope with re.
Bind Scope re_scope with regex.
Infix "+>" := Seq (at level 41, right associativity) : re_scope.
Infix "<|>" := Alt (at level 51, right associativity) : re_scope.

Definition digit : atom := ASet [CDigit].
Definition space : atom := ASet [CSpace].
Definition letter : atom := ASet [CRange "A" "Z"; CRange "a" "z"].
Definition one_of (w : str) : atom := ASet (map CChar w).
Definition Plus (a : atom) : regex := Rep 1 None a.
Definition Star (a : atom) : regex := Rep 0 None a.
Definition Opt (a : atom) : regex := Rep 0 (Some 1%nat) a.
Definition Times (lo hi : nat) (a : atom) : regex := Rep lo (Some hi) a.
Definition AtLeast (lo : nat) (a : atom) : regex := Rep lo None a.

(** ** Values and helpers shared by the two processors *)

(** The values a specification dictionary holds. *)
Inductive pyval : Type :=
| VNone
| VStr (s : str)
| VInt (n : Z)
| VFloat (x : float).

(** The value of [m.group(n)] as stored in a dictionary. *)
Definition of_group (o : option str) : pyval :=
  match o with
  | Some w => VStr w
  | None => VNone
  end.

(** [m.group(n)] used as text: when the group took no part in the match the
    value is [None], and a method call on it raises AttributeError, [int]
    and [float] raise TypeError. *)
Definition group_text (e : exn) (m : match_obj) (n : nat) : py str :=
  match group m n with
  | Some w => Ok w
  | None => Raise e
  end.

(** A group inside an f-string: [None] prints as the word None. *)
Definition fmt_group (o : option str) : str :=
  match o with
  | Some w => w
  | None => "None"
  end.

(** [for pattern in patterns: match = re.search(pattern, title, flags);
     if match: ...; break] *)
Fixpoint first_match (ic : bool) (patterns : list regex) (title : str)
    : option match_obj :=
  match patterns with
  | [] => None
  | pattern :: rest =>
      match re_search ic pattern title with
      | Some m => Some m
      | None => first_match ic rest title
      end
  end.

(** [for brand in brands: if brand.lower() in title.lower(): ...; break] *)
Fixpoint find_brand (brands : list str) (title : str) : option str :=
  match brands with
  | [] => None
  | brand :: rest =>
      if str_in (str_lower brand) (str_lower title) then Some brand
      else find_brand rest title
  end.

Definition strs (l : list string) : list str := map s2l l.

(** [price > 0] *)
Definition is_positive (x : float) : bool := flt fzero x.

(** [if not price: return None] for a price that is [None] or a float: the
    price that passes the test, if it does. *)
Definition truthy_price (p : option float) : option float :=
  match p with
  | None => None
  | Some x => if SFeqb x fzero then None else Some x
  end.

(** ** src/newegg/newegg_process_data.py *)

Module Newegg.

Open Scope re_scope.

(** A raw record as the scraper writes it: text fields and a list of
    texts.  A field is [None] when the key is absent from the JSON
    object. *)
Record RawRecord : Type := {
  r_title : option str;
  r_price : option str;
  r_img_url : option str;
  r_product_link : option str;
  r_item_features : option (list str)
}.

Record NormalizedRecord : Type := {
  original_data : RawRecord;
  title : str;
  category : str;
  price : float;
  image_url : str;
  product_link : str;
  item_features : list str;
  processed_at : str;
  brand : pyval;
  specs : gmap string pyval;
  amazon_link : str
}.

(** [self.category_keywords], in the order of the dictionary literal. *)
Definition category_keywords : list (str * list str) :=
  [ (s2l "Laptop", strs ["Laptop"; "Notebook"; "2-in-1"; "Chromebook"; "Gaming Laptop"; "TouchScreen Laptop"]);
    (s2l "Gaming PC", strs ["Gaming PC"; "Desktop PC"; "Pre-Built"; "Gaming Desktop"]);
    (s2l "CPU", strs ["Processor"; "CPU"]);
    (s2l "Motherboard", strs ["Motherboard"; "LGA"; "Socket AM5"; "ATX"; "mATX"; "ITX"]);
    (s2l "Memory", strs ["RAM"; "DDR5"; "DDR4"; "Memory"; "GB (2 x"]);
    (s2l "SSD", strs ["SSD"; "Solid State Drive"; "NVMe"; "M.2"; "PCIe Gen"]);
    (s2l "Graphics Card", strs ["Graphics Card"; "GPU"; "RTX"; "Radeon"; "GeForce"]);
    (s2l "Storage", strs ["Hard Drive"; "HDD"]);
    (s2l "Power Supply", strs ["Power Supply"; "PSU"; "W Power Supply"]);
    (s2l "Case", strs ["Case"; "Chassis"]);
    (s2l "Cooler", strs ["Cooler"; "Heatsink"; "Liquid Cooler"; "AIO"]);
    (s2l "Camera", strs ["Camera"; "Webcam"; "Surveillance"; "Security Camera"; "PTZ"; "NVR Kit"; "Dome Camera"]);
    (s2l "Smart Home", strs ["Smart Plug"; "Smart Light"; "Hub"; "Sensor"; "Doorbell"; "Thermostat"]);
    (s2l "Networking", strs ["Router"; "Switch"; "Access Point"; "WiFi"; "Ethernet"]);
    (s2l "Other", []) ].

(** The inner loop of [detect_category]: [Some category] is the [return]. *)
Fixpoint keyword_loop (title_lower category : str) (keywords : list str)
    : option str :=
  match keywords with
  | [] => None
  | keyword :: rest =>
      if str_in (str_lower keyword) title_lower then Some category
      else keyword_loop title_lower category rest
  end.

Fixpoint category_loop (title_lower : str) (items : list (str * list str))
    : option str :=
  match items with
  | [] => None
  | (category, keywords) :: rest =>
      match keyword_loop title_lower category keywords with
      | Some c => Some c
      | None => category_loop title_lower rest
      end
  end.

Definition detect_category (title : str) : str :=
  let title_lower := str_lower title in
  match category_loop title_lower category_keywords with
  | Some category => category
  | None => "Other"
  end.

(** *** parse_cpu_specs *)

(** [\b(AMD|Intel)\b] *)
Definition re_cpu_brand : regex :=
  WordB +> Group 1 (Str "AMD" <|> Str "Intel") +> WordB.

(** [\b(Ryzen\s*[3579]|Ryzen\s+Threadripper|EPYC)\b],
    [\b(Core\s*[ijU][3579]|Core\s+Ultra)\b], [\b(Pentium|Celeron)\b] *)
Definition series_patterns : list regex :=
  [ WordB +> Group 1 (Str "Ryzen" +> Star space +> One (one_of "3579")
                      <|> Str "Ryzen" +> Plus space +> Str "Threadripper"
                      <|> Str "EPYC") +> WordB;
    WordB +> Group 1 (Str "Core" +> Star space +> One (one_of "ijU") +> One (one_of "3579")
                      <|> Str "Core" +> Plus space +> Str "Ultra") +> WordB;
    WordB +> Group 1 (Str "Pentium" <|> Str "Celeron") +> WordB ].

(** [\b(\d{4,5}[A-Za-z]{0,4}[LXK]?)\b] *)
Definition re_cpu_model : regex :=
  WordB +> Group 1 (Times 4 5 digit +> Times 0 4 letter +> Opt (one_of "LXK")) +> WordB.

(** [(\d+)[\s-]*Co(?:re|res)] *)
Definition re_cpu_cores : regex :=
  Group 1 (Plus digit) +> Star (ASet [CSpace; CChar "-"]) +> Str "Co"
  +> (Str "re" <|> Str "res").

(** Line 122: group 1 is digits, an optional point and further digits
    (one or more, then zero or more); then [\s*GHz]. *)
Definition re_cpu_speed : regex :=
  Group 1 (Plus digit +> Opt (ALit ".") +> Star digit) +> Star space +> Str "GHz".

(** [Socket\s+([A-Z0-9]+)], [LGA\s*(\d{4,5})], [\b(AM[45])\b] *)
Definition socket_patterns : list regex :=
  [ Str "Socket" +> Plus space +> Group 1 (Plus (ASet [CRange "A" "Z"; CRange "0" "9"]));
    Str "LGA" +> Star space +> Group 1 (Times 4 5 digit);
    WordB +> Group 1 (Str "AM" +> One (one_of "45")) +> WordB ].

(** [(\d{2,3})\s*W(?:\s|,|$|\.|\))] *)
Definition re_cpu_power : regex :=
  Group 1 (Times 2 3 digit) +> Star space +> Str "W"
  +> (One space <|> Str "," <|> Eos <|> Str "." <|> Str ")").

Definition parse_cpu_specs (title : str) : py (gmap string pyval) :=
  let result : gmap string pyval :=
    {[ "brand" := VNone; "series" := VNone; "model" := VNone; "cores" := VNone;
       "speed" := VNone; "socket" := VNone; "power" := VNone ]} in
  (* Brand *)
  let result :=
    match re_search true re_cpu_brand title with
    | Some brand_match => <["brand" := of_group (group brand_match 1)]> result
    | None => result
    end in
  (* Series *)
  result ←
    match first_match true series_patterns title with
    | Some m =>
        g ← group_text AttributeError m 1;
        mret (<["series" := VStr (strip g)]> result)
    | None => mret result
    end;
  (* Model *)
  let result :=
    match re_search false re_cpu_model title with
    | Some model_match => <["model" := of_group (group model_match 1)]> result
    | None => result
    end in
  (* Cores *)
  result ←
    match re_search true re_cpu_cores title with
    | Some cores_match =>
        g ← group_text TypeError cores_match 1;
        n ← py_int g;
        mret (<["cores" := VInt n]> result)
    | None => mret result
    end;
  (* Speed *)
  let result :=
    match re_search true re_cpu_speed title with
    | Some speed_match =>
        <["speed" := VStr (fmt_group (group speed_match 1) ++ " GHz")]> result
    | None => result
    end in
  (* Socket *)
  result ←
    match first_match true socket_patterns title with
    | Some m =>
        g ← group_text AttributeError m 1;
        let socket_val := strip g in
        let socket_val :=
          if negb (startswith "LGA" socket_val) && negb (startswith "AM" socket_val)
          then "Socket " ++ socket_val
          else socket_val in
        mret (<["socket" := VStr socket_val]> result)
    | None => mret result
    end;
  (* Power *)
  match re_search true re_cpu_power title with
  | Some power_match =>
      g ← group_text TypeError power_match 1;
      power_val ← py_int g;
      if (35 <=? power_val) && (power_val <=? 350)
      then mret (<["power" := VStr (str_of_Z power_val ++ "W")]> result)
      else mret result
  | None => mret result
  end.

(** *** parse_motherboard_specs *)

(** [([ABCXYZ]\d{3,4}|[BZ]\d{3,})] *)
Definition re_mb_chipset : regex :=
  Group 1 (One (one_of "ABCXYZ") +> Times 3 4 digit
           <|> One (one_of "BZ") +> AtLeast 3 digit).

(** [Socket\s+([A-Z0-9]+)|LGA\s*(\d{4,5})|AM[45]] *)
Definition re_mb_socket : regex :=
  Str "Socket" +> Plus space +> Group 1 (Plus (ASet [CRange "A" "Z"; CRange "0" "9"]))
  <|> Str "LGA" +> Star space +> Group 2 (Times 4 5 digit)
  <|> Str "AM" +> One (one_of "45").

Definition parse_motherboard_specs (title : str) : py (gmap string pyval) :=
  let result : gmap string pyval :=
    {[ "brand" := VNone; "chipset" := VNone; "socket" := VNone;
       "form_factor" := VNone; "memory_type" := VNone ]} in
  (* Brand *)
  let brands := strs ["ASUS"; "GIGABYTE"; "MSI"; "ASRock"; "MSI"] in
  let result :=
    match find_brand brands title with
    | Some brand => <["brand" := VStr brand]> result
    | None => result
    end in
  (* Chipset *)
  let result :=
    match re_search false re_mb_chipset title with
    | Some chipset_match => <["chipset" := of_group (group chipset_match 1)]> result
    | None => result
    end in
  (* Socket *)
  let result :=
    match re_search true re_mb_socket title with
    | Some socket_match => <["socket" := VStr (group0 socket_match)]> result
    | None => result
    end in
  (* Form Factor *)
  let result :=
    if str_in "ATX" title then <["form_factor" := VStr "ATX"]> result
    else if str_in "mATX" title || str_in "Micro ATX" title
    then <["form_factor" := VStr "mATX"]> result
    else if str_in "ITX" title then <["form_factor" := VStr "ITX"]> result
    else result in
  (* Memory Type *)
  let result :=
    if str_in "DDR5" title then <["memory_type" := VStr "DDR5"]> result
    else if str_in "DDR4" title then <["memory_type" := VStr "DDR4"]> result
    else result in
  mret result.

(** *** parse_memory_specs *)

(** [(\d+)\s*GB] *)
Definition re_mem_capacity : regex :=
  Group 1 (Plus digit) +> Star space +> Str "GB".

(** [(\d{4})\s*(?:MHz|PC5)] *)
Definition re_mem_speed : regex :=
  Group 1 (Times 4 4 digit) +> Star space +> (Str "MHz" <|> Str "PC5").

Definition parse_memory_specs (title : str) : py (gmap string pyval) :=
  let result : gmap string pyval :=
    {[ "brand" := VNone; "capacity_gb" := VNone; "type" := VNone;
       "speed_mhz" := VNone ]} in
  (* Brand *)
  let brands := strs ["CORSAIR"; "G.SKILL"; "Kingston"; "Crucial"; "Patriot"] in
  let result :=
    match find_brand brands title with
    | Some brand => <["brand" := VStr brand]> result
    | None => result
    end in
  (* Capacity *)
  result ←
    match re_search false re_mem_capacity title with
    | Some capacity_match =>
        g ← group_text TypeError capacity_match 1;
        n ← py_int g;
        mret (<["capacity_gb" := VInt n]> result)
    | None => mret result
    end;
  (* Type *)
  let result :=
    if str_in "DDR5" title then <["type" := VStr "DDR5"]> result
    else if str_in "DDR4" title then <["type" := VStr "DDR4"]> result
    else result in
  (* Speed *)
  match re_search false re_mem_speed title with
  | Some speed_match =>
      g ← group_text TypeError speed_match 1;
      n ← py_int g;
      mret (<["speed_mhz" := VInt n]> result)
  | None => mret result
  end.

(** *** parse_ssd_specs *)

(** Line 233: group 1 is digits, an optional point and further digits (one
    or more, then zero or more); then [\s*TB]. *)
Definition re_ssd_tb : regex :=
  Group 1 (Plus digit +> Opt (ALit ".") +> Star digit) +> Star space +> Str "TB".

(** [(\d+)\s*GB(?!\s*\w)] *)
Definition re_ssd_gb : regex :=
  Group 1 (Plus digit) +> Star space +> Str "GB"
  +> NotAhead (Star space +> One (ASet [CWord])).

(** Line 250: group 1 is digits, an optional comma and further digits (one
    or more, then zero or more); then [\s*MB/s]. *)
Definition re_ssd_read : regex :=
  Group 1 (Plus digit +> Opt (ALit ",") +> Star digit) +> Star space +> Str "MB/s".

Definition parse_ssd_specs (title : str) : py (gmap string pyval) :=
  let result : gmap string pyval :=
    {[ "brand" := VNone; "capacity_gb" := VNone; "interface" := VNone;
       "read_speed" := VNone; "form_factor" := VNone ]} in
  (* Brand *)
  let brands := strs ["SAMSUNG"; "Western Digital"; "WD"; "Crucial"; "Patriot";
                      "Kingston"; "Sabrent"; "Solidigm"] in
  let result :=
    match find_brand brands title with
    | Some brand => <["brand" := VStr brand]> result
    | None => result
    end in
  (* Capacity: the TB form first, then the GB form *)
  result ←
    match re_search false re_ssd_tb title with
    | Some capacity_match =>
        g ← group_text TypeError capacity_match 1;
        tb_value ← py_float g;
        n ← py_int_of_float (fmul tb_value (float_of_Z 1024));
        mret (<["capacity_gb" := VInt n]> result)
    | None =>
        match re_search false re_ssd_gb title with
        | Some capacity_match =>
            g ← group_text TypeError capacity_match 1;
            n ← py_int g;
            mret (<["capacity_gb" := VInt n]> result)
        | None => mret result
        end
    end;
  (* Interface *)
  let result :=
    if str_in "PCIe Gen4" title || str_in "PCIe 4.0" title
    then <["interface" := VStr "PCIe Gen4"]> result
    else if str_in "PCIe Gen3" title || str_in "PCIe 3.0" title
    then <["interface" := VStr "PCIe Gen3"]> result
    else result in
  (* Read Speed *)
  let result :=
    match re_search false re_ssd_read title with
    | Some read_match => <["read_speed" := of_group (group read_match 1)]> result
    | None => result
    end in
  (* Form Factor *)
  let result :=
    if str_in "M.2" title then <["form_factor" := VStr "M.2"]> result
    else if str_in ("2.5" ++ [dquote]) title
    then <["form_factor" := VStr "2.5 inch"]> result
    else result in
  mret result.

(** *** parse_laptop_specs *)

Definition dash_space : atom := ASet [CChar "-"; CSpace].

(** [(Intel Core [iU3579][-\s]*\d+[A-Za-z]{0,4})],
    [(Intel Core Ultra [3579]\s*\d+[A-Za-z]{0,4})],
    [(AMD Ryzen [3579]\s*\d{4}[A-Za-z]{0,4})] *)
Definition re_cpu_intel_core : regex :=
  Group 1 (Str "Intel Core " +> One (one_of "iU3579") +> Star dash_space
           +> Plus digit +> Times 0 4 letter).

Definition re_cpu_intel_ultra : regex :=
  Group 1 (Str "Intel Core Ultra " +> One (one_of "3579") +> Star space
           +> Plus digit +> Times 0 4 letter).

Definition re_cpu_amd_ryzen : regex :=
  Group 1 (Str "AMD Ryzen " +> One (one_of "3579") +> Star space
           +> Times 4 4 digit +> Times 0 4 letter).

(** [(Intel Core \d+ Proces)] *)
Definition re_cpu_intel_proces : regex :=
  Group 1 (Str "Intel Core " +> Plus digit +> Str " Proces").

(** [(\d+)\s*GB\s*DDR[45]] *)
Definition re_ram : regex :=
  Group 1 (Plus digit) +> Star space +> Str "GB" +> Star space +> Str "DDR"
  +> One (one_of "45").

(** [(\d+)\s*GB\s*(SSD|NVMe|M\.2)] *)
Definition re_laptop_storage_gb : regex :=
  Group 1 (Plus digit) +> Star space +> Str "GB" +> Star space
  +> Group 2 (Str "SSD" <|> Str "NVMe" <|> Str "M.2").

(** [(\d+)\s*TB\s*SSD] *)
Definition re_laptop_storage_tb : regex :=
  Group 1 (Plus digit) +> Star space +> Str "TB" +> Star space +> Str "SSD".

(** Line 304: group 1 is digits, an optional point and further digits (one
    or more, then zero or more); then one character that is the double
    quote or a blank. *)
Definition re_laptop_screen : regex :=
  Group 1 (Plus digit +> Opt (ALit ".") +> Star digit)
  +> One (ASet [CChar dquote; CSpace]).

(** [(RTX\s*\d+[A-Za-z]{0,4}\s*Laptop)],
    [(GeForce\s*RTX\s*\d+[A-Za-z]{0,4}\s*Laptop)],
    [(Radeon\s*RX\s*\d+[A-Za-z]{0,4})] *)
Definition re_gpu_rtx_laptop : regex :=
  Group 1 (Str "RTX" +> Star space +> Plus digit +> Times 0 4 letter
           +> Star space +> Str "Laptop").

Definition re_gpu_geforce_rtx_laptop : regex :=
  Group 1 (Str "GeForce" +> Star space +> Str "RTX" +> Star space +> Plus digit
           +> Times 0 4 letter +> Star space +> Str "Laptop").

Definition re_gpu_radeon_rx : regex :=
  Group 1 (Str "Radeon" +> Star space +> Str "RX" +> Star space +> Plus digit
           +> Times 0 4 letter).

Definition parse_laptop_specs (title : str) : py (gmap string pyval) :=
  let result : gmap string pyval :=
    {[ "brand" := VNone; "cpu" := VNone; "ram" := VNone; "storage" := VNone;
       "screen_size" := VNone; "gpu" := VNone ]} in
  (* Brand *)
  let brands := strs ["ASUS"; "MSI"; "Acer"; "Lenovo"; "Dell"; "HP"; "Razer";
                      "GIGABYTE"; "XIDAX"] in
  let result :=
    match find_brand brands title with
    | Some brand => <["brand" := VStr brand]> result
    | None => result
    end in
  (* CPU *)
  let cpu_patterns := [re_cpu_intel_core; re_cpu_intel_ultra; re_cpu_amd_ryzen;
                       re_cpu_intel_proces] in
  result ←
    match first_match true cpu_patterns title with
    | Some m =>
        g ← group_text AttributeError m 1;
        mret (<["cpu" := VStr (strip g)]> result)
    | None => mret result
    end;
  (* RAM *)
  let result :=
    match re_search true re_ram title with
    | Some ram_match =>
        <["ram" := VStr (fmt_group (group ram_match 1) ++ " GB")]> result
    | None => result
    end in
  (* Storage *)
  let result :=
    match re_search true re_laptop_storage_gb title with
    | Some storage_match =>
        <["storage" := VStr (fmt_group (group storage_match 1) ++ " GB "
                             ++ fmt_group (group storage_match 2))]> result
    | None =>
        match re_search true re_laptop_storage_tb title with
        | Some storage_match =>
            <["storage" := VStr (fmt_group (group storage_match 1) ++ " TB SSD")]> result
        | None => result
        end
    end in
  (* Screen Size *)
  result ←
    match re_search false re_laptop_screen title with
    | Some screen_match =>
        g ← group_text TypeError screen_match 1;
        x ← py_float g;
        if fle (float_of_Z 10) x && fle x (float_of_Z 20)
        then mret (<["screen_size" := VStr (fmt_group (group screen_match 1) ++ " inch")]> result)
        else mret result
    | None => mret result
    end;
  (* GPU *)
  let gpu_patterns := [re_gpu_rtx_laptop; re_gpu_geforce_rtx_laptop; re_gpu_radeon_rx] in
  match first_match true gpu_patterns title with
  | Some m =>
      g ← group_text AttributeError m 1;
      mret (<["gpu" := VStr (strip g)]> result)
  | None => mret result
  end.

(** *** parse_gaming_pc_specs *)

(** [(RTX\s*\d+[A-Za-z]{0,4})], [(GeForce\s*RTX\s*\d+[A-Za-z]{0,4})],
    [(GeForce\s*GTX\s*\d+[A-Za-z]{0,4})] *)
Definition re_gpu_rtx : regex :=
  Group 1 (Str "RTX" +> Star space +> Plus digit +> Times 0 4 letter).

Definition re_gpu_geforce_rtx : regex :=
  Group 1 (Str "GeForce" +> Star space +> Str "RTX" +> Star space +> Plus digit
           +> Times 0 4 letter).

Definition re_gpu_geforce_gtx : regex :=
  Group 1 (Str "GeForce" +> Star space +> Str "GTX" +> Star space +> Plus digit
           +> Times 0 4 letter).

(** [(\d+)\s*(GB|TB)\s*SSD|NVMe] *)
Definition re_pc_storage : regex :=
  Group 1 (Plus digit) +> Star space +> Group 2 (Str "GB" <|> Str "TB")
  +> Star space +> Str "SSD"
  <|> Str "NVMe".

Definition parse_gaming_pc_specs (title : str) : py (gmap string pyval) :=
  let result : gmap string pyval :=
    {[ "brand" := VNone; "cpu" := VNone; "gpu" := VNone; "ram" := VNone;
       "storage" := VNone ]} in
  (* Brand *)
  let brands := strs ["ABS"; "iBUYPOWER"; "CYBERPOWERPC"; "Skytech"; "CLX"; "Xidax"] in
  let result :=
    match find_brand brands title with
    | Some brand => <["brand" := VStr brand]> result
    | None => result
    end in
  (* CPU *)
  let cpu_patterns := [re_cpu_intel_core; re_cpu_intel_ultra; re_cpu_amd_ryzen] in
  result ←
    match first_match true cpu_patterns title with
    | Some m =>
        g ← group_text AttributeError m 1;
        mret (<["cpu" := VStr (strip g)]> result)
    | None => mret result
    end;
  (* GPU *)
  let gpu_patterns := [re_gpu_rtx; re_gpu_geforce_rtx; re_gpu_geforce_gtx;
                       re_gpu_radeon_rx] in
  result ←
    match first_match true gpu_patterns title with
    | Some m =>
        g ← group_text AttributeError m 1;
        mret (<["gpu" := VStr (strip g)]> result)
    | None => mret result
    end;
  (* RAM *)
  let result :=
    match re_search true re_ram title with
    | Some ram_match =>
        <["ram" := VStr (fmt_group (group ram_match 1) ++ " GB")]> result
    | None => result
    end in
  (* Storage *)
  let result :=
    match re_search true re_pc_storage title with
    | Some storage_match =>
        <["storage" := VStr (fmt_group (group storage_match 1) ++ " "
                             ++ fmt_group (group storage_match 2) ++ " SSD")]> result
    | None => result
    end in
  mret result.

(** *** extract_price *)

(** Line 378: one or more characters that are digits or commas, an optional
    point, then zero or more digits. *)
Definition re_price : regex :=
  Plus (ASet [CDigit; CChar ","]) +> Opt (ALit ".") +> Star digit.

Definition extract_price (price_str : str) : py (option float) :=
  if bool_decide (price_str = []) || bool_decide (price_str = "0") then mret None
  else
    let numbers := re_findall false re_price price_str in
    match numbers with
    | first :: _ =>
        price ← py_float (str_replace "," "" first);
        mret (if is_positive price then Some price else None)
    | [] => mret None
    end.

(** *** generate_amazon_link *)

(** [\d{4,5}[A-Za-z]{0,4}] *)
Definition re_link_model : regex := Times 4 5 digit +> Times 0 4 letter.

Definition generate_amazon_link (title category : str) : str :=
  let search_terms : list str := [] in
  let brands := strs ["AMD"; "Intel"; "ASUS"; "GIGABYTE"; "MSI"; "ASRock";
                      "CORSAIR"; "SAMSUNG"; "eufy"; "Arlo"; "Ubiquiti";
                      "Reolink"; "Kasa"; "Philips"; "Eve"] in
  let search_terms :=
    match find_brand brands title with
    | Some brand => search_terms ++ [brand]
    | None => search_terms
    end in
  let search_terms :=
    if bool_decide (category = "CPU") then
      match re_search false re_link_model title with
      | Some model_match => search_terms ++ [group0 model_match]
      | None => search_terms
      end
    else search_terms ++ take 5 (split_ws title) in
  let search_terms :=
    match search_terms with
    | [] => take 3 (split_ws title)
    | _ :: _ => search_terms
    end in
  let search_term := join " " (take 4 search_terms) in
  let encoded_search := quote_plus search_term in
  "https://www.amazon.com/s?k=" ++ encoded_search ++ "&tag=YOUR_TAG-20".

(** *** normalize_record *)

Definition normalize_record (now : str) (record : RawRecord)
    : py (option NormalizedRecord) :=
  let title := default [] (r_title record) in
  price ← extract_price (default [] (r_price record));
  match truthy_price price with
  | None => mret None
  | Some price =>
      let category := detect_category title in
      '(brand, specs) ←
        (if bool_decide (category = "CPU") then
           specs ← parse_cpu_specs title;
           mret (default VNone (specs !! "brand"), specs)
         else if bool_decide (category = "Motherboard") then
           specs ← parse_motherboard_specs title;
           mret (default VNone (specs !! "brand"), specs)
         else if bool_decide (category = "Memory") then
           specs ← parse_memory_specs title;
           mret (default VNone (specs !! "brand"), specs)
         else if bool_decide (category = "SSD") then
           specs ← parse_ssd_specs title;
           mret (default VNone (specs !! "brand"), specs)
         else if bool_decide (category = "Laptop") then
           specs ← parse_laptop_specs title;
           mret (default VNone (specs !! "brand"), specs)
         else if bool_decide (category = "Gaming PC") then
           specs ← parse_gaming_pc_specs title;
           mret (default VNone (specs !! "brand"), specs)
         else mret (VNone, ∅));
      mret (Some {|
        original_data := record;
        title := title;
        category := category;
        price := price;
        image_url := default [] (r_img_url record);
        product_link := default [] (r_product_link record);
        item_features := default [] (r_item_features record);
        processed_at := now;
        brand := brand;
        specs := specs;
        amazon_link := generate_amazon_link title category
      |})
  end.

(** *** process_all *)

(** The fields of the processor that [process_all] reads and writes. *)
Record Processor : Type := {
  raw_data : list RawRecord;
  processed_data : list NormalizedRecord;
  discarded_count : Z
}.

(** The processor after [__init__] and [load_data]. *)
Definition loaded (records : list RawRecord) : Processor :=
  {| raw_data := records; processed_data := []; discarded_count := 0 |}.

(** The variables the loop of [process_all] updates. *)
Record LoopState : Type := {
  valid_records : list NormalizedRecord;
  category_count : gmap str Z;
  discarded : Z
}.

(** [for idx, record in enumerate(self.raw_data, 1)]; [clock idx] is the
    time read while record [idx] is normalized. *)
Fixpoint process_loop (clock : nat -> str) (idx : nat) (records : list RawRecord)
    (st : LoopState) : py LoopState :=
  match records with
  | [] => mret st
  | record :: rest =>
      normalized ← normalize_record (clock idx) record;
      match normalized with
      | Some n =>
          let cat := category n in
          process_loop clock (S idx) rest
            {| valid_records := valid_records st ++ [n];
               category_count :=
                 <[cat := default 0 (category_count st !! cat) + 1]> (category_count st);
               discarded := discarded st |}
      | None =>
          process_loop clock (S idx) rest
            {| valid_records := valid_records st;
               category_count := category_count st;
               discarded := discarded st + 1 |}
      end
  end.

Definition process_all (clock : nat -> str) (self : Processor) : py Processor :=
  st ← process_loop clock 1 (raw_data self)
        {| valid_records := []; category_count := ∅;
           discarded := discarded_count self |};
  mret {| raw_data := raw_data self;
          processed_data := valid_records st;
          discarded_count := discarded st |}.

End Newegg.

(** ** src/sylvane/sylvane_process_fixed.py *)

Module Sylvane.

Open Scope re_scope.

(** A raw record as the scraper writes it: text fields.  A field is [None]
    when the key is absent from the JSON object. *)
Record RawRecord : Type := {
  r_product_name : option str;
  r_url : option str;
  r_price : option str;
  r_image_url : option str;
  r_coverage_area : option str;
  r_cadr_smoke : option str;
  r_cadr_pollen : option str;
  r_cadr_dust : option str;
  r_noise_level : option str;
  r_filter_type : option str;
  r_fan_speeds : option str
}.

Record NormalizedRecord : Type := {
  product_name : str;
  url : str;
  price : float;
  image_url : str;
  coverage_area : option Z;
  cadr_smoke : option Z;
  cadr_pollen : option Z;
  cadr_dust : option Z;
  noise_level : gmap string pyval;
  filter_type : option str;
  fan_speeds : option Z;
  amazon_link : str;
  processed_at : str
}.

(** [not value or value == 'N/A'] for a value that is [None] or text. *)
Definition missing (value : option str) : bool :=
  match value with
  | None => true
  | Some v => bool_decide (v = []) || bool_decide (v = "N/A")
  end.

(** [max(l)] for a non-empty list of integers. *)
Definition py_max (l : list Z) : Z :=
  match l with
  | [] => 0
  | x :: l' => fold_left Z.max l' x
  end.

(** *** extract_coverage_area *)

(** [sq\.?\s*ft\.?|square\s+feet|up\s+to|approximately|covers?\s+up\s+to|whole\s+house|manufacturer-suggested] *)
Definition re_coverage_units : regex :=
  Str "sq" +> Opt (ALit ".") +> Star space +> Str "ft" +> Opt (ALit ".")
  <|> Str "square" +> Plus space +> Str "feet"
  <|> Str "up" +> Plus space +> Str "to"
  <|> Str "approximately"
  <|> Str "cover" +> Opt (ALit "s") +> Plus space +> Str "up" +> Plus space +> Str "to"
  <|> Str "whole" +> Plus space +> Str "house"
  <|> Str "manufacturer-suggested".

(** [[\d,]+] *)
Definition re_digits_commas : regex := Plus (ASet [CDigit; CChar ","]).

Definition in_coverage_range (n : Z) : bool := (50 <=? n) && (n <=? 3000).

(** The text in which [extract_coverage_area] looks for numbers. *)
Definition coverage_text (value : str) : str :=
  let text := str_lower value in
  let text := re_sub false re_coverage_units "" text in
  strip text.

Definition extract_coverage_area (value : option str) : py (option Z) :=
  if missing value then mret None
  else
    let numbers := re_findall false re_digits_commas (coverage_text (default [] value)) in
    match numbers with
    | _ :: _ =>
        cleaned_numbers ←
          mapM (fun n => py_int (strip (str_replace "," "" n)))
               (List.filter (fun n => negb (bool_decide (strip (str_replace "," "" n) = [])))
                            numbers);
        let valid_numbers := List.filter in_coverage_range cleaned_numbers in
        match valid_numbers with
        | _ :: _ =>
            let max_num := py_max valid_numbers in
            mret (if 0 <? max_num then Some max_num else None)
        | [] => mret None
        end
    | [] => mret None
    end.

(** *** _extract_single_number and the CADR extractors *)

(** [\d+] *)
Definition re_digits : regex := Plus digit.

Definition _extract_single_number (value : str) : py (option Z) :=
  if bool_decide (value = []) then mret None
  else
    let numbers := re_findall false re_digits value in
    match numbers with
    | _ :: _ =>
        ns ← mapM py_int numbers;
        mret (Some (py_max ns))
    | [] => mret None
    end.

(** The names bound at module level (imports, the class, [main]). *)
Definition module_names : list string :=
  ["re"; "json"; "urllib"; "datetime"; "Path"; "psycopg2"; "RealDictCursor";
   "SylvaneDataProcessor"; "main"]%string.

(** Evaluating a name inside a function: it must be a parameter (or local)
    of the function or a module-level name; otherwise NameError.  (Builtins
    are left out: the only name looked up this way is [self].) *)
Definition resolve (params : list string) (name : string) : py unit :=
  if bool_decide (name ∈ params ++ module_names) then Ok tt
  else Raise (NameError name).

(** The three CADR extractors are declared [@staticmethod] with the single
    parameter [value], and their last line is
    [return self._extract_single_number(value)]. *)
Definition extract_cadr_smoke (value : option str) : py (option Z) :=
  if missing value then mret None
  else
    _ ← resolve ["value"%string] "self";
    _extract_single_number (default [] value).

Definition extract_cadr_pollen (value : option str) : py (option Z) :=
  if missing value then mret None
  else
    _ ← resolve ["value"%string] "self";
    _extract_single_number (default [] value).

Definition extract_cadr_dust (value : option str) : py (option Z) :=
  if missing value then mret None
  else
    _ ← resolve ["value"%string] "self";
    _extract_single_number (default [] value).

(** *** extract_noise_level *)

(** [db|decibels?|dba|decibel\s+level|noise\s+level|maximum|minimum] *)
Definition re_noise_units : regex :=
  Str "db"
  <|> Str "decibel" +> Opt (ALit "s")
  <|> Str "dba"
  <|> Str "decibel" +> Plus space +> Str "level"
  <|> Str "noise" +> Plus space +> Str "level"
  <|> Str "maximum"
  <|> Str "minimum".

(** Line 118: one or more digits, an optional point, zero or more digits. *)
Definition re_decimal : regex := Plus digit +> Opt (ALit ".") +> Star digit.

(** [int(x) if x == int(x) else x] *)
Definition int_if_whole (x : float) : py pyval :=
  n ← py_int_of_float x;
  mret (if float_eq_Z x n then VInt n else VFloat x).

(** [min(l)] and [max(l)] for a non-empty list of floats: the first least,
    respectively greatest, element. *)
Definition py_min_float (x : float) (l : list float) : float :=
  fold_left (fun m y => if flt y m then y else m) l x.

Definition py_max_float (x : float) (l : list float) : float :=
  fold_left (fun m y => if flt m y then y else m) l x.

Definition noise_dict (lo hi : pyval) : gmap string pyval :=
  {[ "min_noise" := lo; "max_noise" := hi ]}.

Definition extract_noise_level (value : option str) : py (gmap string pyval) :=
  if missing value then mret (noise_dict VNone VNone)
  else
    let text := str_lower (default [] value) in
    let text := re_sub false re_noise_units "" text in
    let text := strip text in
    let numbers := re_findall false re_decimal text in
    numbers ← mapM py_float (List.filter (fun n => negb (bool_decide (n = []))) numbers);
    match numbers with
    | [] => mret (noise_dict VNone VNone)
    | [x] =>
        noise_val ← int_if_whole x;
        mret (noise_dict noise_val noise_val)
    | x :: rest =>
        let min_val := py_min_float x rest in
        let max_val := py_max_float x rest in
        min_noise ← int_if_whole min_val;
        max_noise ← int_if_whole max_val;
        mret (noise_dict min_noise max_noise)
    end.

(** *** extract_filter_type, extract_fan_speeds *)

Definition extract_filter_type (value : option str) : option str :=
  if missing value then None else value.

(** [\b(\d+)\b] *)
Definition re_whole_number : regex := WordB +> Group 1 (Plus digit) +> WordB.

Definition word_numbers : list (str * Z) :=
  [ (s2l "one", 1); (s2l "two", 2); (s2l "three", 3); (s2l "four", 4);
    (s2l "five", 5); (s2l "six", 6); (s2l "seven", 7); (s2l "eight", 8);
    (s2l "nine", 9); (s2l "ten", 10) ].

Fixpoint word_loop (text : str) (items : list (str * Z)) : option Z :=
  match items with
  | [] => None
  | (word, num) :: rest =>
      if str_in word text then Some num else word_loop text rest
  end.

Definition extract_fan_speeds (value : option str) : py (option Z) :=
  if missing value then mret None
  else
    let text := strip (str_lower (default [] value)) in
    match re_search false re_whole_number text with
    | Some number_match =>
        g ← group_text TypeError number_match 1;
        n ← py_int g;
        mret (Some n)
    | None => mret (word_loop text word_numbers)
    end.

(** *** extract_price *)

(** [for num in numbers: price = float(num.replace(',', ''));
     if price > 0: return price] *)
Fixpoint price_loop (numbers : list str) : py (option float) :=
  match numbers with
  | [] => mret None
  | num :: rest =>
      price ← py_float (str_replace "," "" num);
      if is_positive price then mret (Some price) else price_loop rest
  end.

Definition extract_price (price_str : str) : py (option float) :=
  if bool_decide (price_str = []) || bool_decide (price_str = "0")
     || bool_decide (price_str = "N/A")
  then mret None
  else
    let clean_text := str_replace [chr 13] " " (str_replace [chr 10] " " price_str) in
    let clean_text := str_replace "Regular price" "" (str_replace "Sale price" "" clean_text) in
    let clean_text := strip clean_text in
    let numbers := re_findall false Newegg.re_price clean_text in
    price_loop numbers.

(** *** generate_amazon_link *)

Definition stop_words : list str :=
  strs ["air purifier"; "air purifiers"; "hepa"; "model"; "series"].

Definition generate_amazon_link (product_name : str) : str :=
  let title := str_lower product_name in
  let title := fold_left (fun t word => str_replace word "" t) stop_words title in
  let words := take 5 (split_ws title) in
  let search_term := join " " words in
  let encoded_search := quote_plus search_term in
  "https://www.amazon.com/s?k=" ++ encoded_search ++ "&tag=YOUR_TAG-20".

(** *** normalize_record *)

Definition normalize_record (now : str) (record : RawRecord)
    : py (option NormalizedRecord) :=
  let product_name := default [] (r_product_name record) in
  price ← extract_price (default [] (r_price record));
  match truthy_price price with
  | None => mret None
  | Some price =>
      coverage ← extract_coverage_area (r_coverage_area record);
      smoke ← extract_cadr_smoke (r_cadr_smoke record);
      pollen ← extract_cadr_pollen (r_cadr_pollen record);
      dust ← extract_cadr_dust (r_cadr_dust record);
      noise ← extract_noise_level (r_noise_level record);
      let filter := extract_filter_type (r_filter_type record) in
      fan ← extract_fan_speeds (r_fan_speeds record);
      mret (Some {|
        product_name := product_name;
        url := default [] (r_url record);
        price := price;
        image_url := default [] (r_image_url record);
        coverage_area := coverage;
        cadr_smoke := smoke;
        cadr_pollen := pollen;
        cadr_dust := dust;
        noise_level := noise;
        filter_type := filter;
        fan_speeds := fan;
        amazon_link := generate_amazon_link product_name;
        processed_at := now
      |})
  end.

(** *** process_all *)

Fixpoint process_loop (clock : nat -> str) (idx : nat) (records : list RawRecord)
    (valid_records : list NormalizedRecord) : py (list NormalizedRecord) :=
  match records with
  | [] => mret valid_records
  | record :: rest =>
      normalized ← normalize_record (clock idx) record;
      match normalized with
      | Some n => process_loop clock (S idx) rest (valid_records ++ [n])
      | None => process_loop clock (S idx) rest valid_records
      end
  end.

(** [self.processed_data] after [process_all] on [self.raw_data]. *)
Definition process_all (clock : nat -> str) (raw_data : list RawRecord)
    : py (list NormalizedRecord) :=
  process_loop clock 1 raw_data [].

End Sylvane.

(** ** src/newegg/newegg_scraper.py *)

Module NeweggScraper.

Open Scope re_scope.

(** What [extract_price] uses of a Playwright locator: the outcome of
    [await price_element.inner_text()], a text or an exception. *)
Record Locator : Type := { inner_text : py str }.

(** Line 59: the start of the text, one or more digits, an optional point,
    zero or more digits, [$].  [re.match] tries the start of the text only,
    where [^] holds. *)
Definition re_clean_price : regex :=
  Plus digit +> Opt (ALit ".") +> Star digit +> Eos.

(** [extract_price(price_element)]: [None] stands for no element; every
    exception inside the [try] gives "0". *)
Definition extract_price (price_element : option Locator) : str :=
  match price_element with
  | None => "0"
  | Some element =>
      match inner_text element with
      | Ok price_text =>
          let price_clean :=
            strip (str_replace "," "" (str_replace "$" "" price_text)) in
          match re_match false re_clean_price price_clean with
          | Some _ => price_clean
          | None => "0"
          end
      | Raise _ => "0"
      end
  end.

End NeweggScraper.

(** * Specification-level definitions

    The definitions below are not part of the processors.  They name what
    the statements that follow talk about: the language of a pattern, the
    specification's wording of a rule, the inputs of the scenarios. *)

(** ** Patterns *)

(** [n] respects the upper bound of a repetition. *)
Definition hi_ok (hi : option nat) (n : nat) : Prop :=
  match hi with
  | None => True
  | Some h => (n <= h)%nat
  end.

(** The texts a pattern can take, leaving aside what its assertions ([\b],
    [$], lookahead) ask of the surroundings. *)
Fixpoint lang (ic : bool) (r : regex) (w : str) : Prop :=
  match r with
  | Eps | WordB | Eos | NotAhead _ => w = []
  | One a => exists c, w = [c] /\ atom_ok ic a c = true
  | Str x => Forall2 (fun p c => atom_ok ic (ALit p) c = true) x w
  | Seq r1 r2 => exists w1 w2, w = w1 ++ w2 /\ lang ic r1 w1 /\ lang ic r2 w2
  | Alt r1 r2 => lang ic r1 w \/ lang ic r2 w
  | Rep lo hi a =>
      Forall (fun c => atom_ok ic a c = true) w /\ (lo <= length w)%nat
      /\ hi_ok hi (length w)
  | Group _ r' => lang ic r' w
  end.

(** The texts group [n] of a pattern can hold. *)
Fixpoint cap_lang (ic : bool) (r : regex) (n : nat) (w : str) : Prop :=
  match r with
  | Group k r' => (k = n /\ lang ic r' w) \/ cap_lang ic r' n w
  | Seq r1 r2 | Alt r1 r2 => cap_lang ic r1 n w \/ cap_lang ic r2 n w
  | _ => False
  end.

(** Group [n] takes part in every match of the pattern. *)
Fixpoint binds (n : nat) (r : regex) : bool :=
  match r with
  | Group k r' => bool_decide (k = n) || binds n r'
  | Seq r1 r2 => binds n r1 || binds n r2
  | Alt r1 r2 => binds n r1 && binds n r2
  | _ => false
  end.

(** The character before the position reached after the prefix [pre]. *)
Definition prev_after (prev : option ascii) (pre : str) : option ascii :=
  fold_left (fun _ c => Some c) pre prev.

(** ** Text *)

(** [needle] occurs in [hay]. *)
Definition contains (hay needle : str) : Prop :=
  exists a b, hay = a ++ needle ++ b.

Definition no_digit (c : ascii) : Prop := is_digit c = false.

(** Neither a digit nor a comma. *)
Definition no_numeric (c : ascii) : Prop := is_digit c = false /\ c <> ","%char.

(** The text holds a digit. *)
Definition has_digit (c : str) : bool := existsb is_digit c.

(** Dropping one character: [s.replace(c, '')]. *)
Definition without (c0 : ascii) (s : str) : str :=
  List.filter (fun c => negb (bool_decide (c = c0))) s.

(** ** Numbers *)

(** [x] is a positive binary64 number with a full 53-bit mantissa, and no
    binary64 number is nearer to [num / den]. *)
Definition nearest_binary64 (x : float) (num den : Z) : Prop :=
  exists m k,
    x = S754_finite false m (Zneg k)
    /\ 2 ^ 52 <= Zpos m < 2 ^ 53
    /\ Z.abs (2 * den * Zpos m - num * 2 ^ (Zpos k + 1)) <= den.

(** The Python floats [1234.5] and [159.99]. *)
Definition f1234_5 : float := S754_finite false 5429388417957888 (-42).
Definition f159_99 : float := S754_finite false 5629147690492232 (-45).

(** ** Classification, as the specification words it *)

(** Some keyword of the list, lower-cased, occurs in the lower-cased title. *)
Definition keyword_hits (title_lower : str) (keywords : list str) : bool :=
  existsb (fun k => str_in (str_lower k) title_lower) keywords.

(** The first category, in declared order, with a keyword that hits; the
    fallback when there is none. *)
Definition classify_spec (title : str) : str :=
  match List.find (fun ck => keyword_hits (str_lower title) ck.2)
                  Newegg.category_keywords with
  | Some ck => ck.1
  | None => "Other"
  end.

(** The keywords declared for Laptop and for Gaming PC. *)
Definition laptop_keywords : list str :=
  strs ["Laptop"; "Notebook"; "2-in-1"; "Chromebook"; "Gaming Laptop"; "TouchScreen Laptop"].

Definition gaming_pc_keywords : list str :=
  strs ["Gaming PC"; "Desktop PC"; "Pre-Built"; "Gaming Desktop"].

(** ** Parsers *)

(** The value a parser stores under a key, when it returns. *)
Definition spec_field (k : string) (r : py (gmap string pyval)) : option pyval :=
  match r with
  | Ok sp => sp !! k
  | Raise _ => None
  end.

(** What [parse_cpu_specs] stores under [power], from the first match of
    the wattage pattern. *)
Definition cpu_power (title : str) : pyval :=
  match re_search true Newegg.re_cpu_power title with
  | Some m =>
      match group m 1 with
      | Some g =>
          match digits_val 0 g with
          | Some n =>
              if (35 <=? n) && (n <=? 350) then VStr (str_of_Z n ++ "W") else VNone
          | None => VNone
          end
      | None => VNone
      end
  | None => VNone
  end.

(** What may follow the W of a wattage: the end of the title, a blank, a
    comma, a point or a closing parenthesis. *)
Definition ends_wattage (post : str) : bool :=
  match post with
  | [] => true
  | d :: _ =>
      is_space d || bool_decide (d = ","%char) || bool_decide (d = "."%char)
      || bool_decide (d = ")"%char)
  end.

(** ** Coverage area *)

(** The integer a token of digits and commas stands for, if it has a digit. *)
Definition token_value (tok : str) : option Z :=
  match without "," tok with
  | [] => None
  | d => digits_val 0 d
  end.

(** All integers found in a coverage text. *)
Definition coverage_numbers (value : option str) : list Z :=
  if Sylvane.missing value then []
  else omap token_value
         (re_findall false Sylvane.re_digits_commas
            (Sylvane.coverage_text (default [] value))).

(** ** Prices *)

(** The numeric candidates of a price text. *)
Definition price_candidates (s : str) : list str :=
  re_findall false Newegg.re_price s.

(** The text in which the Sylvane [extract_price] looks for candidates. *)
Definition clean_price_text (s : str) : str :=
  strip (str_replace "Regular price" ""
           (str_replace "Sale price" ""
              (str_replace [chr 13] " " (str_replace [chr 10] " " s)))).

(** The numbers the candidates stand for, separators stripped. *)
Definition candidate_values (cands : list str) (xs : list float) : Prop :=
  Forall2 (fun c x => py_float (str_replace "," "" c) = Ok x) cands xs.

(** The rule in the specification's words: take the first candidate; return
    it if strictly positive, otherwise null; null when there is none. *)
Definition first_candidate_rule (xs : list float) : option float :=
  match xs with
  | [] => None
  | x :: _ => if is_positive x then Some x else None
  end.

(** ** Records and runs *)

(** A raw Newegg record with the given title and price text only. *)
Definition newegg_record (title price : str) : Newegg.RawRecord :=
  {| Newegg.r_title := Some title; Newegg.r_price := Some price;
     Newegg.r_img_url := None; Newegg.r_product_link := None;
     Newegg.r_item_features := None |}.

(** A raw Sylvane record with the given name and price text only. *)
Definition sylvane_record (name price : str) : Sylvane.RawRecord :=
  {| Sylvane.r_product_name := Some name; Sylvane.r_url := None;
     Sylvane.r_price := Some price; Sylvane.r_image_url := None;
     Sylvane.r_coverage_area := None; Sylvane.r_cadr_smoke := None;
     Sylvane.r_cadr_pollen := None; Sylvane.r_cadr_dust := None;
     Sylvane.r_noise_level := None; Sylvane.r_filter_type := None;
     Sylvane.r_fan_speeds := None |}.

(** Equal in every field except [processed_at]. *)
Definition same_but_time (a b : Newegg.NormalizedRecord) : Prop :=
  Newegg.original_data a = Newegg.original_data b
  /\ Newegg.title a = Newegg.title b
  /\ Newegg.category a = Newegg.category b
  /\ Newegg.price a = Newegg.price b
  /\ Newegg.image_url a = Newegg.image_url b
  /\ Newegg.product_link a = Newegg.product_link b
  /\ Newegg.item_features a = Newegg.item_features b
  /\ Newegg.brand a = Newegg.brand b
  /\ Newegg.specs a = Newegg.specs b
  /\ Newegg.amazon_link a = Newegg.amazon_link b.

(** The outcomes of two runs agree up to the timestamp. *)
Inductive same_outcome :
    py (option Newegg.NormalizedRecord) -> py (option Newegg.NormalizedRecord) -> Prop :=
| both_raise e : same_outcome (Raise e) (Raise e)
| both_none : same_outcome (Ok None) (Ok None)
| both_some a b : same_but_time a b -> same_outcome (Ok (Some a)) (Ok (Some b)).

(** The outcome of normalizing each record in turn, record [i] at time
    [clock i]; the first exception ends the run. *)
Fixpoint normalize_each (clock : nat -> str) (idx : nat)
    (records : list Newegg.RawRecord) : py (list (option Newegg.NormalizedRecord)) :=
  match records with
  | [] => Ok []
  | r :: rest =>
      o ← Newegg.normalize_record (clock idx) r;
      os ← normalize_each clock (S idx) rest;
      Ok (o :: os)
  end.

(** The records kept, in order, and the number of records dropped. *)
Definition accepted (outs : list (option Newegg.NormalizedRecord))
    : list Newegg.NormalizedRecord :=
  omap id outs.

Fixpoint rejected (outs : list (option Newegg.NormalizedRecord)) : Z :=
  match outs with
  | [] => 0
  | None :: outs' => 1 + rejected outs'
  | Some _ :: outs' => rejected outs'
  end.

(** ** The end-to-end scenario *)

Definition e2e_title : str :=
  "AMD Ryzen 5 5600X 6-Core 3.7 GHz Socket AM4 65W Desktop Processor".

Definition e2e_record : Newegg.RawRecord := newegg_record e2e_title "$159.99".

(** The specs of the scenario as the specification lists them. *)
Definition e2e_specs_listed : gmap string pyval :=
  {[ "series" := VStr "Ryzen 5"; "model" := VStr "5600X"; "cores" := VInt 6;
     "speed" := VStr "3.7 GHz"; "socket" := VStr "AM4"; "power" := VStr "65W" ]}.

(** The specs [parse_cpu_specs] returns for the scenario. *)
Definition e2e_specs : gmap string pyval :=
  <["brand" := VStr "AMD"]> e2e_specs_listed.

Definition e2e_normalized (now : str) : Newegg.NormalizedRecord :=
  {| Newegg.original_data := e2e_record;
     Newegg.title := e2e_title;
     Newegg.category := "CPU";
     Newegg.price := f159_99;
     Newegg.image_url := [];
     Newegg.product_link := [];
     Newegg.item_features := [];
     Newegg.processed_at := now;
     Newegg.brand := VStr "AMD";
     Newegg.specs := e2e_specs;
     Newegg.amazon_link := "https://www.amazon.com/s?k=AMD+5600X&tag=YOUR_TAG-20" |}.

(** ** Keys and fields of the specs dictionaries *)

(** A set of dictionary keys. *)
Definition keys (l : list string) : gset string := list_to_set l.

(** The keys each parser declares in its [result] literal. *)
Abbreviation cpu_keys :=
  (keys ["brand"; "series"; "model"; "cores"; "speed"; "socket"; "power"]%string).

Abbreviation motherboard_keys :=
  (keys ["brand"; "chipset"; "socket"; "form_factor"; "memory_type"]%string).

Abbreviation memory_keys :=
  (keys ["brand"; "capacity_gb"; "type"; "speed_mhz"]%string).

Abbreviation ssd_keys :=
  (keys ["brand"; "capacity_gb"; "interface"; "read_speed"; "form_factor"]%string).

Abbreviation laptop_keys :=
  (keys ["brand"; "cpu"; "ram"; "storage"; "screen_size"; "gpu"]%string).

Abbreviation gaming_pc_keys :=
  (keys ["brand"; "cpu"; "gpu"; "ram"; "storage"]%string).

(** The socket [parse_cpu_specs] stores: none, or a text that starts with
    "LGA", "AM" or "Socket ". *)
Definition socket_text (v : pyval) : Prop :=
  v = VNone \/
  exists s, v = VStr s /\
    (startswith "LGA" s = true \/ startswith "AM" s = true
     \/ startswith "Socket " s = true).

(** What [parse_memory_specs] stores under [capacity_gb], from the first
    match of the capacity pattern. *)
Definition memory_capacity (title : str) : pyval :=
  match re_search false Newegg.re_mem_capacity title with
  | Some m =>
      match group m 1 with
      | Some g => match digits_val 0 g with Some n => VInt n | None => VNone end
      | None => VNone
      end
  | None => VNone
  end.

(** The screen size [parse_laptop_specs] stores: none, or the text of a
    number between 10 and 20 followed by " inch". *)
Definition screen_size_text (v : pyval) : Prop :=
  v = VNone \/
  exists g x, v = VStr (g ++ " inch") /\ py_float g = Ok x
              /\ fle (float_of_Z 10) x = true /\ fle x (float_of_Z 20) = true.

(** The text [u] is [w] when case is ignored. *)
Definition same_letters (w u : str) : Prop := str_lower u = str_lower w.

(** What [parse_gaming_pc_specs] stores under [storage]. *)
Definition pc_storage (title : str) : pyval :=
  match re_search true Newegg.re_pc_storage title with
  | Some m => VStr (fmt_group (group m 1) ++ " " ++ fmt_group (group m 2) ++ " SSD")
  | None => VNone
  end.

(** The categories that have a parser. *)
Definition parsed_categories : list str :=
  strs ["CPU"; "Motherboard"; "Memory"; "SSD"; "Laptop"; "Gaming PC"].

(** ** Floats read from decimal text *)

(** Zero, a positive number or plus infinity. *)
Definition nonneg_float (x : float) : Prop :=
  match x with
  | S754_zero false | S754_finite false _ _ | S754_infinity false => True
  | _ => False
  end.

(** ** Tallies and numbers *)

(** The number of records of a category. *)
Definition tally (c : str) (l : list Newegg.NormalizedRecord) : Z :=
  Z.of_nat (length (List.filter (fun n => bool_decide (Newegg.category n = c)) l)).

(** An entry of the tally dictionary: categories without records have none. *)
Definition tally_entry (k : Z) : option Z := if k =? 0 then None else Some k.

(** The integers written in a text: its maximal runs of digits. *)
Definition number_runs (value : str) : list Z :=
  omap (digits_val 0) (re_findall false Sylvane.re_digits value).

(** ** Search links *)

(** The characters of an encoded query: letters, digits, [_.-~], the plus
    sign that stands for a blank, and the percent sign of an escape. *)
Definition query_char (c : ascii) : bool :=
  between 48 57 c || between 65 90 c || between 97 122 c
  || existsb (fun x => (code c =? code x)%N) (s2l "_.-~+%").

(** The number of occurrences of a character. *)
Definition occurrences (c0 : ascii) (s : str) : nat :=
  length (List.filter (fun c => bool_decide (c = c0)) s).

(** A text without a blank. *)
Definition no_blank (w : str) : Prop := occurrences " " w = 0%nat.

(** ** Scraped prices *)

(** A clean price: digits with at most one point, after the first digit. *)
Definition clean_price (s : str) : Prop :=
  exists w1 w2 w3,
    s = w1 ++ w2 ++ w3
    /\ Forall (fun c => is_digit c = true) w1 /\ w1 <> []
    /\ (w2 = [] \/ w2 = ["."%char])
    /\ Forall (fun c => is_digit c = true) w3.

(** A pattern that ends with [$]. *)
Fixpoint ends_with_eos (r : regex) : bool :=
  match r with
  | Seq _ r2 => ends_with_eos r2
  | Eos => true
  | _ => false
  end.

(** * Properties *)

(** ** Proof tools *)

Ltac unfold_py := unfold mbind, py_bind, mret, py_ret in *.

Ltac each_char c :=
  destruct c as [[] [] [] [] [] [] [] []]; try reflexivity; try discriminate.

Ltac map_lookup :=
  repeat first
    [ rewrite lookup_insert_eq
    | rewrite lookup_insert_ne by discriminate ];
  try reflexivity.

Ltac split_cases :=
  repeat match goal with
         | H : _ \/ _ |- _ => destruct H
         | H : False |- _ => destruct H
         | H : _ /\ lang _ _ _ |- _ => destruct H
         end.

Arguments atom_ok : simpl never.

(** ** The language of a pattern *)

Lemma rep_loop_sound ic a lo hi s :
  forall count ctx acc x,
    hi_ok hi count ->
    x ∈ rep_loop ic a lo hi count ctx s acc ->
    x ∈ acc \/
    exists w, s = w ++ x.2 /\ taken x.1 = rev w ++ taken ctx
      /\ caps x.1 = caps ctx /\ prev0 x.1 = prev0 ctx
      /\ Forall (fun c => atom_ok ic a c = true) w
      /\ (lo <= count + length w)%nat /\ hi_ok hi (count + length w).
Proof.
  induction s as [|c s IH]; intros count ctx acc x Hhi Hx; simpl in Hx.
  - destruct (lo <=? count)%nat eqn:Hlo; [|by left].
    apply elem_of_cons in Hx as [->|Hx]; [|by left].
    right. exists []. simpl. apply Nat.leb_le in Hlo.
    rewrite Nat.add_0_r. repeat split; auto.
  - assert (Hacc : x ∈ (if (lo <=? count)%nat then (ctx, c :: s) :: acc else acc) ->
            x ∈ acc \/ exists w, c :: s = w ++ x.2 /\ taken x.1 = rev w ++ taken ctx
              /\ caps x.1 = caps ctx /\ prev0 x.1 = prev0 ctx
              /\ Forall (fun c => atom_ok ic a c = true) w
              /\ (lo <= count + length w)%nat /\ hi_ok hi (count + length w)).
    { intros H. destruct (lo <=? count)%nat eqn:Hlo; [|by left].
      apply elem_of_cons in H as [->|H]; [|by left].
      right. exists []. simpl. apply Nat.leb_le in Hlo.
      rewrite Nat.add_0_r. repeat split; auto. }
    destruct (atom_ok ic a c && below hi count) eqn:Hstep; [|by apply Hacc].
    apply andb_true_iff in Hstep as [Hok Hbelow].
    apply IH in Hx as [Hx|(w & Hs & Ht & Hc & Hp & Hall & Hlo & Hhi')].
    + by apply Hacc.
    + right. exists (c :: w). simpl. rewrite Hs, Ht. simpl.
      rewrite <- app_assoc. simpl.
      replace (count + S (length w))%nat with (S count + length w)%nat by lia.
      repeat split; auto.
    + destruct hi as [h|]; simpl in *; [|done].
      apply Nat.ltb_lt in Hbelow. lia.
Qed.

Lemma lit_run_sound ic w :
  forall ctx s x,
    x ∈ lit_run ic w ctx s ->
    exists w', s = w' ++ x.2 /\ taken x.1 = rev w' ++ taken ctx
      /\ caps x.1 = caps ctx /\ prev0 x.1 = prev0 ctx
      /\ Forall2 (fun p c => atom_ok ic (ALit p) c = true) w w'.
Proof.
  induction w as [|p w IH]; intros ctx s x Hx; simpl in Hx.
  - apply list_elem_of_singleton in Hx as ->. exists []. simpl. repeat split; auto.
  - destruct s as [|c s]; [by apply elem_of_nil in Hx|].
    destruct (atom_ok ic (ALit p) c) eqn:Hok; [|by apply elem_of_nil in Hx].
    apply IH in Hx as (w' & Hs & Ht & Hc & Hp & Hall).
    exists (c :: w'). simpl. rewrite Hs, Ht. simpl. rewrite <- app_assoc.
    repeat split; auto.
Qed.

(** Every way a pattern matches takes a prefix of the text that belongs to
    the pattern's language. *)
Lemma rmatch_sound ic r :
  forall ctx s x,
    x ∈ rmatch ic r ctx s ->
    exists w, s = w ++ x.2 /\ taken x.1 = rev w ++ taken ctx
      /\ prev0 x.1 = prev0 ctx /\ lang ic r w.
Proof.
  induction r as [|a|w|r1 IH1 r2 IH2|r1 IH1 r2 IH2|lo hi a|n r IH| | |r IH];
    intros ctx s x Hx; simpl in Hx.
  - apply list_elem_of_singleton in Hx as ->. by exists [].
  - destruct s as [|c s]; [by apply elem_of_nil in Hx|].
    destruct (atom_ok ic a c) eqn:Hok; [|by apply elem_of_nil in Hx].
    apply list_elem_of_singleton in Hx as ->. exists [c]. simpl. eauto 10.
  - apply lit_run_sound in Hx as (w' & ? & ? & ? & ? & ?). exists w'. simpl. auto.
  - apply list_elem_of_bind in Hx as (p & Hx & Hp).
    apply IH1 in Hp as (w1 & Hs1 & Ht1 & Hp1 & Hl1).
    apply IH2 in Hx as (w2 & Hs2 & Ht2 & Hp2 & Hl2).
    exists (w1 ++ w2). rewrite Hs1, Hs2, Ht2, Ht1, Hp2, Hp1, rev_app_distr, !app_assoc.
    repeat split; auto. simpl. eauto.
  - apply elem_of_app in Hx as [Hx|Hx]; [apply IH1 in Hx|apply IH2 in Hx];
      destruct Hx as (w & ? & ? & ? & ?); exists w; simpl; auto.
  - apply rep_loop_sound in Hx as [Hx|(w & ? & ? & ? & ? & ? & ? & ?)];
      [by apply elem_of_nil in Hx| |].
    + exists w. simpl in *. repeat split; auto.
    + destruct hi; simpl; [lia|done].
  - apply list_elem_of_fmap in Hx as (p & -> & Hp).
    apply IH in Hp as (w & ? & ? & ? & ?). exists w. simpl. auto.
  - destruct (at_boundary ctx s); [|by apply elem_of_nil in Hx].
    apply list_elem_of_singleton in Hx as ->. by exists [].
  - destruct (at_end s); [|by apply elem_of_nil in Hx].
    apply list_elem_of_singleton in Hx as ->. by exists [].
  - destruct (rmatch ic r ctx s); [|by apply elem_of_nil in Hx].
    apply list_elem_of_singleton in Hx as ->. by exists [].
Qed.

Lemma close_group_text ctx ctx' w :
  taken ctx' = rev w ++ taken ctx ->
  rev (take (length (taken ctx') - length (taken ctx)) (taken ctx')) = w.
Proof.
  intros ->. rewrite length_app, length_rev.
  replace (length w + length (taken ctx) - length (taken ctx))%nat
    with (length (rev w)) by (rewrite length_rev; lia).
  by rewrite take_app_length, rev_involutive.
Qed.

(** A group of a match holds a text of the group's own language, unless it
    was there before. *)
Lemma rmatch_caps ic r :
  forall ctx s x n w,
    x ∈ rmatch ic r ctx s ->
    cap_lookup n (caps x.1) = Some w ->
    cap_lookup n (caps ctx) = Some w \/ cap_lang ic r n w.
Proof.
  induction r as [|a|w0|r1 IH1 r2 IH2|r1 IH1 r2 IH2|lo hi a|k r IH| | |r IH];
    intros ctx s x n w Hx Hn; simpl in Hx.
  - apply list_elem_of_singleton in Hx as ->. by left.
  - destruct s as [|c s]; [by apply elem_of_nil in Hx|].
    destruct (atom_ok ic a c); [|by apply elem_of_nil in Hx].
    apply list_elem_of_singleton in Hx as ->. by left.
  - apply lit_run_sound in Hx as (w' & _ & _ & Hc & _). rewrite Hc in Hn. by left.
  - apply list_elem_of_bind in Hx as (p & Hx & Hp).
    destruct (IH2 _ _ _ _ _ Hx Hn) as [H|H]; [|simpl; auto].
    destruct (IH1 _ _ _ _ _ Hp H) as [H'|H']; simpl; auto.
  - apply elem_of_app in Hx as [Hx|Hx].
    + destruct (IH1 _ _ _ _ _ Hx Hn); simpl; auto.
    + destruct (IH2 _ _ _ _ _ Hx Hn); simpl; auto.
  - apply rep_loop_sound in Hx as [Hx|(w' & _ & _ & Hc & _)];
      [by apply elem_of_nil in Hx| |by destruct hi; simpl; [lia|]].
    rewrite Hc in Hn. by left.
  - apply list_elem_of_fmap in Hx as (p & -> & Hp). simpl in Hn.
    destruct (rmatch_sound _ _ _ _ _ Hp) as (w' & _ & Ht & _ & Hl).
    rewrite (close_group_text _ _ _ Ht) in Hn.
    destruct (decide (k = n)) as [->|Hne].
    + injection Hn as <-. right. simpl. auto.
    + destruct (IH _ _ _ _ _ Hp Hn); simpl; auto.
  - destruct (at_boundary ctx s); [|by apply elem_of_nil in Hx].
    apply list_elem_of_singleton in Hx as ->. by left.
  - destruct (at_end s); [|by apply elem_of_nil in Hx].
    apply list_elem_of_singleton in Hx as ->. by left.
  - destruct (rmatch ic r ctx s); [|by apply elem_of_nil in Hx].
    apply list_elem_of_singleton in Hx as ->. by left.
Qed.

(** Matching never forgets a group. *)
Lemma rmatch_caps_mono ic r :
  forall ctx s x n,
    x ∈ rmatch ic r ctx s ->
    is_Some (cap_lookup n (caps ctx)) -> is_Some (cap_lookup n (caps x.1)).
Proof.
  induction r as [|a|w0|r1 IH1 r2 IH2|r1 IH1 r2 IH2|lo hi a|k r IH| | |r IH];
    intros ctx s x n Hx Hn; simpl in Hx.
  - by apply list_elem_of_singleton in Hx as ->.
  - destruct s as [|c s]; [by apply elem_of_nil in Hx|].
    destruct (atom_ok ic a c); [|by apply elem_of_nil in Hx].
    by apply list_elem_of_singleton in Hx as ->.
  - apply lit_run_sound in Hx as (w' & _ & _ & Hc & _). by rewrite Hc.
  - apply list_elem_of_bind in Hx as (p & Hx & Hp). eauto.
  - apply elem_of_app in Hx as [Hx|Hx]; eauto.
  - apply rep_loop_sound in Hx as [Hx|(w' & _ & _ & Hc & _)];
      [by apply elem_of_nil in Hx| |by destruct hi; simpl; [lia|]].
    by rewrite Hc.
  - apply list_elem_of_fmap in Hx as (p & -> & Hp). simpl.
    destruct (decide (k = n)); [done|]. eauto.
  - destruct (at_boundary ctx s); [|by apply elem_of_nil in Hx].
    by apply list_elem_of_singleton in Hx as ->.
  - destruct (at_end s); [|by apply elem_of_nil in Hx].
    by apply list_elem_of_singleton in Hx as ->.
  - destruct (rmatch ic r ctx s); [|by apply elem_of_nil in Hx].
    by apply list_elem_of_singleton in Hx as ->.
Qed.

Lemma rmatch_binds ic r :
  forall ctx s x n,
    binds n r = true ->
    x ∈ rmatch ic r ctx s ->
    is_Some (cap_lookup n (caps x.1)).
Proof.
  induction r as [|a|w0|r1 IH1 r2 IH2|r1 IH1 r2 IH2|lo hi a|k r IH| | |r IH];
    intros ctx s x n Hb Hx; simpl in Hb; try discriminate; simpl in Hx.
  - apply list_elem_of_bind in Hx as (p & Hx & Hp).
    apply orb_true_iff in Hb as [Hb|Hb]; [|eauto].
    eapply rmatch_caps_mono; eauto.
  - apply andb_true_iff in Hb as [Hb1 Hb2].
    apply elem_of_app in Hx as [Hx|Hx]; eauto.
  - apply list_elem_of_fmap in Hx as (p & -> & Hp). simpl.
    destruct (decide (k = n)) as [|Hne]; [done|].
    apply orb_true_iff in Hb as [Hb|Hb]; [|eauto].
    by apply bool_decide_eq_true in Hb.
Qed.

(** *** What [re.search] and [re.findall] return *)

Lemma try_at_inv ic r prev s m :
  try_at ic r prev s = Some m ->
  exists ctx s', (ctx, s') ∈ rmatch ic r (MCtx prev [] []) s /\ m = match_of ctx.
Proof.
  unfold try_at. destruct (rmatch ic r (MCtx prev [] []) s) as [|[ctx s'] l] eqn:E;
    [discriminate|].
  intros [= <-]. exists ctx, s'. split; [left|done].
Qed.

Lemma try_at_lang ic r prev s m :
  try_at ic r prev s = Some m -> lang ic r (group0 m).
Proof.
  intros (ctx & s' & Hx & ->)%try_at_inv.
  apply rmatch_sound in Hx as (w & _ & Ht & _ & Hl). simpl in *.
  by rewrite Ht, app_nil_r, rev_involutive.
Qed.

Lemma try_at_group ic r prev s m n w :
  try_at ic r prev s = Some m -> group m n = Some w -> cap_lang ic r n w.
Proof.
  intros (ctx & s' & Hx & ->)%try_at_inv Hg.
  by destruct (rmatch_caps _ _ _ _ _ _ _ Hx Hg).
Qed.

Lemma try_at_binds ic r prev s m n :
  binds n r = true -> try_at ic r prev s = Some m -> is_Some (group m n).
Proof.
  intros Hb (ctx & s' & Hx & ->)%try_at_inv.
  by apply (rmatch_binds _ _ _ _ _ _ Hb Hx).
Qed.

Lemma search_from_inv ic r s :
  forall prev m,
    search_from ic r prev s = Some m ->
    exists prev' s', try_at ic r prev' s' = Some m.
Proof.
  induction s as [|c s IH]; intros prev m H; simpl in H.
  - destruct (try_at ic r prev []) eqn:E; [|discriminate].
    injection H as <-. eauto.
  - destruct (try_at ic r prev (c :: s)) eqn:E; [injection H as <-; eauto|].
    eauto.
Qed.

Lemma search_lang ic r s m :
  re_search ic r s = Some m -> lang ic r (group0 m).
Proof. intros (? & ? & H)%search_from_inv. eapply try_at_lang, H. Qed.

Lemma search_group ic r s m n w :
  re_search ic r s = Some m -> group m n = Some w -> cap_lang ic r n w.
Proof. intros (? & ? & H)%search_from_inv. eapply try_at_group, H. Qed.

Lemma search_binds ic r s m n :
  binds n r = true -> re_search ic r s = Some m -> is_Some (group m n).
Proof. intros Hb (? & ? & H)%search_from_inv. eapply try_at_binds; eauto. Qed.

Lemma first_match_inv ic ps s m :
  first_match ic ps s = Some m ->
  exists p, p ∈ ps /\ re_search ic p s = Some m.
Proof.
  induction ps as [|p ps IH]; simpl; [discriminate|].
  destruct (re_search ic p s) eqn:E.
  - intros [= <-]. exists p. split; [left|done].
  - intros (q & ? & ?)%IH. exists q. split; [by right|done].
Qed.

Lemma findall_loop_lang ic r s :
  forall prev skip c,
    c ∈ findall_loop ic r prev s skip -> lang ic r c.
Proof.
  induction s as [|a s IH]; intros prev skip c Hc.
  - destruct skip; simpl in Hc; [|by apply elem_of_nil in Hc].
    destruct (try_at ic r prev []) eqn:E; [|by apply elem_of_nil in Hc].
    apply list_elem_of_singleton in Hc as ->. eapply try_at_lang, E.
  - destruct skip; simpl in Hc; [|eauto].
    destruct (try_at ic r prev (a :: s)) eqn:E; [|eauto].
    apply elem_of_cons in Hc as [->|Hc]; [eapply try_at_lang, E|eauto].
Qed.

Lemma findall_lang ic r s c : c ∈ re_findall ic r s -> lang ic r c.
Proof. apply findall_loop_lang. Qed.

(** ** Substrings *)

Lemma startswith_spec p s : startswith p s = true <-> exists b, s = p ++ b.
Proof.
  revert s. induction p as [|a p IH]; intros s; simpl.
  - split; eauto.
  - destruct s as [|c s]; [split; [done|intros [? [=]]]|].
    destruct (decide (a = c)) as [->|Hne].
    + rewrite IH. split; intros [b Hb]; exists b; [by rewrite Hb|by injection Hb].
    + split; [done|intros [b [= ? ?]]; done].
Qed.

Lemma str_in_spec needle hay : str_in needle hay = true <-> contains hay needle.
Proof.
  induction hay as [|c hay IH]; simpl.
  - rewrite orb_false_r, startswith_spec. split.
    + intros [b Hb]. by exists [], b.
    + intros (a & b & H). destruct a; [by exists b|done].
  - rewrite orb_true_iff, IH, startswith_spec. split.
    + intros [[b Hb]|(a & b & Hab)]; [by exists [], b|].
      exists (c :: a), b. by rewrite Hab.
    + intros (a & b & Hab). destruct a as [|c' a]; [left; by exists b|].
      right. injection Hab as _ ->. by exists a, b.
Qed.

Lemma contains_lower hay needle :
  contains hay needle -> contains (str_lower hay) (str_lower needle).
Proof.
  intros (a & b & ->). exists (str_lower a), (str_lower b).
  unfold str_lower. by rewrite !map_app.
Qed.

(** ** Classification *)

Lemma keyword_loop_hits tl cat kws :
  Newegg.keyword_loop tl cat kws = if keyword_hits tl kws then Some cat else None.
Proof.
  induction kws as [|k kws IH]; simpl; [done|].
  destruct (str_in (str_lower k) tl); [done|]. by rewrite IH.
Qed.

Lemma category_loop_find tl items :
  Newegg.category_loop tl items =
  (fun ck : str * list str => ck.1) <$> List.find (fun ck => keyword_hits tl ck.2) items.
Proof.
  induction items as [|[cat kws] items IH]; simpl; [done|].
  rewrite keyword_loop_hits. destruct (keyword_hits tl kws); [done|]. by rewrite IH.
Qed.

Lemma keyword_hits_spec tl kws :
  keyword_hits tl kws = true <-> exists k, In k kws /\ contains tl (str_lower k).
Proof.
  unfold keyword_hits. rewrite existsb_exists.
  split; intros (k & ? & ?); exists k; split; auto; by apply str_in_spec.
Qed.

(** The two keyword lists are the ones declared, Laptop before Gaming PC. *)
Lemma keyword_lists_declared :
  exists rest,
    Newegg.category_keywords
    = (s2l "Laptop", laptop_keywords) :: (s2l "Gaming PC", gaming_pc_keywords) :: rest.
Proof. eexists. reflexivity. Qed.

(** C6.  [detect_category] lower-cases the title, scans the categories in
    declared order and returns the first one that has a keyword whose
    lower-cased form occurs in the title; it returns Other when no keyword
    of any category occurs.  Consequently a title that contains a Laptop
    keyword and a Gaming PC keyword is classified as Laptop. *)
Theorem detect_category_first_match (title : str) :
  Newegg.detect_category title = classify_spec title
  /\ (forall before cat kws after,
        Newegg.category_keywords = before ++ (cat, kws) :: after ->
        Forall (fun ck => forall k, In k ck.2 -> ~ contains (str_lower title) (str_lower k)) before ->
        (exists k, In k kws /\ contains (str_lower title) (str_lower k)) ->
        Newegg.detect_category title = cat)
  /\ ((forall ck k, In ck Newegg.category_keywords -> In k ck.2 ->
         ~ contains (str_lower title) (str_lower k)) ->
      Newegg.detect_category title = "Other")
  /\ (forall kl kg, In kl laptop_keywords -> In kg gaming_pc_keywords ->
        contains (str_lower title) (str_lower kl) ->
        contains (str_lower title) (str_lower kg) ->
        Newegg.detect_category title = "Laptop")
  /\ (forall kl kg, In kl laptop_keywords -> In kg gaming_pc_keywords ->
        contains title kl -> contains title kg ->
        Newegg.detect_category title = "Laptop").
Proof.
  assert (Hdef : Newegg.detect_category title = classify_spec title).
  { unfold Newegg.detect_category, classify_spec. rewrite category_loop_find.
    by destruct (List.find _ _). }
  assert (Hlap : forall kl kg, In kl laptop_keywords -> In kg gaming_pc_keywords ->
        contains (str_lower title) (str_lower kl) ->
        contains (str_lower title) (str_lower kg) ->
        Newegg.detect_category title = "Laptop").
  { intros kl kg Hkl _ Hc _. rewrite Hdef. unfold classify_spec.
    change Newegg.category_keywords with
      ((s2l "Laptop", laptop_keywords) :: tl Newegg.category_keywords).
    assert (Hhit : keyword_hits (str_lower title) laptop_keywords = true)
      by (apply keyword_hits_spec; eauto).
    cbn [List.find snd]. by rewrite Hhit. }
  split; [done|]. split; [|split; [|split; [done|]]].
  - intros before cat kws after Heq Hnone Hhit. rewrite Hdef. unfold classify_spec.
    rewrite Heq. clear Heq.
    induction Hnone as [|[c0 k0] before Hck _ IH]; simpl.
    + apply keyword_hits_spec in Hhit. by rewrite Hhit.
    + destruct (keyword_hits (str_lower title) k0) eqn:E; [|done].
      apply keyword_hits_spec in E as (k & Hk & Hc). by destruct (Hck k Hk).
  - intros Hnone. rewrite Hdef. unfold classify_spec.
    destruct (List.find _ _) as [ck|] eqn:E; [|done].
    apply find_some in E as [Hin Hhit].
    apply keyword_hits_spec in Hhit as (k & Hk & Hc). by destruct (Hnone ck k Hin Hk).
  - intros kl kg Hkl Hkg Hl Hg. apply (Hlap kl kg); auto using contains_lower.
Qed.

Lemma detect_category_first_match_witness :
  Newegg.detect_category "MSI Gaming Laptop, not a Gaming PC" = "Laptop".
Proof.
  refine (proj2 (proj2 (proj2 (proj2
    (detect_category_first_match "MSI Gaming Laptop, not a Gaming PC"))))
    "Laptop" "Gaming PC" _ _ _ _).
  - simpl. auto.
  - simpl. auto.
  - by exists (s2l "MSI Gaming "), (s2l ", not a Gaming PC").
  - by exists (s2l "MSI Gaming Laptop, not a "), [].
Defined.

(** ** Outcomes of two runs *)

(** C9.  Two runs of [normalize_record] on the same raw record, at clock
    readings [t1] and [t2], have the same outcome up to the timestamp: both
    return null, or both return records that are equal in every field
    except [processed_at], or both raise the same exception. *)
Theorem normalize_record_deterministic (record : Newegg.RawRecord) (t1 t2 : str) :
  same_outcome (Newegg.normalize_record t1 record) (Newegg.normalize_record t2 record)
  /\ (forall a b, Newegg.normalize_record t1 record = Ok (Some a) ->
                  Newegg.normalize_record t2 record = Ok (Some b) ->
                  same_but_time a b /\ Newegg.processed_at a = t1
                  /\ Newegg.processed_at b = t2)
  /\ (Newegg.normalize_record t1 record = Ok None <->
      Newegg.normalize_record t2 record = Ok None)
  /\ (forall e, Newegg.normalize_record t1 record = Raise e <->
                Newegg.normalize_record t2 record = Raise e).
Proof.
  unfold Newegg.normalize_record. unfold_py.
  destruct (Newegg.extract_price _) as [p|e];
    [|split; [constructor|split; [done|split; [done|done]]]].
  destruct (truthy_price p) as [x|];
    [|split; [constructor|split; [done|split; [done|done]]]].
  match goal with
  | |- context [match ?c with Ok _ => _ | Raise _ => _ end] => destruct c as [[b sp]|e]
  end.
  - split; [constructor; by repeat split|].
    split; [intros a0 b0 [= <-] [= <-]; by repeat split|].
    split; [done|done].
  - split; [constructor|split; [done|split; [done|done]]].
Qed.

(** ** The batch loop *)

Section Batch.

Variable clock : nat -> str.

Lemma accepted_rejected_length outs :
  Z.of_nat (length (accepted outs)) + rejected outs = Z.of_nat (length outs).
Proof.
  unfold accepted.
  induction outs as [|[n|] outs IH]; csimpl in *; lia.
Qed.

Lemma normalize_each_length records :
  forall idx outs, normalize_each clock idx records = Ok outs ->
                   length outs = length records.
Proof.
  induction records as [|r rest IH]; intros idx outs; simpl.
  - by intros [= <-].
  - unfold_py. destruct (Newegg.normalize_record _ r); [|done].
    destruct (normalize_each clock (S idx) rest) eqn:E; [|done].
    intros [= <-]. simpl. f_equal. eauto.
Qed.

Lemma process_loop_spec records :
  forall idx st,
    match normalize_each clock idx records with
    | Raise e => Newegg.process_loop clock idx records st = Raise e
    | Ok outs =>
        exists st', Newegg.process_loop clock idx records st = Ok st'
          /\ Newegg.valid_records st' = Newegg.valid_records st ++ accepted outs
          /\ Newegg.discarded st' = Newegg.discarded st + rejected outs
    end.
Proof.
  induction records as [|r rest IH]; intros idx st; simpl.
  - exists st. by rewrite app_nil_r, Z.add_0_r.
  - unfold_py. destruct (Newegg.normalize_record (clock idx) r) as [[n|]|e]; [| |done].
    + match goal with |- context [Newegg.process_loop clock (S idx) rest ?s] =>
        specialize (IH (S idx) s) end.
      destruct (normalize_each clock (S idx) rest) as [outs|e]; [|done].
      destruct IH as (st' & -> & Hv & Hd). exists st'. split; [done|].
      simpl in *. rewrite Hv, Hd, <- app_assoc. done.
    + match goal with |- context [Newegg.process_loop clock (S idx) rest ?s] =>
        specialize (IH (S idx) s) end.
      destruct (normalize_each clock (S idx) rest) as [outs|e]; [|done].
      destruct IH as (st' & -> & Hv & Hd). exists st'. split; [done|].
      simpl in *. rewrite Hv, Hd. split; [done|lia].
Qed.

(** On a freshly loaded processor [process_all] either stops at the first
    record whose normalization raises, or keeps the accepted records in
    input order and counts the others. *)
Lemma process_all_spec records :
  match normalize_each clock 1 records with
  | Raise e => Newegg.process_all clock (Newegg.loaded records) = Raise e
  | Ok outs =>
      Newegg.process_all clock (Newegg.loaded records) =
        Ok {| Newegg.raw_data := records;
              Newegg.processed_data := accepted outs;
              Newegg.discarded_count := rejected outs |}
      /\ Z.of_nat (length (accepted outs)) + rejected outs = Z.of_nat (length records)
  end.
Proof.
  unfold Newegg.process_all. unfold_py. simpl.
  pose proof (process_loop_spec records 1
    {| Newegg.valid_records := []; Newegg.category_count := ∅; Newegg.discarded := 0 |}) as H.
  destruct (normalize_each clock 1 records) as [outs|e] eqn:E.
  - destruct H as (st' & -> & Hv & Hd). simpl in *. rewrite Hv, Hd. split; [done|].
    rewrite accepted_rejected_length. f_equal. eapply normalize_each_length, E.
  - by rewrite H.
Qed.

End Batch.

(** ** Prices *)

Lemma newegg_price_positive s p :
  Newegg.extract_price s = Ok (Some p) -> is_positive p = true.
Proof.
  unfold Newegg.extract_price. unfold_py.
  destruct (_ || _); [done|].
  destruct (re_findall _ _ _) as [|c l]; [done|].
  destruct (py_float _) as [x|]; [|done].
  destruct (is_positive x) eqn:E; [|done]. by intros [= <-].
Qed.

Lemma price_loop_positive l p :
  Sylvane.price_loop l = Ok (Some p) -> is_positive p = true.
Proof.
  induction l as [|c l IH]; simpl; [done|]. unfold_py.
  destruct (py_float _) as [x|]; [|done].
  destruct (is_positive x) eqn:E; [by intros [= <-]|done].
Qed.

Lemma sylvane_price_positive s p :
  Sylvane.extract_price s = Ok (Some p) -> is_positive p = true.
Proof.
  unfold Sylvane.extract_price. unfold_py.
  destruct (_ || _); [done|]. apply price_loop_positive.
Qed.

Lemma truthy_price_inv p x : truthy_price p = Some x -> p = Some x.
Proof.
  destruct p as [y|]; simpl; [|done]. destruct (SFeqb y fzero); [done|].
  by intros [= <-].
Qed.

(** Every record [normalize_record] returns has a price above zero. *)
Lemma newegg_record_price_positive now record n :
  Newegg.normalize_record now record = Ok (Some n) ->
  is_positive (Newegg.price n) = true.
Proof.
  unfold Newegg.normalize_record. unfold_py.
  destruct (Newegg.extract_price _) as [p|] eqn:E; [|done].
  destruct (truthy_price p) as [x|] eqn:T; [|done].
  apply truthy_price_inv in T as ->. apply newegg_price_positive in E.
  match goal with
  | |- context [match ?c with Ok _ => _ | Raise _ => _ end] => destruct c as [[b sp]|e]
  end; [|done].
  by intros [= <-].
Qed.

Lemma sylvane_record_price_positive now record n :
  Sylvane.normalize_record now record = Ok (Some n) ->
  is_positive (Sylvane.price n) = true.
Proof.
  unfold Sylvane.normalize_record. unfold_py.
  destruct (Sylvane.extract_price _) as [p|] eqn:E; [|done].
  destruct (truthy_price p) as [x|] eqn:T; [|done].
  apply truthy_price_inv in T as ->. apply sylvane_price_positive in E.
  repeat match goal with
  | |- context [match ?c with Ok _ => _ | Raise _ => _ end] => destruct c; [|done]
  end.
  by intros [= <-].
Qed.

(** C7 (failing input).  The price text "Call, for price" holds no
    numeric character, yet [extract_price] raises ValueError on it instead
    of returning null, in both processors, and [normalize_record] raises
    with it instead of returning null. *)
Theorem price_without_digits_raises (now : str) :
  Newegg.extract_price "Call, for price" = Raise ValueError
  /\ Newegg.normalize_record now (newegg_record "Widget" "Call, for price")
     = Raise ValueError
  /\ Sylvane.extract_price "Call, for price" = Raise ValueError
  /\ Sylvane.normalize_record now (sylvane_record "Widget" "Call, for price")
     = Raise ValueError.
Proof. repeat split; vm_compute; reflexivity. Qed.

(** C8 (failing input).  On the input sequence of three records whose
    second price text is "Call, for price", [process_all] raises ValueError:
    it returns no accepted records and no discard count. *)
Theorem process_all_stops_on_raise (clock : nat -> str) :
  Newegg.process_all clock
    (Newegg.loaded [newegg_record "Widget A" "19.99";
                    newegg_record "Widget B" "Call, for price";
                    newegg_record "Widget C" "5.00"])
  = Raise ValueError.
Proof. vm_compute. reflexivity. Qed.

(** C2 (failing input).  For every non-empty value other than "N/A" each
    of the three CADR extractors raises NameError: its body evaluates the
    name [self], which a static method does not bind. *)
Theorem cadr_extractors_raise (value : str) :
  value <> [] -> value <> "N/A" ->
  Sylvane.extract_cadr_smoke (Some value) = Raise (NameError "self")
  /\ Sylvane.extract_cadr_pollen (Some value) = Raise (NameError "self")
  /\ Sylvane.extract_cadr_dust (Some value) = Raise (NameError "self").
Proof.
  intros H1 H2.
  unfold Sylvane.extract_cadr_smoke, Sylvane.extract_cadr_pollen,
    Sylvane.extract_cadr_dust, Sylvane.missing.
  rewrite !bool_decide_eq_false_2 by done. simpl. done.
Qed.

Lemma cadr_extractors_raise_witness :
  Sylvane.extract_cadr_smoke (Some (s2l "250 CFM")) = Raise (NameError "self")
  /\ Sylvane.extract_cadr_pollen (Some (s2l "250 CFM")) = Raise (NameError "self")
  /\ Sylvane.extract_cadr_dust (Some (s2l "250 CFM")) = Raise (NameError "self").
Proof. apply (cadr_extractors_raise "250 CFM"); discriminate. Defined.

(** ** Digits, commas and blanks *)

Lemma lower_is_digit c : is_digit (lower c) = is_digit c.
Proof. each_char c. Qed.

Lemma digit_not_space c : is_digit c = true -> is_space c = false.
Proof. each_char c. Qed.

Lemma digit_not_comma c : is_digit c = true -> c <> ","%char.
Proof. each_char c. Qed.

Lemma digit_not_point c : is_digit c = true -> c <> "."%char.
Proof. each_char c. Qed.

Lemma atom_ok_digit ic c : atom_ok ic digit c = is_digit c.
Proof.
  unfold atom_ok, digit. simpl. rewrite orb_false_r.
  destruct ic; [apply lower_is_digit|done].
Qed.

Lemma atom_ok_digit_comma c :
  atom_ok false (ASet [CDigit; CChar ","]) c = true ->
  is_digit c = true \/ c = ","%char.
Proof.
  unfold atom_ok. simpl. rewrite orb_false_r.
  intros [H|H]%orb_true_iff; [by left|right]. by apply bool_decide_eq_true in H.
Qed.

Lemma atom_ok_lit c x : atom_ok false (ALit x) c = true -> c = x.
Proof. unfold atom_ok. apply bool_decide_eq_true. Qed.

Lemma digits_val_some w :
  Forall (fun c => is_digit c = true) w ->
  forall acc, exists n, digits_val acc w = Some n.
Proof.
  induction 1 as [|c w Hc _ IH]; intros acc; simpl; [eauto|].
  rewrite Hc. apply IH.
Qed.

Lemma py_int_digits w :
  Forall (fun c => is_digit c = true) w -> w <> [] ->
  exists n, py_int w = Ok n /\ digits_val 0 w = Some n.
Proof.
  intros Hw Hne. destruct (digits_val_some w Hw 0) as [n Hn].
  exists n. unfold py_int. destruct w; [done|]. by rewrite Hn.
Qed.

Lemma replace_single c0 s : str_replace [c0] [] s = without c0 s.
Proof.
  unfold str_replace, without.
  induction s as [|c s IH]; simpl; [done|].
  destruct (decide (c0 = c)) as [->|Hne].
  - rewrite bool_decide_eq_true_2 by done. simpl. apply IH.
  - rewrite bool_decide_eq_false_2 by congruence. simpl. by rewrite IH.
Qed.

Lemma lstrip_id s :
  Forall (fun c => is_space c = false) s -> lstrip s = s.
Proof. destruct 1 as [|c s Hc _]; simpl; [done|]. by rewrite Hc. Qed.

Lemma strip_id s :
  Forall (fun c => is_space c = false) s -> strip s = s.
Proof.
  intros H. unfold strip, rstrip. rewrite (lstrip_id s H).
  rewrite lstrip_id, rev_involutive; [done|]. by apply List.Forall_rev.
Qed.

Lemma without_comma_digits w :
  Forall (fun c => is_digit c = true \/ c = ","%char) w ->
  Forall (fun c => is_digit c = true) (without "," w).
Proof.
  induction 1 as [|c w Hc _ IH]; simpl; [constructor|].
  destruct (decide (c = ","%char)) as [->|Hne]; simpl; [done|].
  rewrite bool_decide_eq_false_2 by done. simpl. constructor; [|done].
  by destruct Hc.
Qed.

Lemma digits_no_space w :
  Forall (fun c => is_digit c = true) w -> Forall (fun c => is_space c = false) w.
Proof. intros H. eapply Forall_impl; [exact H|]. intros c. apply digit_not_space. Qed.

(** ** Maximum *)

Lemma fold_max_spec l : forall x,
  (In (fold_left Z.max l x) (x :: l))
  /\ forall n, In n (x :: l) -> n <= fold_left Z.max l x.
Proof.
  induction l as [|y l IH]; intros x; simpl.
  - split; [auto|]. intros n [->|[]]. lia.
  - destruct (IH (Z.max x y)) as [Hin Hmax]. split.
    + destruct Hin as [H|H]; [|auto].
      rewrite <- H. destruct (Z.max_spec x y) as [[_ ->]|[_ ->]]; auto.
    + intros n [->|[->|H]].
      * pose proof (Hmax (Z.max n y) (or_introl eq_refl)). lia.
      * pose proof (Hmax (Z.max x n) (or_introl eq_refl)). lia.
      * apply Hmax. by right.
Qed.

Lemma py_max_spec l :
  l <> [] ->
  In (Sylvane.py_max l) l /\ forall n, In n l -> n <= Sylvane.py_max l.
Proof. destruct l as [|x l]; [done|]. intros _. apply fold_max_spec. Qed.

(** ** Coverage area *)

Lemma coverage_tokens_shape s tok :
  tok ∈ re_findall false Sylvane.re_digits_commas s ->
  Forall (fun c => is_digit c = true \/ c = ","%char) tok.
Proof.
  intros H%findall_lang. destruct H as (H & _ & _).
  eapply Forall_impl; [exact H|]. intros c. apply atom_ok_digit_comma.
Qed.

Lemma replace_comma s : str_replace "," "" s = without "," s.
Proof. apply (replace_single ","%char s). Qed.

Lemma mapM_py_cons {A B} (f : A -> py B) x l :
  mapM f (x :: l) =
  match f x with
  | Ok y => match mapM f l with Ok k => Ok (y :: k) | Raise e => Raise e end
  | Raise e => Raise e
  end.
Proof. reflexivity. Qed.

Lemma omap_cons {A B} (f : A -> option B) x l :
  omap f (x :: l) =
  match f x with Some y => y :: omap f l | None => omap f l end.
Proof. reflexivity. Qed.

Lemma clean_tokens toks :
  Forall (fun tok => Forall (fun c => is_digit c = true \/ c = ","%char) tok) toks ->
  mapM (fun n => py_int (strip (str_replace "," "" n)))
       (List.filter (fun n => negb (bool_decide (strip (str_replace "," "" n) = []))) toks)
  = Ok (omap token_value toks).
Proof.
  induction 1 as [|tok toks Htok _ IH]; [done|].
  cbn [List.filter]. rewrite replace_comma, omap_cons.
  pose proof (without_comma_digits tok Htok) as Hd.
  rewrite (strip_id _ (digits_no_space _ Hd)).
  unfold token_value at 1.
  destruct (without "," tok) as [|d0 d] eqn:E.
  - rewrite bool_decide_eq_true_2 by done. cbn [negb]. apply IH.
  - rewrite bool_decide_eq_false_2 by done. cbn [negb].
    rewrite mapM_py_cons. cbv beta.
    rewrite replace_comma, E, (strip_id _ (digits_no_space _ Hd)).
    destruct (py_int_digits (d0 :: d) Hd) as (n & -> & ->); [done|].
    by rewrite IH.
Qed.

Lemma in_coverage_range_spec n :
  Sylvane.in_coverage_range n = true <-> 50 <= n <= 3000.
Proof. unfold Sylvane.in_coverage_range. rewrite andb_true_iff, !Z.leb_le. done. Qed.

(** What [extract_coverage_area] returns, in terms of the integers found. *)
Lemma coverage_area_spec (value : option str) :
  exists res,
    Sylvane.extract_coverage_area value = Ok res
    /\ (forall m, res = Some m <->
          In m (coverage_numbers value) /\ 50 <= m <= 3000
          /\ forall n, In n (coverage_numbers value) -> 50 <= n <= 3000 -> n <= m)
    /\ (res = None <->
          forall n, In n (coverage_numbers value) -> ~ 50 <= n <= 3000).
Proof.
  unfold Sylvane.extract_coverage_area, coverage_numbers.
  destruct (Sylvane.missing value).
  { exists None. split; [done|]. split; [|split; [by intros _ n []|done]].
    intros m. split; [done|]. by intros [[] _]. }
  set (toks := re_findall false Sylvane.re_digits_commas _).
  assert (Hshape : Forall (fun tok => Forall (fun c => is_digit c = true \/ c = ","%char) tok) toks).
  { apply Forall_forall. intros tok Htok. eapply coverage_tokens_shape, Htok. }
  pose proof (clean_tokens toks Hshape) as Hclean.
  set (nums := omap token_value toks) in *.
  assert (Hres : exists res,
    (match List.filter Sylvane.in_coverage_range nums with
     | [] => None
     | _ :: _ =>
         let max_num := Sylvane.py_max (List.filter Sylvane.in_coverage_range nums) in
         if 0 <? max_num then Some max_num else None
     end) = res
    /\ (forall m, res = Some m <->
          In m nums /\ 50 <= m <= 3000
          /\ forall n, In n nums -> 50 <= n <= 3000 -> n <= m)
    /\ (res = None <-> forall n, In n nums -> ~ 50 <= n <= 3000)).
  { destruct (List.filter Sylvane.in_coverage_range nums) as [|v vs] eqn:Ev.
    - assert (Hnone : forall n, In n nums -> ~ 50 <= n <= 3000).
      { intros n Hn Hr. apply in_coverage_range_spec in Hr.
        assert (In n []) as []. rewrite <- Ev. apply filter_In. auto. }
      exists None. split; [done|]. split; [|done].
      intros m. split; [done|]. intros (Hm & Hr & _). by destruct (Hnone m Hm).
    - destruct (py_max_spec (v :: vs)) as [Hin Hmax]; [done|].
      rewrite <- Ev in Hin, Hmax.
      apply filter_In in Hin as [Hin Hr]. apply in_coverage_range_spec in Hr.
      cbv zeta. rewrite <- Ev.
      set (mx := Sylvane.py_max (List.filter Sylvane.in_coverage_range nums)) in *.
      replace (0 <? mx) with true by (symmetry; apply Z.ltb_lt; lia).
      exists (Some mx). split; [done|]. split.
      + intros m. split.
        * intros [= <-]. repeat split; try done; try lia.
          intros n Hn Hnr. apply Hmax, filter_In. split; [done|].
          by apply in_coverage_range_spec.
        * intros (Hm & Hmr & Hle). f_equal.
          assert (mx <= m) by (by apply Hle).
          assert (m <= mx); [|lia].
          apply Hmax, filter_In. split; [done|]. by apply in_coverage_range_spec.
      + split; [done|]. intros Hnone. by destruct (Hnone mx Hin). }
  destruct Hres as (res & Hres & Hspec). exists res. split; [|done].
  destruct toks as [|t0 ts] eqn:Et.
  - subst nums. simpl in Hres. by rewrite <- Hres.
  - rewrite Hclean. unfold_py. rewrite <- Hres.
    by destruct (List.filter Sylvane.in_coverage_range nums).
Qed.



(** ** Searching past a prefix *)

Lemma search_skip ic r (P : ascii -> Prop) :
  (forall prev c s, P c -> try_at ic r prev (c :: s) = None) ->
  forall pre, Forall P pre ->
  forall prev s,
    search_from ic r prev (pre ++ s) = search_from ic r (prev_after prev pre) s.
Proof.
  intros Hfail pre Hpre. induction Hpre as [|c pre Hc _ IH]; intros prev s; [done|].
  cbn [app search_from]. rewrite (Hfail _ _ _ Hc). apply IH.
Qed.

Lemma tb_needs_digit prev c s :
  no_digit c -> try_at false Newegg.re_ssd_tb prev (c :: s) = None.
Proof.
  intros Hc. unfold try_at, Newegg.re_ssd_tb, Plus. simpl.
  by rewrite atom_ok_digit, Hc.
Qed.

Lemma power_needs_digit prev c s :
  no_digit c -> try_at true Newegg.re_cpu_power prev (c :: s) = None.
Proof.
  intros Hc. unfold try_at, Newegg.re_cpu_power, Times. simpl.
  by rewrite atom_ok_digit, Hc.
Qed.

Lemma tb_at_768 prev post :
  try_at false Newegg.re_ssd_tb prev (s2l "7.68TB" ++ post)
  = Some (MatchObj "7.68TB" [(1%nat, s2l "7.68")]).
Proof. vm_compute. reflexivity. Qed.

Lemma power_at_500 prev post :
  ends_wattage post = true ->
  exists m, try_at true Newegg.re_cpu_power prev (s2l "500W" ++ post) = Some m
            /\ group m 1 = Some (s2l "500").
Proof.
  destruct post as [|d post]; intros H.
  - eexists. split; vm_compute; reflexivity.
  - destruct d as [[] [] [] [] [] [] [] []]; try discriminate H;
      first [ eexists; split; vm_compute; reflexivity
            | destruct post; eexists; split; vm_compute; reflexivity ].
Qed.

Lemma power_at_65 prev post :
  ends_wattage post = true ->
  exists m, try_at true Newegg.re_cpu_power prev (s2l "65W" ++ post) = Some m
            /\ group m 1 = Some (s2l "65").
Proof.
  destruct post as [|d post]; intros H.
  - eexists. split; vm_compute; reflexivity.
  - destruct d as [[] [] [] [] [] [] [] []]; try discriminate H;
      first [ eexists; split; vm_compute; reflexivity
            | destruct post; eexists; split; vm_compute; reflexivity ].
Qed.

(** ** SSD capacity *)

(** When the TB pattern matches, the capacity is its number times 1024,
    truncated; the GB pattern is not consulted. *)
Lemma parse_ssd_capacity_tb title m g x n :
  re_search false Newegg.re_ssd_tb title = Some m ->
  group m 1 = Some g ->
  py_float g = Ok x ->
  py_int_of_float (fmul x (float_of_Z 1024)) = Ok n ->
  exists sp, Newegg.parse_ssd_specs title = Ok sp
             /\ sp !! "capacity_gb" = Some (VInt n).
Proof.
  intros Hm Hg Hx Hn. unfold Newegg.parse_ssd_specs.
  rewrite Hm. unfold group_text. rewrite Hg. unfold_py. rewrite Hx, Hn.
  eexists. split; [reflexivity|].
  repeat case_match; map_lookup.
Qed.

(** The GB pattern is used only when the TB pattern finds nothing. *)
Lemma parse_ssd_capacity_gb title m g n :
  re_search false Newegg.re_ssd_tb title = None ->
  re_search false Newegg.re_ssd_gb title = Some m ->
  group m 1 = Some g ->
  py_int g = Ok n ->
  exists sp, Newegg.parse_ssd_specs title = Ok sp
             /\ sp !! "capacity_gb" = Some (VInt n).
Proof.
  intros Htb Hm Hg Hn. unfold Newegg.parse_ssd_specs.
  rewrite Htb, Hm. unfold group_text. rewrite Hg. unfold_py. rewrite Hn.
  eexists. split; [reflexivity|].
  repeat case_match; map_lookup.
Qed.

Lemma search_tb_768 pre post :
  Forall no_digit pre ->
  re_search false Newegg.re_ssd_tb (pre ++ s2l "7.68TB" ++ post)
  = Some (MatchObj "7.68TB" [(1%nat, s2l "7.68")]).
Proof.
  intros Hpre. unfold re_search.
  rewrite (search_skip _ _ no_digit tb_needs_digit pre Hpre).
  change (s2l "7.68TB" ++ post) with ("7"%char :: s2l ".68TB" ++ post).
  cbn [search_from].
  change ("7"%char :: s2l ".68TB" ++ post) with (s2l "7.68TB" ++ post).
  by rewrite tb_at_768.
Qed.

(** C4 (amended).  In [parse_ssd_specs] the terabyte pattern is tried
    first: whenever it matches, [capacity_gb] is its number times 1024,
    truncated to an integer, and the gigabyte pattern is not used.  For
    every title in which no digit comes before an occurrence of "7.68TB",
    [capacity_gb] is 7864 and not 68. *)
Theorem ssd_capacity_terabytes :
  (forall title m g x n,
      re_search false Newegg.re_ssd_tb title = Some m ->
      group m 1 = Some g ->
      py_float g = Ok x ->
      py_int_of_float (fmul x (float_of_Z 1024)) = Ok n ->
      exists sp, Newegg.parse_ssd_specs title = Ok sp
                 /\ sp !! "capacity_gb" = Some (VInt n))
  /\ (forall pre post,
        Forall no_digit pre ->
        exists sp, Newegg.parse_ssd_specs (pre ++ s2l "7.68TB" ++ post) = Ok sp
                   /\ sp !! "capacity_gb" = Some (VInt 7864)
                   /\ sp !! "capacity_gb" <> Some (VInt 68)).
Proof.
  split; [apply parse_ssd_capacity_tb|].
  intros pre post Hpre.
  destruct (parse_ssd_capacity_tb (pre ++ s2l "7.68TB" ++ post) _ (s2l "7.68")
              (float_of_decimal 768 2) 7864 (search_tb_768 pre post Hpre))
    as (sp & Hsp & Hcap); [reflexivity|vm_compute; reflexivity|vm_compute; reflexivity|].
  exists sp. rewrite Hcap. repeat split; [done|discriminate].
Qed.

Lemma ssd_capacity_terabytes_witness :
  exists sp, Newegg.parse_ssd_specs "Solidigm SSD 7.68TB PCIe 4.0 NVMe" = Ok sp
             /\ sp !! "capacity_gb" = Some (VInt 7864)
             /\ sp !! "capacity_gb" <> Some (VInt 68).
Proof.
  apply (proj2 ssd_capacity_terabytes (s2l "Solidigm SSD ") (s2l " PCIe 4.0 NVMe")).
  repeat constructor.
Defined.

(** A title that contains "7.68TB" after another TB figure. *)
Lemma ssd_capacity_first_figure_wins :
  contains (s2l "SAMSUNG 1TB or 7.68TB") (s2l "7.68TB")
  /\ spec_field "capacity_gb" (Newegg.parse_ssd_specs "SAMSUNG 1TB or 7.68TB")
     = Some (VInt 1024)
  /\ spec_field "capacity_gb" (Newegg.parse_ssd_specs "SAMSUNG 1TB or 7.68TB")
     <> Some (VInt 7864).
Proof.
  split; [by exists (s2l "SAMSUNG 1TB or "), []|].
  assert (H : spec_field "capacity_gb" (Newegg.parse_ssd_specs "SAMSUNG 1TB or 7.68TB")
              = Some (VInt 1024)) by (vm_compute; reflexivity).
  rewrite H. split; [done|discriminate].
Qed.

(** A title that contains "7.68TB" and yields 68. *)
Lemma ssd_capacity_can_be_68 :
  contains (s2l "0.0665TB 7.68TB") (s2l "7.68TB")
  /\ spec_field "capacity_gb" (Newegg.parse_ssd_specs "0.0665TB 7.68TB")
     = Some (VInt 68).
Proof.
  split; [by exists (s2l "0.0665TB "), []|]. vm_compute. reflexivity.
Qed.

(** ** CPU wattage *)

Lemma group_text_binds e ic r s m :
  binds 1 r = true -> re_search ic r s = Some m ->
  exists g, group m 1 = Some g /\ group_text e m 1 = Ok g.
Proof.
  intros Hb Hm. destruct (search_binds _ _ _ _ _ Hb Hm) as [g Hg].
  exists g. unfold group_text. by rewrite Hg.
Qed.

Lemma group_text_first e ic ps s m :
  Forall (fun p => binds 1 p = true) ps -> first_match ic ps s = Some m ->
  exists g, group_text e m 1 = Ok g.
Proof.
  intros Hb (p & Hp & Hm)%first_match_inv.
  destruct (group_text_binds e ic p s m) as (g & _ & Hg); [|done|eauto].
  by apply (proj1 (Forall_forall _ _) Hb).
Qed.

Lemma digits_of_rep ic lo hi w :
  lang ic (Rep (S lo) hi digit) w ->
  Forall (fun c => is_digit c = true) w /\ w <> [].
Proof.
  intros (Hall & Hlen & _). split.
  - eapply Forall_impl; [exact Hall|]. intros c. cbv beta. by rewrite atom_ok_digit.
  - destruct w; [simpl in Hlen; lia|done].
Qed.

Lemma step_ok {A} (o : option A) (f : A -> py (gmap string pyval))
    (r : gmap string pyval) (k : string) :
  (forall a, o = Some a -> exists r', f a = Ok r' /\ r' !! k = r !! k) ->
  exists r', match o with Some a => f a | None => mret r end = Ok r'
             /\ r' !! k = r !! k.
Proof. destruct o as [a|]; [intros H; by apply H|]. intros _. by exists r. Qed.

Lemma bind_ok {A B} (x : A) (f : A -> py B) : Ok x ≫= f = f x.
Proof. reflexivity. Qed.

Lemma int_group e ic r s m :
  binds 1 r = true ->
  (forall g, cap_lang ic r 1 g -> Forall (fun c => is_digit c = true) g /\ g <> []) ->
  re_search ic r s = Some m ->
  exists g n, group m 1 = Some g /\ group_text e m 1 = Ok g
              /\ py_int g = Ok n /\ digits_val 0 g = Some n.
Proof.
  intros Hb Hd Hm. destruct (group_text_binds e _ _ _ _ Hb Hm) as (g & Hg & Ht).
  destruct (Hd g (search_group _ _ _ _ _ _ Hm Hg)) as [Hall Hne].
  destruct (py_int_digits g Hall Hne) as (n & Hn & Hv). by exists g, n.
Qed.

Lemma cores_group g :
  cap_lang true Newegg.re_cpu_cores 1 g ->
  Forall (fun c => is_digit c = true) g /\ g <> [].
Proof.
  unfold Newegg.re_cpu_cores, Plus, Star. cbn [cap_lang]. intros H. split_cases.
  eapply digits_of_rep; eassumption.
Qed.

Lemma power_group g :
  cap_lang true Newegg.re_cpu_power 1 g ->
  Forall (fun c => is_digit c = true) g /\ g <> [].
Proof.
  unfold Newegg.re_cpu_power, Times, Star. cbn [cap_lang]. intros H. split_cases.
  eapply digits_of_rep; eassumption.
Qed.

Lemma lookup_match_insert {A} (o : option A) (k k' : string) (f : A -> pyval)
    (r : gmap string pyval) :
  k <> k' ->
  match o with Some a => <[k := f a]> r | None => r end !! k' = r !! k'.
Proof. intros Hne. destruct o; [by rewrite lookup_insert_ne|done]. Qed.

Lemma parse_cpu_specs_power title :
  exists sp, Newegg.parse_cpu_specs title = Ok sp
             /\ sp !! "power" = Some (cpu_power title).
Proof.
  unfold Newegg.parse_cpu_specs, cpu_power.
  match goal with
  | |- context [match re_search true Newegg.re_cpu_brand title with
                | Some _ => _ | None => ?r0 end] => set (res0 := r0)
  end.
  assert (H0 : res0 !! "power" = Some VNone) by (vm_compute; reflexivity).
  clearbody res0.
  (* Series *)
  match goal with
  | |- context [match first_match true Newegg.series_patterns title with
                | Some a => @?f a | None => mret ?r end] =>
      destruct (step_ok (first_match true Newegg.series_patterns title) f r "power")
        as (res2 & E2 & H2); [|rewrite E2, bind_ok; clear E2]
  end.
  { intros m Hm.
    destruct (group_text_first AttributeError true Newegg.series_patterns title m)
      as [g ->]; [repeat constructor|done|].
    rewrite bind_ok. eexists. split; [reflexivity|].
    by rewrite lookup_insert_ne. }
  rewrite lookup_match_insert, H0 in H2 by done. clear H0 res0.
  (* Cores *)
  match goal with
  | |- context [match re_search true Newegg.re_cpu_cores title with
                | Some a => @?f a | None => mret ?r end] =>
      destruct (step_ok (re_search true Newegg.re_cpu_cores title) f r "power")
        as (res3 & E3 & H3); [|rewrite E3, bind_ok; clear E3]
  end.
  { intros m Hm.
    destruct (int_group TypeError true Newegg.re_cpu_cores title m eq_refl cores_group Hm)
      as (g & n & _ & Hg & Hn & _).
    rewrite Hg, bind_ok, Hn, bind_ok. eexists. split; [reflexivity|].
    by rewrite lookup_insert_ne. }
  rewrite lookup_match_insert, H2 in H3 by done. clear H2 res2.
  (* Socket *)
  match goal with
  | |- context [match first_match true Newegg.socket_patterns title with
                | Some a => @?f a | None => mret ?r end] =>
      destruct (step_ok (first_match true Newegg.socket_patterns title) f r "power")
        as (res4 & E4 & H4); [|rewrite E4, bind_ok; clear E4]
  end.
  { intros m Hm.
    destruct (group_text_first AttributeError true Newegg.socket_patterns title m)
      as [g ->]; [repeat constructor|done|].
    rewrite bind_ok. eexists. split; [reflexivity|].
    by rewrite lookup_insert_ne. }
  rewrite lookup_match_insert, H3 in H4 by done. clear H3 res3.
  (* Power *)
  destruct (re_search true Newegg.re_cpu_power title) as [m|] eqn:Em;
    [|by exists res4].
  destruct (int_group TypeError true Newegg.re_cpu_power title m eq_refl power_group Em)
    as (g & n & Hg & Ht & Hn & Hv).
  rewrite Ht, bind_ok, Hn, bind_ok, Hg, Hv.
  destruct ((35 <=? n) && (n <=? 350)); eexists; (split; [reflexivity|]).
  - by rewrite lookup_insert_eq.
  - done.
Qed.

(** Titles with a wattage that is out of range and in range. *)
Lemma search_power_500 pre post :
  Forall no_digit pre -> ends_wattage post = true ->
  cpu_power (pre ++ s2l "500W" ++ post) = VNone.
Proof.
  intros Hpre Hpost. unfold cpu_power, re_search.
  rewrite (search_skip _ _ no_digit power_needs_digit pre Hpre).
  change (s2l "500W" ++ post) with ("5"%char :: s2l "00W" ++ post).
  cbn [search_from].
  change ("5"%char :: s2l "00W" ++ post) with (s2l "500W" ++ post).
  destruct (power_at_500 (prev_after None pre) post Hpost) as (m & -> & ->).
  reflexivity.
Qed.

Lemma search_power_65 pre post :
  Forall no_digit pre -> ends_wattage post = true ->
  cpu_power (pre ++ s2l "65W" ++ post) = VStr "65W".
Proof.
  intros Hpre Hpost. unfold cpu_power, re_search.
  rewrite (search_skip _ _ no_digit power_needs_digit pre Hpre).
  change (s2l "65W" ++ post) with ("6"%char :: s2l "5W" ++ post).
  cbn [search_from].
  change ("6"%char :: s2l "5W" ++ post) with (s2l "65W" ++ post).
  destruct (power_at_65 (prev_after None pre) post Hpost) as (m & -> & ->).
  reflexivity.
Qed.

(** The value of [power] read off the first match of the wattage pattern. *)
Lemma cpu_power_first_match title m g n :
  re_search true Newegg.re_cpu_power title = Some m ->
  group m 1 = Some g -> py_int g = Ok n ->
  cpu_power title
  = if (35 <=? n) && (n <=? 350) then VStr (str_of_Z n ++ "W") else VNone.
Proof.
  intros Hm Hg Hn. unfold cpu_power. rewrite Hm, Hg.
  assert (Hv : digits_val 0 g = Some n).
  { unfold py_int in Hn. destruct g; [done|].
    destruct (digits_val 0 _); [by injection Hn as ->|done]. }
  by rewrite Hv.
Qed.

(** The first match of the wattage pattern always captures a number. *)
Lemma first_match_number title m :
  re_search true Newegg.re_cpu_power title = Some m ->
  exists g n, group m 1 = Some g /\ py_int g = Ok n.
Proof.
  intros Hm.
  destruct (int_group ValueError true Newegg.re_cpu_power title m eq_refl
              power_group Hm) as (g & n & Hg & _ & Hn & _).
  by exists g, n.
Qed.

(** C5 (amended).  For every CPU title [parse_cpu_specs] returns, and
    [power] is decided by the first match of the wattage pattern in the
    title, whatever stands before or after it: [power] is either null or
    the text of an integer in [35, 350] followed by W; without a match it
    is null; a first match always captures a number [n]; when [n] is
    outside [35, 350], [power] is null; when [n] is inside, [power] is the
    text of [n] followed by W.  Hence every title whose first wattage
    token is "500W" yields a null [power], and every title whose first
    wattage token is "65W" yields "65W".  A token with no digit before it,
    followed by the end of the title, a blank, a comma, a point or a
    closing parenthesis, is the first one; so are the tokens of
    "Intel Core i9 65W", of "Intel Core i9 500W" and of the title of the
    end-to-end scenario, which have digits before them.  For every
    coverage-area text [extract_coverage_area] returns, and never a number
    outside [50, 3000]. *)
Theorem range_guards :
  (forall title,
      exists sp, Newegg.parse_cpu_specs title = Ok sp
        /\ (sp !! "power" = Some VNone
            \/ exists n, 35 <= n <= 350
                         /\ sp !! "power" = Some (VStr (str_of_Z n ++ "W")))
        /\ (forall m g n,
              re_search true Newegg.re_cpu_power title = Some m ->
              group m 1 = Some g -> py_int g = Ok n ->
              ~ 35 <= n <= 350 -> sp !! "power" = Some VNone)
        /\ (forall m g n,
              re_search true Newegg.re_cpu_power title = Some m ->
              group m 1 = Some g -> py_int g = Ok n ->
              35 <= n <= 350 -> sp !! "power" = Some (VStr (str_of_Z n ++ "W")))
        /\ (forall m,
              re_search true Newegg.re_cpu_power title = Some m ->
              exists g n, group m 1 = Some g /\ py_int g = Ok n)
        /\ (forall m,
              re_search true Newegg.re_cpu_power title = Some m ->
              group m 1 = Some (s2l "500") -> sp !! "power" = Some VNone)
        /\ (forall m,
              re_search true Newegg.re_cpu_power title = Some m ->
              group m 1 = Some (s2l "65") -> sp !! "power" = Some (VStr "65W"))
        /\ (re_search true Newegg.re_cpu_power title = None ->
            sp !! "power" = Some VNone))
  /\ (forall pre post,
        Forall no_digit pre -> ends_wattage post = true ->
        spec_field "power" (Newegg.parse_cpu_specs (pre ++ s2l "500W" ++ post))
          = Some VNone
        /\ spec_field "power" (Newegg.parse_cpu_specs (pre ++ s2l "65W" ++ post))
          = Some (VStr "65W"))
  /\ (forall value,
        exists res, Sylvane.extract_coverage_area value = Ok res
                    /\ forall n, res = Some n -> 50 <= n <= 3000)
  /\ (spec_field "power" (Newegg.parse_cpu_specs "Intel Core i9 65W")
        = Some (VStr "65W")
      /\ spec_field "power" (Newegg.parse_cpu_specs e2e_title) = Some (VStr "65W")
      /\ spec_field "power" (Newegg.parse_cpu_specs "Intel Core i9 500W")
        = Some VNone).
Proof.
  split; [|split; [|split]].
  - intros title. destruct (parse_cpu_specs_power title) as (sp & Hsp & Hp).
    exists sp. split; [done|]. rewrite Hp.
    split; [|split; [|split; [|split; [|split; [|split]]]]].
    + unfold cpu_power.
      destruct (re_search _ _ _) as [m|]; [|by left].
      destruct (group m 1) as [g|]; [|by left].
      destruct (digits_val 0 g) as [n|]; [|by left].
      destruct ((35 <=? n) && (n <=? 350)) eqn:E; [|by left].
      right. exists n. apply andb_true_iff in E as [?%Z.leb_le ?%Z.leb_le]. done.
    + intros m g n Hm Hg Hn Hout.
      rewrite (cpu_power_first_match _ _ _ _ Hm Hg Hn).
      destruct ((35 <=? n) && (n <=? 350)) eqn:E; [|done].
      apply andb_true_iff in E as [?%Z.leb_le ?%Z.leb_le]. lia.
    + intros m g n Hm Hg Hn [H1%Z.leb_le H2%Z.leb_le].
      rewrite (cpu_power_first_match _ _ _ _ Hm Hg Hn). by rewrite H1, H2.
    + apply first_match_number.
    + intros m Hm Hg.
      by rewrite (cpu_power_first_match _ _ _ 500 Hm Hg eq_refl).
    + intros m Hm Hg.
      by rewrite (cpu_power_first_match _ _ _ 65 Hm Hg eq_refl).
    + intros Hm. unfold cpu_power. by rewrite Hm.
  - intros pre post Hpre Hpost. split.
    + destruct (parse_cpu_specs_power (pre ++ s2l "500W" ++ post)) as (sp & -> & Hp).
      simpl. by rewrite Hp, search_power_500.
    + destruct (parse_cpu_specs_power (pre ++ s2l "65W" ++ post)) as (sp & -> & Hp).
      simpl. by rewrite Hp, search_power_65.
  - intros value. destruct (coverage_area_spec value) as (res & Hres & Hspec & _).
    exists res. split; [done|]. intros n Hn. by apply Hspec in Hn as (_ & ? & _).
  - split; [|split].
    + destruct (parse_cpu_specs_power "Intel Core i9 65W") as (sp & -> & Hp).
      simpl. rewrite Hp. vm_compute. reflexivity.
    + destruct (parse_cpu_specs_power e2e_title) as (sp & -> & Hp).
      simpl. rewrite Hp. vm_compute. reflexivity.
    + destruct (parse_cpu_specs_power "Intel Core i9 500W") as (sp & -> & Hp).
      simpl. rewrite Hp. vm_compute. reflexivity.
Qed.

Lemma range_guards_witness :
  spec_field "power"
    (Newegg.parse_cpu_specs "AMD Ryzen Threadripper PRO, 500W (peak)") = Some VNone
  /\ spec_field "power"
    (Newegg.parse_cpu_specs "AMD Ryzen Threadripper PRO, 65W (peak)") = Some (VStr "65W")
  /\ (exists sp, Newegg.parse_cpu_specs "Intel Core i9 65W" = Ok sp
                 /\ sp !! "power" = Some (VStr "65W"))
  /\ (exists sp, Newegg.parse_cpu_specs "Intel Core i9 500W" = Ok sp
                 /\ sp !! "power" = Some VNone).
Proof.
  split; [|split; [|split]].
  - apply (proj1 (proj2 range_guards) (s2l "AMD Ryzen Threadripper PRO, ")
             (s2l " (peak)")); [repeat constructor|reflexivity].
  - apply (proj1 (proj2 range_guards) (s2l "AMD Ryzen Threadripper PRO, ")
             (s2l " (peak)")); [repeat constructor|reflexivity].
  - destruct (proj1 range_guards (s2l "Intel Core i9 65W"))
      as (sp & Hsp & _ & _ & _ & _ & _ & H65 & _).
    exists sp. split; [exact Hsp|].
    apply (H65 (MatchObj (s2l "65W") [(1%nat, s2l "65")])); vm_compute; reflexivity.
  - destruct (proj1 range_guards (s2l "Intel Core i9 500W"))
      as (sp & Hsp & _ & _ & _ & _ & H500 & _).
    exists sp. split; [exact Hsp|].
    apply (H500 (MatchObj (s2l "500W") [(1%nat, s2l "500")])); vm_compute; reflexivity.
Defined.

(** A title that contains "500W" after an in-range wattage, and one that
    contains "65W" inside a longer number. *)
Lemma wattage_first_token_wins :
  contains (s2l "AMD Ryzen 5 65W TDP, 500W PSU advised") (s2l "500W")
  /\ spec_field "power" (Newegg.parse_cpu_specs "AMD Ryzen 5 65W TDP, 500W PSU advised")
     = Some (VStr "65W")
  /\ spec_field "power" (Newegg.parse_cpu_specs "AMD Ryzen 5 65W TDP, 500W PSU advised")
     <> Some VNone
  /\ contains (s2l "AMD Threadripper 165W ") (s2l "65W")
  /\ spec_field "power" (Newegg.parse_cpu_specs "AMD Threadripper 165W ")
     = Some (VStr "165W").
Proof.
  assert (H : spec_field "power"
                (Newegg.parse_cpu_specs "AMD Ryzen 5 65W TDP, 500W PSU advised")
              = Some (VStr "65W")) by (vm_compute; reflexivity).
  split; [by exists (s2l "AMD Ryzen 5 65W TDP, "), (s2l " PSU advised")|].
  rewrite H. split; [done|]. split; [discriminate|].
  split; [by exists (s2l "AMD Threadripper 1"), (s2l " ")|].
  vm_compute. reflexivity.
Qed.

(** ** Price candidates *)

Lemma without_app c0 a b : without c0 (a ++ b) = without c0 a ++ without c0 b.
Proof. unfold without. apply List.filter_app. Qed.

Lemma without_id c0 w : Forall (fun c => c <> c0) w -> without c0 w = w.
Proof.
  induction 1 as [|c w Hc _ IH]; simpl; [done|].
  rewrite bool_decide_eq_false_2 by done. simpl. by rewrite IH.
Qed.

Lemma split_point_digits d :
  Forall (fun c => is_digit c = true) d -> split_point d = (d, None).
Proof.
  induction 1 as [|c d Hc _ IH]; simpl; [done|].
  destruct (decide (c = "."%char)) as [->|_]; [done|]. by rewrite IH.
Qed.

Lemma split_point_at d rest :
  Forall (fun c => is_digit c = true) d ->
  split_point (d ++ "."%char :: rest) = (d, Some rest).
Proof.
  induction 1 as [|c d Hc _ IH]; simpl; [done|].
  destruct (decide (c = "."%char)) as [->|_]; [done|]. by rewrite IH.
Qed.

(** The shape of a price candidate: digits and commas, an optional point,
    digits. *)
Lemma price_candidate_shape c :
  lang false Newegg.re_price c ->
  exists w1 w2 w3,
    c = w1 ++ w2 ++ w3
    /\ Forall (fun x => is_digit x = true \/ x = ","%char) w1
    /\ (w2 = [] \/ w2 = ["."%char])
    /\ Forall (fun x => is_digit x = true) w3.
Proof.
  unfold Newegg.re_price, Plus, Opt, Star. cbn [lang].
  intros (w1 & r & -> & (H1 & _ & _) & w2 & w3 & -> & (H2 & _ & Hlen) & (H3 & _ & _)).
  exists w1, w2, w3. split; [done|]. split; [|split].
  - eapply Forall_impl; [exact H1|]. intros x. apply atom_ok_digit_comma.
  - simpl in Hlen. destruct w2 as [|p [|q w2]]; [by left| |simpl in Hlen; lia].
    right. apply Forall_inv in H2. by apply atom_ok_lit in H2 as ->.
  - eapply Forall_impl; [exact H3|]. intros x. cbv beta. by rewrite atom_ok_digit.
Qed.

Lemma digits_no_comma w :
  Forall (fun c => is_digit c = true) w -> Forall (fun c => c <> ","%char) w.
Proof. intros H. eapply Forall_impl; [exact H|]. intros c. apply digit_not_comma. Qed.

Lemma has_digit_app a b : has_digit (a ++ b) = has_digit a || has_digit b.
Proof. apply existsb_app. Qed.

Lemma has_digit_without w : has_digit (without "," w) = has_digit w.
Proof.
  induction w as [|c w IH]; simpl; [done|].
  destruct (decide (c = ","%char)) as [->|Hne].
  - simpl. apply IH.
  - rewrite bool_decide_eq_false_2 by done. simpl. by rewrite IH.
Qed.

Lemma has_digit_nil_iff w :
  Forall (fun c => is_digit c = true) w -> has_digit w = false -> w = [].
Proof. destruct 1 as [|c w Hc _]; [done|]. simpl. by rewrite Hc. Qed.

(** [float] accepts a candidate, commas removed, exactly when the candidate
    holds a digit. *)
Lemma py_float_candidate c :
  lang false Newegg.re_price c ->
  if has_digit c
  then exists x, py_float (str_replace "," "" c) = Ok x
  else py_float (str_replace "," "" c) = Raise ValueError.
Proof.
  intros (w1 & w2 & w3 & -> & H1 & H2 & H3)%price_candidate_shape.
  rewrite replace_comma, !without_app.
  pose proof (without_comma_digits w1 H1) as Hd1.
  rewrite (without_id _ w3 (digits_no_comma _ H3)).
  rewrite !has_digit_app, <- (has_digit_without w1).
  set (d1 := without "," w1) in *. clearbody d1.
  assert (Hall : Forall (fun c => is_digit c = true) (d1 ++ w3))
    by (by apply Forall_app).
  assert (Hsplit : exists fp, split_point (d1 ++ without "," w2 ++ w3) = (fp.1, fp.2)
                     /\ fp.1 ++ default [] fp.2 = d1 ++ w3).
  { destruct H2 as [-> | ->]; simpl.
    - exists (d1 ++ w3, None). simpl. rewrite app_nil_r.
      split; [by apply split_point_digits|done].
    - exists (d1, Some w3). simpl. split; [by apply split_point_at|done]. }
  destruct Hsplit as ([ip fp] & Hs & Hcat). simpl in Hs, Hcat.
  assert (Hw2 : has_digit w2 = false) by (by destruct H2 as [-> | ->]).
  rewrite Hw2, orb_false_l. unfold py_float. rewrite Hs, Hcat.
  destruct (digits_val_some _ Hall 0) as [m Hm].
  destruct (has_digit d1 || has_digit w3) eqn:E.
  - destruct (d1 ++ w3) eqn:E'.
    + apply app_eq_nil in E' as [-> ->]. discriminate E.
    + rewrite Hm. eauto.
  - apply orb_false_iff in E as [E1 E3].
    apply Forall_app in Hall as [Ha Hb].
    by rewrite (has_digit_nil_iff _ Ha E1), (has_digit_nil_iff _ Hb E3).
Qed.

(** ** The price rule *)

Lemma values_of_candidates cands :
  Forall (lang false Newegg.re_price) cands ->
  Forall (fun c => has_digit c = true) cands ->
  exists xs, candidate_values cands xs.
Proof.
  induction 1 as [|c l Hc _ IH]; intros Hd; [exists []; constructor|].
  apply Forall_cons in Hd as [Hdc Hd]. destruct (IH Hd) as [xs Hxs].
  pose proof (py_float_candidate c Hc) as Hf. rewrite Hdc in Hf.
  destruct Hf as [x Hx]. exists (x :: xs). by constructor.
Qed.

Lemma candidate_values_exist s :
  Forall (fun c => has_digit c = true) (price_candidates s) ->
  exists xs, candidate_values (price_candidates s) xs.
Proof.
  apply values_of_candidates, Forall_forall. intros c Hc. eapply findall_lang, Hc.
Qed.

Lemma price_loop_values cands xs :
  candidate_values cands xs ->
  Sylvane.price_loop cands = Ok (List.find is_positive xs).
Proof.
  induction 1 as [|c x cands xs Hx _ IH]; cbn [Sylvane.price_loop List.find]; [done|].
  rewrite Hx, bind_ok. by destruct (is_positive x).
Qed.

Lemma no_candidates_values s xs :
  price_candidates s = [] -> candidate_values (price_candidates s) xs -> xs = [].
Proof. intros ->. by inversion 1. Qed.

Lemma zero_candidate_values xs :
  candidate_values (price_candidates "0") xs -> xs = [fzero].
Proof.
  replace (price_candidates "0") with [s2l "0"] by (vm_compute; reflexivity).
  inversion 1 as [|c x l xs' Hx Hrest]; subst. inversion Hrest; subst.
  assert (H0 : py_float (str_replace "," "" "0") = Ok fzero) by (vm_compute; reflexivity).
  apply (eq_trans (eq_sym H0)) in Hx. by injection Hx as <-.
Qed.

Lemma newegg_price_rule s xs :
  candidate_values (price_candidates s) xs ->
  Newegg.extract_price s = Ok (first_candidate_rule xs).
Proof.
  intros Hxs. unfold Newegg.extract_price.
  destruct (bool_decide (s = [])) eqn:E0.
  { apply bool_decide_eq_true in E0 as ->.
    by rewrite (no_candidates_values [] xs eq_refl Hxs). }
  destruct (bool_decide (s = "0")) eqn:E1.
  { apply bool_decide_eq_true in E1 as ->.
    by rewrite (zero_candidate_values xs Hxs). }
  cbn [orb]. fold (price_candidates s).
  destruct Hxs as [|c x l xs' Hx _]; [done|].
  by rewrite Hx, bind_ok.
Qed.

Lemma sylvane_price_rule s xs :
  candidate_values (price_candidates (clean_price_text s)) xs ->
  Sylvane.extract_price s = Ok (List.find is_positive xs).
Proof.
  intros Hxs. unfold Sylvane.extract_price.
  destruct (bool_decide (s = [])) eqn:E0.
  { apply bool_decide_eq_true in E0 as ->.
    by rewrite (no_candidates_values (clean_price_text []) xs eq_refl Hxs). }
  destruct (bool_decide (s = "0")) eqn:E1.
  { apply bool_decide_eq_true in E1 as ->.
    by rewrite (zero_candidate_values xs Hxs). }
  destruct (bool_decide (s = "N/A")) eqn:E2.
  { apply bool_decide_eq_true in E2 as ->.
    by rewrite (no_candidates_values (clean_price_text "N/A") xs eq_refl Hxs). }
  cbn [orb]. by apply price_loop_values.
Qed.

(** C3 (amended).  Let the candidates of a price text be the matches of
    the numeric pattern, and let every candidate hold a digit.  Then the
    Newegg [extract_price] takes the first candidate, separators stripped,
    and returns it if strictly positive, otherwise null, and null when
    there is no candidate.  The Sylvane [extract_price] looks in the text
    cleaned of newlines and of the words "Sale price" and "Regular price"
    and returns the first strictly positive candidate, null when there is
    none.  Both return 1234.5 for "$1,234.50". *)
Theorem extract_price_rule (s : str) :
  (Forall (fun c => has_digit c = true) (price_candidates s) ->
   exists xs, candidate_values (price_candidates s) xs
              /\ Newegg.extract_price s = Ok (first_candidate_rule xs))
  /\ (Forall (fun c => has_digit c = true) (price_candidates (clean_price_text s)) ->
      exists xs, candidate_values (price_candidates (clean_price_text s)) xs
                 /\ Sylvane.extract_price s = Ok (List.find is_positive xs))
  /\ Newegg.extract_price "$1,234.50" = Ok (Some f1234_5)
  /\ Sylvane.extract_price "$1,234.50" = Ok (Some f1234_5).
Proof.
  split; [|split; [|split; vm_compute; reflexivity]].
  - intros (xs & Hxs)%candidate_values_exist. exists xs.
    split; [done|by apply newegg_price_rule].
  - intros (xs & Hxs)%candidate_values_exist. exists xs.
    split; [done|by apply sylvane_price_rule].
Qed.

Lemma extract_price_rule_witness :
  (exists xs, candidate_values (price_candidates "Now $1,234.50 (was $1,500)") xs
     /\ Newegg.extract_price "Now $1,234.50 (was $1,500)"
        = Ok (first_candidate_rule xs))
  /\ (exists xs,
        candidate_values
          (price_candidates (clean_price_text "Now $1,234.50 (was $1,500)")) xs
        /\ Sylvane.extract_price "Now $1,234.50 (was $1,500)"
           = Ok (List.find is_positive xs)).
Proof.
  split.
  - apply (proj1 (extract_price_rule "Now $1,234.50 (was $1,500)")).
    replace (price_candidates "Now $1,234.50 (was $1,500)")
      with [s2l "1,234.50"; s2l "1,500"] by (vm_compute; reflexivity).
    repeat constructor.
  - apply (proj1 (proj2 (extract_price_rule "Now $1,234.50 (was $1,500)"))).
    replace (price_candidates (clean_price_text "Now $1,234.50 (was $1,500)"))
      with [s2l "1,234.50"; s2l "1,500"] by (vm_compute; reflexivity).
    repeat constructor.
Defined.

(** The Sylvane [extract_price] passes over a first candidate that is
    zero. *)
Lemma sylvane_price_skips_zero :
  candidate_values (price_candidates (clean_price_text "$0.00 $5.00"))
                   [fzero; float_of_Z 5]
  /\ first_candidate_rule [fzero; float_of_Z 5] = None
  /\ Sylvane.extract_price "$0.00 $5.00" = Ok (Some (float_of_Z 5))
  /\ Sylvane.extract_price "$0.00 $5.00"
     <> Ok (first_candidate_rule [fzero; float_of_Z 5]).
Proof.
  assert (Hc : price_candidates (clean_price_text "$0.00 $5.00")
               = [s2l "0.00"; s2l "5.00"]) by (vm_compute; reflexivity).
  assert (He : Sylvane.extract_price "$0.00 $5.00" = Ok (Some (float_of_Z 5)))
    by (vm_compute; reflexivity).
  split; [|split; [|split]].
  - rewrite Hc. constructor; [vm_compute; reflexivity|].
    constructor; [vm_compute; reflexivity|constructor].
  - reflexivity.
  - exact He.
  - rewrite He. discriminate.
Qed.

(** ** The end-to-end scenario *)

(** C1 (amended).  For the single-element input
    [{title: "AMD Ryzen 5 5600X 6-Core 3.7 GHz Socket AM4 65W Desktop
    Processor", price: "$159.99"}] the Newegg pipeline ([normalize_record]
    applied by [process_all] on a freshly loaded processor) returns exactly
    one accepted record and a discarded count of 0.  The record has category
    CPU, brand AMD, price the float 159.99 (the binary64 number nearest to
    15999/100) and specs [{brand: "AMD", series: "Ryzen 5", model: "5600X",
    cores: 6, speed: "3.7 GHz", socket: "AM4", power: "65W"}]: the six
    listed entries and [brand].  Its [processed_at] is the clock reading
    for record 1. *)
Theorem end_to_end_scenario (clock : nat -> str) :
  Newegg.process_all clock (Newegg.loaded [e2e_record])
  = Ok {| Newegg.raw_data := [e2e_record];
          Newegg.processed_data := [e2e_normalized (clock 1%nat)];
          Newegg.discarded_count := 0 |}
  /\ nearest_binary64 f159_99 15999 100.
Proof.
  split; [vm_compute; reflexivity|].
  exists 5629147690492232%positive, 45%positive.
  split; [reflexivity|]. split; [vm_compute; split; [discriminate|reflexivity]|].
  vm_compute. discriminate.
Qed.

(** The scenario's specs are not the six listed entries alone. *)
Lemma end_to_end_specs_have_brand :
  exists p n,
    Newegg.process_all (fun _ => s2l "2024-01-01T00:00:00") (Newegg.loaded [e2e_record])
      = Ok p
    /\ Newegg.processed_data p = [n]
    /\ Newegg.specs n !! "brand" = Some (VStr "AMD")
    /\ Newegg.specs n <> e2e_specs_listed.
Proof.
  exists {| Newegg.raw_data := [e2e_record];
            Newegg.processed_data := [e2e_normalized "2024-01-01T00:00:00"];
            Newegg.discarded_count := 0 |},
         (e2e_normalized "2024-01-01T00:00:00").
  split; [vm_compute; reflexivity|]. split; [reflexivity|].
  split; [vm_compute; reflexivity|].
  intros Heq. apply (f_equal (fun m : gmap string pyval => m !! "brand")) in Heq.
  vm_compute in Heq. discriminate.
Qed.

Lemma normalize_record_deterministic_witness :
  same_but_time (e2e_normalized "2024-01-01T00:00:00") (e2e_normalized "2025-06-30T12:00:00").
Proof.
  apply (proj1 (proj2 (normalize_record_deterministic e2e_record
           "2024-01-01T00:00:00" "2025-06-30T12:00:00"))
           (e2e_normalized "2024-01-01T00:00:00") (e2e_normalized "2025-06-30T12:00:00"));
    vm_compute; reflexivity.
Defined.

(** ** Further facts *)

Example coverage_largest_not_first :
  Sylvane.extract_coverage_area (Some (s2l "300 - 500 sq. ft. (up to 1,500 sq. ft.)"))
  = Ok (Some 1500)
  /\ Sylvane.extract_coverage_area (Some (s2l "Covers 700 sq ft; 350 on high")) = Ok (Some 700)
  /\ Sylvane.extract_coverage_area (Some (s2l "20 to 5000 sq. ft.")) = Ok None.
Proof. repeat split; vm_compute; reflexivity. Qed.

Lemma f1234_5_exact : nearest_binary64 f1234_5 12345 10
  /\ 2 * 10 * 5429388417957888 = 12345 * 2 ^ 43.
Proof.
  split; [|reflexivity].
  exists 5429388417957888%positive, 42%positive.
  split; [reflexivity|]. split; [vm_compute; split; [discriminate|reflexivity]|].
  vm_compute. discriminate.
Qed.

Lemma price_needs_numeric prev c s :
  no_numeric c -> try_at false Newegg.re_price prev (c :: s) = None.
Proof.
  intros [Hd Hc]. unfold try_at, Newegg.re_price, Plus. simpl.
  replace (atom_ok false (ASet [CDigit; CChar ","]) c) with false; [done|].
  unfold atom_ok. simpl. rewrite Hd. by rewrite bool_decide_eq_false_2.
Qed.

Lemma findall_no_numeric s :
  Forall no_numeric s -> forall prev, findall_loop false Newegg.re_price prev s 0 = [].
Proof.
  induction 1 as [|c s Hc _ IH]; intros prev; [done|].
  cbn [findall_loop]. by rewrite price_needs_numeric.
Qed.

(** A price text without digits and commas is discarded. *)
Lemma newegg_non_numeric_price_discarded now record :
  Forall no_numeric (default [] (Newegg.r_price record)) ->
  Newegg.extract_price (default [] (Newegg.r_price record)) = Ok None
  /\ Newegg.normalize_record now record = Ok None.
Proof.
  intros H.
  assert (He : Newegg.extract_price (default [] (Newegg.r_price record)) = Ok None).
  { unfold Newegg.extract_price. destruct (_ || _); [done|].
    unfold re_findall. by rewrite findall_no_numeric. }
  split; [done|]. unfold Newegg.normalize_record. by rewrite He.
Qed.

(** * Further properties of the processors

    What follows covers the parsers, the record builders, the batch loops
    and the search links beyond the statements above. *)

(** ** Keys of a specification dictionary *)

Lemma dom_insert_same (r : gmap string pyval) k v D :
  dom r = D -> k ∈ D -> dom (<[k := v]> r) = D.
Proof.
  intros Hr Hk. rewrite dom_insert_L, Hr. apply set_eq. intros x.
  rewrite elem_of_union, elem_of_singleton. split; [intros [->|H]; done|by right].
Qed.

Ltac key_in := unfold keys; apply elem_of_list_to_set; repeat constructor.

Ltac dom_init :=
  rewrite ?dom_insert_L, dom_singleton_L; unfold keys; cbn [list_to_set foldr];
  rewrite (right_id_L ∅ (∪)); reflexivity.

Lemma dom_opt_insert {A} (o : option A) k (f : A -> pyval) (r : gmap string pyval) D :
  dom r = D -> k ∈ D ->
  dom (match o with Some a => <[k := f a]> r | None => r end) = D.
Proof. intros Hr Hk. destruct o; [by apply dom_insert_same|done]. Qed.

Lemma step_inv {A} (P : gmap string pyval -> Prop) (o : option A)
    (f : A -> py (gmap string pyval)) (r : gmap string pyval) :
  (o = None -> P r) ->
  (forall a, o = Some a -> exists r', f a = Ok r' /\ P r') ->
  exists r', match o with Some a => f a | None => mret r end = Ok r' /\ P r'.
Proof. intros Hr Hf. destruct o as [a|]; [by apply Hf|]. exists r. auto. Qed.

(** ** Motherboard *)

Lemma contains_app_r (hay needle pre : str) :
  contains hay (pre ++ needle) -> contains hay needle.
Proof.
  intros (a & b & ->). exists (a ++ pre), b. by rewrite <- !app_assoc.
Qed.

Lemma parse_motherboard_specs_fields title :
  exists sp,
    Newegg.parse_motherboard_specs title = Ok sp
    /\ dom sp = motherboard_keys
    /\ (contains title "ATX" -> sp !! "form_factor" = Some (VStr "ATX"))
    /\ (contains title "mATX" \/ contains title "Micro ATX" ->
        sp !! "form_factor" = Some (VStr "ATX"))
    /\ sp !! "form_factor" <> Some (VStr "mATX").
Proof.
  unfold Newegg.parse_motherboard_specs.
  match goal with
  | |- context [if str_in (s2l "ATX") title then _ else
                if _ then _ else if _ then _ else ?r] => set (res := r)
  end.
  eexists. split; [reflexivity|].
  assert (Hd : dom res = motherboard_keys).
  { subst res. repeat apply dom_opt_insert; try key_in. dom_init. }
  assert (Hf : res !! "form_factor" = Some VNone).
  { subst res. rewrite !lookup_match_insert by done. map_lookup. }
  clearbody res.
  assert (Hatx : contains title "mATX" \/ contains title "Micro ATX" -> contains title "ATX").
  { intros [H|H].
    - apply (contains_app_r title "ATX" "m"), H.
    - apply (contains_app_r title "ATX" "Micro "), H. }
  destruct (str_in "ATX" title) eqn:E1.
  - split; [|split; [|split]].
    + repeat case_match; repeat apply dom_insert_same; try done; key_in.
    + intros _. repeat case_match; map_lookup.
    + intros _. repeat case_match; map_lookup.
    + repeat case_match; rewrite ?lookup_insert_ne by done; rewrite lookup_insert_eq; discriminate.
  - assert (Hno : ~ contains title "ATX").
    { intros H%str_in_spec. congruence. }
    assert (E2 : str_in "mATX" title || str_in "Micro ATX" title = false).
    { apply orb_false_iff. split; apply not_true_is_false; intros H%str_in_spec; tauto. }
    rewrite E2.
    split; [|split; [|split]].
    + repeat case_match; repeat apply dom_insert_same; try done; key_in.
    + done.
    + tauto.
    + repeat case_match; rewrite ?lookup_insert_ne by done;
        rewrite ?lookup_insert_eq, ?Hf; discriminate.
Qed.

(** X1.  [parse_motherboard_specs] never raises and returns exactly the
    five keys brand, chipset, socket, form_factor and memory_type.  Its
    form factor is never "mATX": the test for "ATX" comes first, and a
    title that holds "mATX" or "Micro ATX" holds "ATX", so such a title is
    recorded as "ATX". *)
Theorem motherboard_form_factor (title : str) :
  exists sp,
    Newegg.parse_motherboard_specs title = Ok sp
    /\ dom sp = motherboard_keys
    /\ (contains title "ATX" -> sp !! "form_factor" = Some (VStr "ATX"))
    /\ (contains title "mATX" \/ contains title "Micro ATX" ->
        sp !! "form_factor" = Some (VStr "ATX"))
    /\ sp !! "form_factor" <> Some (VStr "mATX").
Proof. apply parse_motherboard_specs_fields. Qed.

(** ** CPU *)

(** A step of a parser that may raise: [match o with Some a => f a | None =>
    mret r end], followed by the rest of the parser. *)
Ltac mstep o P name H :=
  match goal with
  | |- context [match o with Some a => @?f a | None => mret ?r end] =>
      let E := fresh "E" in
      destruct (step_inv P o f r) as (name & E & H);
      [ | | try (rewrite E, bind_ok; clear E) ]
  end.

Ltac dom_pure := repeat apply dom_opt_insert; try key_in; try assumption.

Lemma parse_cpu_specs_fields title :
  exists sp,
    Newegg.parse_cpu_specs title = Ok sp
    /\ dom sp = cpu_keys
    /\ exists v, sp !! "socket" = Some v /\ socket_text v.
Proof.
  unfold Newegg.parse_cpu_specs.
  match goal with
  | |- context [match re_search true Newegg.re_cpu_brand title with
                | Some _ => _ | None => ?r0 end] => set (res0 := r0)
  end.
  assert (H0 : dom res0 = cpu_keys /\ res0 !! "socket" = Some VNone).
  { subst res0. split; [dom_init|map_lookup]. }
  clearbody res0.
  set (P := fun r : gmap string pyval =>
              dom r = cpu_keys /\ exists v, r !! "socket" = Some v /\ socket_text v).
  assert (HP : forall r, dom r = cpu_keys -> r !! "socket" = Some VNone -> P r).
  { intros r Hd Hs. split; [done|]. exists VNone. split; [done|by left]. }
  assert (Hins : forall r k v, P r -> k <> "socket"%string -> k ∈ cpu_keys ->
                               P (<[k := v]> r)).
  { intros r k v [Hd Hs] Hk Hin. split; [by apply dom_insert_same|].
    by rewrite lookup_insert_ne. }
  assert (Hopt : forall A (o : option A) r k (f : A -> pyval), P r ->
                   k <> "socket"%string -> k ∈ cpu_keys ->
                   P (match o with Some a => <[k := f a]> r | None => r end)).
  { intros A o r k f Hr Hk Hin. destruct o; [by apply Hins|done]. }
  (* Series *)
  mstep (first_match true Newegg.series_patterns title) P res2 H2.
  { intros _. apply Hopt; [apply HP; tauto|done|key_in]. }
  { intros m Hm.
    destruct (group_text_first AttributeError true Newegg.series_patterns title m)
      as [g ->]; [repeat constructor|done|].
    rewrite bind_ok. eexists. split; [reflexivity|].
    apply Hins; [|done|key_in]. apply Hopt; [apply HP; tauto|done|key_in]. }
  clear H0 res0 HP.
  (* Cores *)
  mstep (re_search true Newegg.re_cpu_cores title) P res3 H3.
  { intros _. apply Hopt; [done|done|key_in]. }
  { intros m Hm.
    destruct (int_group TypeError true Newegg.re_cpu_cores title m eq_refl cores_group Hm)
      as (g & n & _ & Hg & Hn & _).
    rewrite Hg, bind_ok, Hn, bind_ok. eexists. split; [reflexivity|].
    apply Hins; [|done|key_in]. apply Hopt; [done|done|key_in]. }
  clear H2 res2.
  (* Socket *)
  mstep (first_match true Newegg.socket_patterns title) P res4 H4.
  { intros _. apply Hopt; [done|done|key_in]. }
  { intros m Hm.
    destruct (group_text_first AttributeError true Newegg.socket_patterns title m)
      as [g ->]; [repeat constructor|done|].
    rewrite bind_ok. eexists. split; [reflexivity|].
    assert (Hp : P (match re_search true Newegg.re_cpu_speed title with
                    | Some speed_match =>
                        <["speed" := VStr (fmt_group (group speed_match 1) ++ " GHz")]> res3
                    | None => res3 end)) by (apply Hopt; [done|done|key_in]).
    destruct Hp as [Hd _]. split; [apply dom_insert_same; [done|key_in]|].
    rewrite lookup_insert_eq. eexists. split; [reflexivity|]. right.
    eexists. split; [reflexivity|].
    destruct (startswith "LGA" (strip g)) eqn:E1; [by left|].
    destruct (startswith "AM" (strip g)) eqn:E2; [right; by left|].
    right. right. reflexivity. }
  clear H3 res3.
  (* Power *)
  change (P res4) in H4. fold P.
  apply step_inv; [done|].
  intros m Hm.
  destruct (int_group TypeError true Newegg.re_cpu_power title m eq_refl power_group Hm)
    as (g & n & _ & Ht & Hn & _).
  rewrite Ht, bind_ok, Hn, bind_ok.
  destruct ((35 <=? n) && (n <=? 350)); eexists; (split; [reflexivity|]); [|done].
  apply Hins; [done|done|key_in].
Qed.

(** X2.  [parse_cpu_specs] never raises, for any title: the groups it
    calls [strip] and [int] on are always there and always digits.  It
    returns exactly the seven keys brand, series, model, cores, speed,
    socket and power, and the socket it stores is null or a text that
    starts with "LGA", "AM" or "Socket ". *)
Theorem cpu_specs_keys_and_socket (title : str) :
  exists sp,
    Newegg.parse_cpu_specs title = Ok sp
    /\ dom sp = cpu_keys
    /\ exists v, sp !! "socket" = Some v /\ socket_text v.
Proof. apply parse_cpu_specs_fields. Qed.

(** ** Memory *)

Lemma mem_capacity_group g :
  cap_lang false Newegg.re_mem_capacity 1 g ->
  Forall (fun c => is_digit c = true) g /\ g <> [].
Proof.
  unfold Newegg.re_mem_capacity, Plus, Star. cbn [cap_lang]. intros H. split_cases.
  eapply digits_of_rep; eassumption.
Qed.

Lemma mem_speed_group g :
  cap_lang false Newegg.re_mem_speed 1 g ->
  Forall (fun c => is_digit c = true) g /\ g <> [].
Proof.
  unfold Newegg.re_mem_speed, Times, Star. cbn [cap_lang]. intros H. split_cases.
  eapply digits_of_rep; eassumption.
Qed.

Lemma parse_memory_specs_fields title :
  exists sp, Newegg.parse_memory_specs title = Ok sp /\ dom sp = memory_keys
             /\ sp !! "capacity_gb" = Some (memory_capacity title).
Proof.
  unfold Newegg.parse_memory_specs, memory_capacity.
  match goal with
  | |- context [match find_brand ?b title with
                | Some _ => _ | None => ?r0 end] => set (res0 := r0); set (brands := b)
  end.
  assert (H0 : dom res0 = memory_keys) by (subst res0; dom_init).
  assert (H0' : res0 !! "capacity_gb" = Some VNone) by (subst res0; map_lookup).
  clearbody res0.
  set (P := fun r : gmap string pyval =>
              dom r = memory_keys /\ r !! "capacity_gb" = Some (memory_capacity title)).
  assert (Hins : forall r k v, P r -> k <> "capacity_gb"%string -> k ∈ memory_keys ->
                               P (<[k := v]> r)).
  { intros r k v [Hd Hs] Hk Hin. split; [by apply dom_insert_same|].
    by rewrite lookup_insert_ne. }
  mstep (re_search false Newegg.re_mem_capacity title) P res1 H1.
  { intros Hnone. split; [dom_pure|]. unfold memory_capacity. rewrite Hnone.
    by rewrite lookup_match_insert. }
  { intros m Hm.
    destruct (int_group TypeError false Newegg.re_mem_capacity title m eq_refl
                mem_capacity_group Hm) as (g & n & Hgr & Hg & Hn & Hv).
    rewrite Hg, bind_ok, Hn, bind_ok. eexists. split; [reflexivity|].
    split; [apply dom_insert_same; [dom_pure|key_in]|].
    unfold memory_capacity. by rewrite Hm, Hgr, Hv, lookup_insert_eq. }
  clear H0 H0' res0. fold (memory_capacity title). fold P.
  apply step_inv.
  { intros _. repeat case_match; repeat apply Hins; try done; key_in. }
  intros m Hm.
  destruct (int_group TypeError false Newegg.re_mem_speed title m eq_refl
              mem_speed_group Hm) as (g & n & _ & Hg & Hn & _).
  rewrite Hg, bind_ok, Hn, bind_ok. eexists. split; [reflexivity|].
  apply Hins; [|done|key_in].
  repeat case_match; repeat apply Hins; try done; key_in.
Qed.

(** ** A run of digits at the start of a match *)

Lemma rep_loop_greedy ic a lo w :
  forall count ctx s acc,
    Forall (fun c => atom_ok ic a c = true) w ->
    match s with [] => True | c :: _ => atom_ok ic a c = false end ->
    (lo <= count + length w)%nat ->
    exists tl, rep_loop ic a lo None count ctx (w ++ s) acc
               = (MCtx (prev0 ctx) (rev w ++ taken ctx) (caps ctx), s) :: tl.
Proof.
  induction w as [|c w IH]; intros count ctx s acc Hw Hs Hlo.
  - simpl in Hlo. rewrite Nat.add_0_r in Hlo. apply Nat.leb_le in Hlo.
    destruct ctx as [p t cs]. destruct s as [|c s]; simpl; rewrite Hlo; [eauto|].
    rewrite Hs. simpl. eauto.
  - apply Forall_cons in Hw as [Hc Hw]. cbn [app rep_loop]. rewrite Hc. cbn [below andb].
    destruct (IH (S count) (eat c ctx) s
                 (if (lo <=? count)%nat then (ctx, c :: w ++ s) :: acc else acc) Hw Hs)
      as [tl ->]; [simpl in Hlo; lia|].
    exists tl. simpl. by rewrite <- app_assoc.
Qed.

Lemma mem_needs_digit prev c s :
  no_digit c -> try_at false Newegg.re_mem_capacity prev (c :: s) = None.
Proof.
  intros Hc. unfold try_at, Newegg.re_mem_capacity, Plus. simpl.
  by rewrite atom_ok_digit, Hc.
Qed.

Lemma mem_at_digits prev d post :
  Forall (fun c => is_digit c = true) d -> d <> [] ->
  exists m, try_at false Newegg.re_mem_capacity prev (d ++ s2l "GB" ++ post) = Some m
            /\ group m 1 = Some d.
Proof.
  intros Hd Hne. unfold try_at, Newegg.re_mem_capacity, Plus. cbn [rmatch].
  destruct (rep_loop_greedy false digit 1 d 0 (MCtx prev [] []) (s2l "GB" ++ post) [])
    as [tl ->].
  - eapply Forall_impl; [exact Hd|]. intros c. cbv beta. by rewrite atom_ok_digit.
  - reflexivity.
  - destruct d; [done|simpl; lia].
  - eexists. split; [reflexivity|]. unfold group. simpl.
    rewrite app_nil_r, length_rev, Nat.sub_0_r, <- (length_rev d), firstn_all.
    by rewrite rev_involutive.
Qed.

(** X3.  [parse_memory_specs] never raises, for any title, and returns
    exactly the four keys brand, capacity_gb, type and speed_mhz. *)
Theorem parse_memory_specs_total (title : str) :
  exists sp, Newegg.parse_memory_specs title = Ok sp /\ dom sp = memory_keys.
Proof.
  destruct (parse_memory_specs_fields title) as (sp & H & Hd & _). by exists sp.
Qed.

Lemma search_mem_digits pre d post :
  Forall no_digit pre -> Forall (fun c => is_digit c = true) d -> d <> [] ->
  exists m, re_search false Newegg.re_mem_capacity (pre ++ d ++ s2l "GB" ++ post) = Some m
            /\ group m 1 = Some d.
Proof.
  intros Hpre Hd Hne. unfold re_search.
  rewrite (search_skip _ _ no_digit mem_needs_digit pre Hpre).
  destruct (mem_at_digits (prev_after None pre) d post Hd Hne) as (m & Hm & Hg).
  exists m. split; [|done].
  destruct (d ++ s2l "GB" ++ post); cbn [search_from]; by rewrite Hm.
Qed.

(** X4.  In [parse_memory_specs] the capacity is the first figure that is
    followed by "GB": for a title [pre ++ d ++ "GB" ++ post] in which [pre]
    holds no digit and [d] is a run of digits, [capacity_gb] is [int(d)],
    whatever follows. *)
Theorem memory_capacity_first_figure (pre d post : str) :
  Forall no_digit pre -> Forall (fun c => is_digit c = true) d -> d <> [] ->
  exists sp n,
    Newegg.parse_memory_specs (pre ++ d ++ s2l "GB" ++ post) = Ok sp
    /\ py_int d = Ok n
    /\ sp !! "capacity_gb" = Some (VInt n).
Proof.
  intros Hpre Hd Hne.
  destruct (parse_memory_specs_fields (pre ++ d ++ s2l "GB" ++ post)) as (sp & Hsp & _ & Hc).
  destruct (search_mem_digits pre d post Hpre Hd Hne) as (m & Hm & Hg).
  destruct (py_int_digits d Hd Hne) as (n & Hn & Hv).
  exists sp, n. split; [done|]. split; [done|].
  rewrite Hc. unfold memory_capacity. by rewrite Hm, Hg, Hv.
Qed.

Lemma memory_capacity_first_figure_witness :
  exists sp n,
    Newegg.parse_memory_specs "CORSAIR Vengeance 32GB (2 x 16GB) DDR5 6000MHz" = Ok sp
    /\ py_int "32" = Ok n
    /\ sp !! "capacity_gb" = Some (VInt n).
Proof.
  apply (memory_capacity_first_figure "CORSAIR Vengeance " "32" " (2 x 16GB) DDR5 6000MHz").
  - repeat constructor.
  - repeat constructor.
  - discriminate.
Defined.

(** ** Decimal numbers *)

Lemma py_float_decimal g :
  lang false Sylvane.re_decimal g ->
  exists m k, py_float g = Ok (float_of_decimal m k).
Proof.
  unfold Sylvane.re_decimal, Plus, Opt, Star. cbn [lang].
  intros (w1 & r & -> & (H1 & Hlen1 & _) & w2 & w3 & -> & (H2 & _ & Hlen) & (H3 & _ & _)).
  assert (Hd1 : Forall (fun c => is_digit c = true) w1).
  { eapply Forall_impl; [exact H1|]. intros x. cbv beta. by rewrite atom_ok_digit. }
  assert (Hd3 : Forall (fun c => is_digit c = true) w3).
  { eapply Forall_impl; [exact H3|]. intros x. cbv beta. by rewrite atom_ok_digit. }
  assert (Hne : w1 <> []) by (destruct w1; [simpl in Hlen1; lia|done]).
  assert (Hall : Forall (fun c => is_digit c = true) (w1 ++ w3)) by (by apply Forall_app).
  destruct (digits_val_some _ Hall 0) as [m Hm].
  unfold py_float.
  simpl in Hlen. destruct w2 as [|p [|q w2]]; [| |simpl in Hlen; lia].
  - simpl. rewrite (split_point_digits _ Hall). simpl. rewrite app_nil_r, Hm.
    destruct w1; [done|]. simpl. eauto.
  - apply Forall_inv in H2. apply atom_ok_lit in H2 as ->. cbn [app].
    rewrite (split_point_at _ _ Hd1). simpl. rewrite Hm.
    destruct w1; [done|]. simpl. eauto.
Qed.

Lemma float_group e ic r s m :
  binds 1 r = true ->
  (forall g, cap_lang ic r 1 g -> lang false Sylvane.re_decimal g) ->
  re_search ic r s = Some m ->
  exists g x, group m 1 = Some g /\ group_text e m 1 = Ok g /\ py_float g = Ok x.
Proof.
  intros Hb Hd Hm. destruct (group_text_binds e _ _ _ _ Hb Hm) as (g & Hg & Ht).
  destruct (py_float_decimal g (Hd g (search_group _ _ _ _ _ _ Hm Hg))) as (k & n & Hx).
  eauto 6.
Qed.

Lemma screen_group g :
  cap_lang false Newegg.re_laptop_screen 1 g -> lang false Sylvane.re_decimal g.
Proof.
  unfold Newegg.re_laptop_screen, Plus, Opt, Star. cbn [cap_lang].
  intros H. split_cases. assumption.
Qed.

(** ** Laptop *)

Lemma parse_laptop_specs_fields title :
  exists sp,
    Newegg.parse_laptop_specs title = Ok sp
    /\ dom sp = laptop_keys
    /\ exists v, sp !! "screen_size" = Some v /\ screen_size_text v.
Proof.
  unfold Newegg.parse_laptop_specs.
  match goal with
  | |- context [match find_brand ?b title with
                | Some _ => _ | None => ?r0 end] => set (res0 := r0); set (brands := b)
  end.
  assert (H0 : dom res0 = laptop_keys) by (subst res0; dom_init).
  assert (H0' : res0 !! "screen_size" = Some VNone) by (subst res0; map_lookup).
  clearbody res0.
  set (P := fun r : gmap string pyval =>
              dom r = laptop_keys /\ exists v, r !! "screen_size" = Some v /\ screen_size_text v).
  assert (Hins : forall r k v, P r -> k <> "screen_size"%string -> k ∈ laptop_keys ->
                               P (<[k := v]> r)).
  { intros r k v [Hd Hs] Hk Hin. split; [by apply dom_insert_same|].
    by rewrite lookup_insert_ne. }
  assert (HP0 : P res0).
  { split; [done|]. exists VNone. split; [done|by left]. }
  clear H0 H0'.
  match goal with
  | |- context [match first_match true ?ps title with _ => _ end ≫= _] =>
      set (cpu_patterns := ps)
  end.
  mstep (first_match true cpu_patterns title) P res1 H1.
  { intros _. destruct (find_brand brands title); [apply Hins; [done|done|key_in]|done]. }
  { intros m Hm.
    destruct (group_text_first AttributeError true cpu_patterns title m)
      as [g ->]; [repeat constructor|done|].
    rewrite bind_ok. eexists. split; [reflexivity|].
    apply Hins; [|done|key_in].
    destruct (find_brand brands title); [apply Hins; [done|done|key_in]|done]. }
  clear HP0 res0.
  mstep (re_search false Newegg.re_laptop_screen title) P res2 H2.
  { intros _. repeat case_match; repeat apply Hins; try done; key_in. }
  { intros m Hm.
    destruct (float_group TypeError false Newegg.re_laptop_screen title m eq_refl
                screen_group Hm) as (g & x & Hgr & Hg & Hx).
    rewrite Hg, bind_ok, Hx, bind_ok, Hgr.
    match goal with
    | |- context [mret (<["screen_size" := _]> ?r)] => assert (Hr : P r)
    end.
    { repeat case_match; repeat apply Hins; try done; key_in. }
    destruct (fle (float_of_Z 10) x && fle x (float_of_Z 20)) eqn:E;
      (eexists; split; [reflexivity|]); [|done].
    apply andb_true_iff in E as [E1 E2]. destruct Hr as [Hd _].
    split; [apply dom_insert_same; [done|key_in]|].
    rewrite lookup_insert_eq. eexists. split; [reflexivity|]. right.
    exists g, x. done. }
  clear H1 res1.
  apply step_inv; [done|].
  intros m Hm.
  match goal with
  | Hm : first_match true ?ps title = Some m |- _ =>
      destruct (group_text_first AttributeError true ps title m)
        as [g ->]; [repeat constructor|done|]
  end.
  rewrite bind_ok. eexists. split; [reflexivity|]. apply Hins; [done|done|key_in].
Qed.

(** X5.  [parse_laptop_specs] never raises, for any title, and returns
    exactly the six keys brand, cpu, ram, storage, screen_size and gpu.
    The screen size it stores is null or the text of a number between 10
    and 20 followed by " inch". *)
Theorem laptop_specs_keys_and_screen (title : str) :
  exists sp,
    Newegg.parse_laptop_specs title = Ok sp
    /\ dom sp = laptop_keys
    /\ exists v, sp !! "screen_size" = Some v /\ screen_size_text v.
Proof. apply parse_laptop_specs_fields. Qed.

(** ** Gaming PC *)

Lemma lit_ic_lower w u :
  Forall2 (fun p c => atom_ok true (ALit p) c = true) w u -> same_letters w u.
Proof.
  unfold same_letters.
  induction 1 as [|p c w u Hpc _ IH]; [done|]. simpl. rewrite IH. f_equal.
  unfold atom_ok in Hpc. by apply bool_decide_eq_true in Hpc.
Qed.

Lemma pc_storage_group1 g :
  cap_lang true Newegg.re_pc_storage 1 g ->
  Forall (fun c => is_digit c = true) g /\ g <> [].
Proof.
  unfold Newegg.re_pc_storage, Plus, Star. cbn [cap_lang]. intros H. split_cases; try done.
  eapply digits_of_rep; eassumption.
Qed.

Lemma pc_storage_group2 g :
  cap_lang true Newegg.re_pc_storage 2 g ->
  same_letters "GB" g \/ same_letters "TB" g.
Proof.
  unfold Newegg.re_pc_storage, Plus, Star. cbn [cap_lang]. intros H. split_cases; try done.
  match goal with
  | Hl : lang _ _ g |- _ => destruct Hl as [Hl|Hl]; [left|right]; by apply lit_ic_lower
  end.
Qed.

Lemma try_pc_storage_groups prev s m :
  try_at true Newegg.re_pc_storage prev s = Some m ->
  groups m = [] \/
  exists n u, group m 1 = Some n /\ group m 2 = Some u
              /\ Forall (fun c => is_digit c = true) n /\ n <> []
              /\ (same_letters "GB" u \/ same_letters "TB" u).
Proof.
  intros Hm. pose proof Hm as (ctx & s' & Hx & ->)%try_at_inv.
  unfold Newegg.re_pc_storage in Hx. cbn [rmatch] in Hx.
  apply elem_of_app in Hx as [Hx|Hx].
  - right.
    match type of Hx with _ ∈ ?l => change l with
      (rmatch true (Group 1 (Plus digit) +> Star space
                    +> Group 2 (Str "GB" <|> Str "TB") +> Star space +> Str "SSD")%re
              (MCtx prev [] []) s) in Hx end.
    destruct ((fun Hb => rmatch_binds _ _ _ _ _ 1%nat Hb Hx) eq_refl) as [n Hn].
    destruct ((fun Hb => rmatch_binds _ _ _ _ _ 2%nat Hb Hx) eq_refl) as [u Hu].
    exists n, u. split; [done|]. split; [done|].
    destruct (pc_storage_group1 n (try_at_group _ _ _ _ _ _ _ Hm Hn)) as [Hall Hne].
    pose proof (pc_storage_group2 u (try_at_group _ _ _ _ _ _ _ Hm Hu)). done.
  - left. apply lit_run_sound in Hx as (w' & _ & _ & Hc & _). simpl in *. done.
Qed.

Lemma pc_storage_groups title m :
  re_search true Newegg.re_pc_storage title = Some m ->
  groups m = [] \/
  exists n u, group m 1 = Some n /\ group m 2 = Some u
              /\ Forall (fun c => is_digit c = true) n /\ n <> []
              /\ (same_letters "GB" u \/ same_letters "TB" u).
Proof. intros (? & ? & H)%search_from_inv. eapply try_pc_storage_groups, H. Qed.

Lemma plus_digit_needs_digit ic ctx c s :
  no_digit c -> rep_loop ic digit 1 None 0 ctx (c :: s) [] = [].
Proof. intros Hc. simpl. by rewrite atom_ok_digit, Hc. Qed.

Lemma pc_storage_needs_digit prev c s m :
  no_digit c -> try_at true Newegg.re_pc_storage prev (c :: s) = Some m -> groups m = [].
Proof.
  intros Hc (ctx & s' & Hx & ->)%try_at_inv.
  unfold Newegg.re_pc_storage, Plus in Hx. cbn [rmatch] in Hx.
  rewrite plus_digit_needs_digit in Hx by done.
  apply elem_of_app in Hx as [Hx|Hx]; [by apply elem_of_nil in Hx|].
  apply lit_run_sound in Hx as (w' & _ & _ & Hcaps & _). done.
Qed.

Lemma search_nvme pre post :
  Forall no_digit pre ->
  forall prev, exists m,
    search_from true Newegg.re_pc_storage prev (pre ++ s2l "NVMe" ++ post) = Some m
    /\ groups m = [].
Proof.
  induction 1 as [|c pre Hc _ IH]; intros prev.
  - eexists. split; [vm_compute; reflexivity|reflexivity].
  - cbn [app search_from].
    destruct (try_at true Newegg.re_pc_storage prev (c :: pre ++ s2l "NVMe" ++ post))
      as [m|] eqn:E; [|apply IH].
    exists m. split; [done|]. eapply pc_storage_needs_digit; eauto.
Qed.

Lemma parse_gaming_pc_specs_fields title :
  exists sp, Newegg.parse_gaming_pc_specs title = Ok sp
             /\ dom sp = gaming_pc_keys
             /\ sp !! "storage" = Some (pc_storage title).
Proof.
  unfold Newegg.parse_gaming_pc_specs.
  match goal with
  | |- context [match find_brand ?b title with
                | Some _ => _ | None => ?r0 end] => set (res0 := r0); set (brands := b)
  end.
  assert (H0 : dom res0 = gaming_pc_keys) by (subst res0; dom_init).
  assert (H0' : res0 !! "storage" = Some VNone) by (subst res0; map_lookup).
  clearbody res0.
  set (P := fun r : gmap string pyval =>
              dom r = gaming_pc_keys /\ r !! "storage" = Some VNone).
  assert (Hins : forall r k v, P r -> k <> "storage"%string -> k ∈ gaming_pc_keys ->
                               P (<[k := v]> r)).
  { intros r k v [Hd Hs] Hk Hin. split; [by apply dom_insert_same|].
    by rewrite lookup_insert_ne. }
  assert (HP0 : P res0) by done.
  clear H0 H0'.
  match goal with
  | |- context [match first_match true ?ps title with _ => _ end ≫= _] =>
      set (cpu_patterns := ps)
  end.
  mstep (first_match true cpu_patterns title) P res1 H1.
  { intros _. destruct (find_brand brands title); [apply Hins; [done|done|key_in]|done]. }
  { intros m Hm.
    destruct (group_text_first AttributeError true cpu_patterns title m)
      as [g ->]; [repeat constructor|done|].
    rewrite bind_ok. eexists. split; [reflexivity|].
    apply Hins; [|done|key_in].
    destruct (find_brand brands title); [apply Hins; [done|done|key_in]|done]. }
  clear HP0 res0.
  match goal with
  | |- context [match first_match true ?ps title with _ => _ end ≫= _] =>
      set (gpu_patterns := ps)
  end.
  mstep (first_match true gpu_patterns title) P res2 H2.
  { done. }
  { intros m Hm.
    destruct (group_text_first AttributeError true gpu_patterns title m)
      as [g ->]; [repeat constructor|done|].
    rewrite bind_ok. eexists. split; [reflexivity|].
    apply Hins; [done|done|key_in]. }
  clear H1 res1.
  eexists. split; [reflexivity|].
  assert (Hr : P (match re_search true Newegg.re_ram title with
                  | Some ram_match =>
                      <["ram" := VStr (fmt_group (group ram_match 1) ++ " GB")]> res2
                  | None => res2 end)).
  { destruct (re_search true Newegg.re_ram title); [apply Hins; [done|done|key_in]|done]. }
  destruct Hr as [Hd Hs]. unfold pc_storage.
  destruct (re_search true Newegg.re_pc_storage title).
  - split; [apply dom_insert_same; [done|key_in]|]. by rewrite lookup_insert_eq.
  - done.
Qed.

(** X6.  [parse_gaming_pc_specs] never raises and returns exactly the five
    keys brand, cpu, gpu, ram and storage.  The storage it stores is null,
    or digits, a blank, "GB" or "TB" in the title's case and " SSD", or the
    text "None None SSD": the storage pattern also matches the bare word
    "NVMe", where both groups are null.  The last case arises for every
    title in which no digit comes before an occurrence of "NVMe". *)
Theorem gaming_pc_storage_text (title : str) :
  exists sp,
    Newegg.parse_gaming_pc_specs title = Ok sp
    /\ dom sp = gaming_pc_keys
    /\ (sp !! "storage" = Some VNone
        \/ sp !! "storage" = Some (VStr "None None SSD")
        \/ exists n u,
             Forall (fun c => is_digit c = true) n /\ n <> []
             /\ (same_letters "GB" u \/ same_letters "TB" u)
             /\ sp !! "storage" = Some (VStr (n ++ " " ++ u ++ " SSD")))
    /\ (forall pre post,
          title = pre ++ s2l "NVMe" ++ post -> Forall no_digit pre ->
          sp !! "storage" = Some (VStr "None None SSD")).
Proof.
  destruct (parse_gaming_pc_specs_fields title) as (sp & Hsp & Hd & Hs).
  exists sp. split; [done|]. split; [done|]. rewrite Hs. unfold pc_storage. split.
  - destruct (re_search true Newegg.re_pc_storage title) as [m|] eqn:Em; [|by left].
    right. destruct (pc_storage_groups _ _ Em) as [H|(n & u & Hn & Hu & Hall & Hne & Hlet)].
    + left. unfold group. by rewrite H.
    + right. exists n, u. rewrite Hn, Hu. done.
  - intros pre post -> Hpre. unfold re_search.
    destruct (search_nvme pre post Hpre None) as (m & -> & Hg).
    unfold group. by rewrite Hg.
Qed.

(** ** Floats that come from decimal text *)

Lemma shr_1_nonneg mrs : 0 <= shr_m mrs -> 0 <= shr_m (shr_1 mrs).
Proof. destruct mrs as [[|[p|p|]|p] r s]; simpl; lia. Qed.

Lemma iter_shr_nonneg p :
  forall mrs, 0 <= shr_m mrs -> 0 <= shr_m (@SpecFloat.iter_pos shr_record shr_1 p mrs).
Proof.
  induction p as [p IH|p IH|]; intros mrs H; simpl.
  - apply IH, IH, shr_1_nonneg, H.
  - apply IH, IH, H.
  - apply shr_1_nonneg, H.
Qed.

Lemma shr_fexp_nonneg m e l :
  0 <= m -> 0 <= shr_m (shr_fexp prec emax m e l).1.
Proof.
  intros H. unfold shr_fexp, shr.
  assert (H0 : 0 <= shr_m (shr_record_of_loc m l)) by (by destruct l as [|[]]).
  destruct (fexp prec emax (Zdigits2 m + e) - e); simpl; [done| |done].
  by apply iter_shr_nonneg.
Qed.

Lemma round_nearest_even_nonneg m l : 0 <= m -> 0 <= round_nearest_even m l.
Proof.
  intros H. destruct l as [|[]]; simpl; [done| |done|lia].
  destruct (Z.even m); lia.
Qed.

Lemma binary_round_aux_nonneg m e l :
  0 <= m -> nonneg_float (binary_round_aux prec emax false m e l).
Proof.
  intros H. unfold binary_round_aux.
  pose proof (shr_fexp_nonneg m e l H) as H1.
  destruct (shr_fexp prec emax m e l) as [mrs' e'] eqn:E1. simpl in H1.
  pose proof (shr_fexp_nonneg _ e' loc_Exact
                (round_nearest_even_nonneg _ (loc_of_shr_record mrs') H1)) as H2.
  destruct (shr_fexp prec emax _ e' loc_Exact) as [mrs'' e''] eqn:E2. simpl in H2.
  destruct (shr_m mrs'') as [|p|p]; [done| |lia].
  by destruct (e'' <=? emax - prec).
Qed.

Lemma float_of_decimal_nonneg m k : nonneg_float (float_of_decimal m k).
Proof.
  unfold float_of_decimal. destruct m as [|p|p]; [done| |done].
  unfold fdiv, SFdiv.
  destruct (SFdiv_core_binary prec emax (Z.pos p) 0 _ 0) as [[mz ez] lz] eqn:E.
  apply binary_round_aux_nonneg.
  unfold SFdiv_core_binary in E.
  match type of E with
  | context [Z.div_eucl ?a ?b] =>
      assert (Ha : 0 <= a) by (repeat case_match; try lia; apply Z.shiftl_nonneg; lia);
      pose proof (Z.div_pos a b Ha ltac:(lia)) as Hq;
      unfold Z.div in Hq; destruct (Z.div_eucl a b) as [q r]
  end.
  by injection E as <- _ _.
Qed.

Lemma py_float_nonneg s x : py_float s = Ok x -> nonneg_float x.
Proof.
  unfold py_float. destruct (split_point s) as [ip fp].
  destruct (ip ++ default [] fp); [done|].
  destruct (digits_val 0 _); [|done].
  intros [= <-]. apply float_of_decimal_nonneg.
Qed.

Lemma fmul_1024_nonneg x :
  nonneg_float x -> nonneg_float (fmul x (float_of_Z 1024)).
Proof.
  intros Hx.
  assert (H : exists m e, float_of_Z 1024 = S754_finite false m e)
    by (vm_compute; eauto).
  destruct H as (m & e & ->).
  destruct x as [[]|[]| |[] mx ex]; try done.
  apply binary_round_aux_nonneg. done.
Qed.

(** [int] of such a float returns, or raises OverflowError on infinity. *)
Lemma py_int_of_nonneg x :
  nonneg_float x ->
  (exists n, py_int_of_float x = Ok n) \/ py_int_of_float x = Raise OverflowError.
Proof. destruct x as [[]|[]| |[] m e]; try done; simpl; eauto. Qed.

(** ** SSD *)

Lemma ssd_tb_group g :
  cap_lang false Newegg.re_ssd_tb 1 g -> lang false Sylvane.re_decimal g.
Proof.
  unfold Newegg.re_ssd_tb, Plus, Opt, Star. cbn [cap_lang].
  intros H. split_cases. assumption.
Qed.

Lemma ssd_gb_group g :
  cap_lang false Newegg.re_ssd_gb 1 g ->
  Forall (fun c => is_digit c = true) g /\ g <> [].
Proof.
  unfold Newegg.re_ssd_gb, Plus, Star. cbn [cap_lang]. intros H. split_cases.
  eapply digits_of_rep; eassumption.
Qed.

Lemma parse_ssd_specs_outcome title :
  (exists sp, Newegg.parse_ssd_specs title = Ok sp /\ dom sp = ssd_keys)
  \/ (Newegg.parse_ssd_specs title = Raise OverflowError
      /\ is_Some (re_search false Newegg.re_ssd_tb title)).
Proof.
  unfold Newegg.parse_ssd_specs.
  match goal with
  | |- context [match find_brand ?b title with
                | Some _ => _ | None => ?r0 end] => set (res0 := r0); set (brands := b)
  end.
  assert (H0 : dom res0 = ssd_keys) by (subst res0; dom_init).
  clearbody res0.
  set (res1 := match find_brand brands title with
               | Some brand => <["brand" := VStr brand]> res0
               | None => res0 end).
  assert (H1 : dom res1 = ssd_keys) by (subst res1; dom_pure).
  clearbody res1. clear H0 res0.
  match goal with
  | |- context [mbind ?k _] => set (tail := k)
  end.
  assert (Htail : forall r : gmap string pyval, dom r = ssd_keys ->
            exists sp, tail r = Ok sp /\ dom sp = ssd_keys).
  { intros r Hr. subst tail. cbv beta. eexists. split; [reflexivity|].
    repeat case_match; repeat apply dom_insert_same; try done; key_in. }
  clearbody tail.
  destruct (re_search false Newegg.re_ssd_tb title) as [m|] eqn:Etb.
  - destruct (float_group TypeError false Newegg.re_ssd_tb title m eq_refl
                ssd_tb_group Etb) as (g & x & Hgr & Hg & Hx).
    rewrite Hg, bind_ok, Hx, bind_ok.
    destruct (py_int_of_nonneg _ (fmul_1024_nonneg x (py_float_nonneg g x Hx)))
      as [[n Hn]|Hn]; rewrite Hn.
    + left. rewrite !bind_ok. apply Htail. apply dom_insert_same; [done|key_in].
    + right. split; [reflexivity|eauto].
  - left.
    destruct (re_search false Newegg.re_ssd_gb title) as [m|] eqn:Egb.
    + destruct (int_group TypeError false Newegg.re_ssd_gb title m eq_refl
                  ssd_gb_group Egb) as (g & n & _ & Hg & Hn & _).
      rewrite Hg, bind_ok, Hn, !bind_ok. apply Htail.
      apply dom_insert_same; [done|key_in].
    + rewrite bind_ok. by apply Htail.
Qed.

(** X7.  [parse_ssd_specs] either returns exactly the five keys brand,
    capacity_gb, interface, read_speed and form_factor, or raises
    OverflowError; it raises nothing else, and it can raise only when the
    terabyte pattern matches (the float of its number times 1024 is then
    infinite). *)
Theorem ssd_specs_overflow_only (title : str) :
  (exists sp, Newegg.parse_ssd_specs title = Ok sp /\ dom sp = ssd_keys)
  \/ (Newegg.parse_ssd_specs title = Raise OverflowError
      /\ is_Some (re_search false Newegg.re_ssd_tb title)).
Proof. apply parse_ssd_specs_outcome. Qed.

(** ** What [normalize_record] can raise *)

Lemma py_float_raises s e : py_float s = Raise e -> e = ValueError.
Proof.
  unfold py_float. destruct (split_point s) as [ip fp].
  destruct (ip ++ default [] fp); [by intros [= <-]|].
  destruct (digits_val 0 _); [done|by intros [= <-]].
Qed.

Lemma newegg_price_raises s e : Newegg.extract_price s = Raise e -> e = ValueError.
Proof.
  unfold Newegg.extract_price. destruct (_ || _); [done|].
  destruct (re_findall _ _ _) as [|c l]; [done|].
  destruct (py_float _) as [x|e'] eqn:E; [done|].
  intros [= <-]. eapply py_float_raises, E.
Qed.

(** X8.  The Newegg [normalize_record] raises in two cases only: ValueError
    out of [extract_price], and OverflowError out of [parse_ssd_specs] for a
    record classified as SSD.  No title makes a parser raise AttributeError
    or TypeError. *)
Theorem normalize_record_raises_only (now : str) (record : Newegg.RawRecord) (e : exn) :
  Newegg.normalize_record now record = Raise e ->
  (e = ValueError
   /\ Newegg.extract_price (default [] (Newegg.r_price record)) = Raise ValueError)
  \/ (e = OverflowError
      /\ Newegg.detect_category (default [] (Newegg.r_title record)) = "SSD"
      /\ Newegg.parse_ssd_specs (default [] (Newegg.r_title record)) = Raise OverflowError).
Proof.
  unfold Newegg.normalize_record.
  destruct (Newegg.extract_price _) as [p|e'] eqn:Ep.
  2:{ pose proof (newegg_price_raises _ _ Ep) as ->. intros [= <-]. by left. }
  rewrite bind_ok. destruct (truthy_price p) as [x|]; [|done].
  set (title := default [] (Newegg.r_title record)).
  destruct (bool_decide (Newegg.detect_category title = "CPU")).
  { destruct (parse_cpu_specs_fields title) as (sp & -> & _). done. }
  destruct (bool_decide (Newegg.detect_category title = "Motherboard")).
  { destruct (parse_motherboard_specs_fields title) as (sp & -> & _). done. }
  destruct (bool_decide (Newegg.detect_category title = "Memory")).
  { destruct (parse_memory_specs_fields title) as (sp & -> & _). done. }
  destruct (bool_decide (Newegg.detect_category title = "SSD")) eqn:Essd.
  { apply bool_decide_eq_true in Essd.
    destruct (parse_ssd_specs_outcome title) as [(sp & -> & _)|[Hr _]]; [done|].
    rewrite Hr. intros [= <-]. right. done. }
  destruct (bool_decide (Newegg.detect_category title = "Laptop")).
  { destruct (parse_laptop_specs_fields title) as (sp & -> & _). done. }
  destruct (bool_decide (Newegg.detect_category title = "Gaming PC")).
  { destruct (parse_gaming_pc_specs_fields title) as (sp & -> & _). done. }
  done.
Qed.

Lemma normalize_record_raises_only_witness :
  (ValueError = ValueError
   /\ Newegg.extract_price
        (default [] (Newegg.r_price (newegg_record "Widget" "Call, for price")))
      = Raise ValueError)
  \/ (ValueError = OverflowError
      /\ Newegg.detect_category
           (default [] (Newegg.r_title (newegg_record "Widget" "Call, for price"))) = "SSD"
      /\ Newegg.parse_ssd_specs
           (default [] (Newegg.r_title (newegg_record "Widget" "Call, for price")))
         = Raise OverflowError).
Proof.
  apply (normalize_record_raises_only "2024-01-01T00:00:00"
           (newegg_record "Widget" "Call, for price") ValueError).
  vm_compute. reflexivity.
Defined.

(** ** What [process_all] returns *)

Lemma tally_app c l n :
  tally c (l ++ [n]) = tally c l + (if bool_decide (Newegg.category n = c) then 1 else 0).
Proof.
  unfold tally. rewrite List.filter_app, length_app. simpl.
  destruct (bool_decide _); simpl; lia.
Qed.

Lemma tally_nonneg c l : 0 <= tally c l.
Proof. unfold tally. lia. Qed.

Lemma normalize_each_accepted clock records :
  forall idx outs,
    normalize_each clock idx records = Ok outs ->
    Forall (fun n => exists now r, r ∈ records
                       /\ Newegg.normalize_record now r = Ok (Some n))
           (accepted outs).
Proof.
  induction records as [|r rest IH]; intros idx outs; simpl.
  - intros [= <-]. constructor.
  - unfold_py. destruct (Newegg.normalize_record (clock idx) r) as [o|] eqn:E; [|done].
    destruct (normalize_each clock (S idx) rest) as [os|] eqn:E'; [|done].
    intros [= <-]. specialize (IH _ _ E').
    assert (IH' : Forall (fun n => exists now r0, r0 ∈ r :: rest
                            /\ Newegg.normalize_record now r0 = Ok (Some n))
                         (accepted os)).
    { eapply Forall_impl; [exact IH|]. intros n (now & r0 & Hin & Hn).
      exists now, r0. split; [by right|done]. }
    unfold accepted in *. destruct o as [n|]; csimpl; [|done].
    constructor; [|done]. exists (clock idx), r. split; [left|done].
Qed.

Lemma newegg_record_category now record n :
  Newegg.normalize_record now record = Ok (Some n) ->
  Newegg.category n = Newegg.detect_category (Newegg.title n)
  /\ Newegg.title n = default [] (Newegg.r_title record)
  /\ Newegg.original_data n = record.
Proof.
  unfold Newegg.normalize_record. unfold_py.
  destruct (Newegg.extract_price _) as [p|]; [|done].
  destruct (truthy_price p) as [x|]; [|done].
  match goal with
  | |- context [match ?c with Ok _ => _ | Raise _ => _ end] => destruct c as [[b sp]|e]
  end; [|done].
  by intros [= <-].
Qed.

Section Runs.

Variable clock : nat -> str.

Lemma process_loop_outcome records idx st st' :
  Newegg.process_loop clock idx records st = Ok st' ->
  exists outs,
    normalize_each clock idx records = Ok outs
    /\ Newegg.valid_records st' = Newegg.valid_records st ++ accepted outs
    /\ Newegg.discarded st' = Newegg.discarded st + rejected outs.
Proof.
  intros H. pose proof (process_loop_spec clock records idx st) as Hs.
  destruct (normalize_each clock idx records) as [outs|e].
  - destruct Hs as (st2 & Hst & Hv & Hd). rewrite Hst in H. injection H as <-.
    by exists outs.
  - congruence.
Qed.

Lemma process_loop_tally records :
  forall idx st st',
    Newegg.process_loop clock idx records st = Ok st' ->
    (forall c, Newegg.category_count st !! c
               = tally_entry (tally c (Newegg.valid_records st))) ->
    forall c, Newegg.category_count st' !! c
              = tally_entry (tally c (Newegg.valid_records st')).
Proof.
  induction records as [|r rest IH]; intros idx st st'; simpl.
  - by intros [= <-].
  - unfold_py. destruct (Newegg.normalize_record (clock idx) r) as [[n|]|e]; [| |done].
    + intros H Hinv. eapply IH; [exact H|]. intros c. simpl.
      rewrite tally_app. pose proof (tally_nonneg c (Newegg.valid_records st)) as Hpos.
      destruct (decide (Newegg.category n = c)) as [->|Hne].
      * rewrite lookup_insert_eq, bool_decide_eq_true_2 by done.
        rewrite (Hinv c). unfold tally_entry.
        destruct (tally c (Newegg.valid_records st) =? 0) eqn:E.
        -- apply Z.eqb_eq in E. rewrite E. reflexivity.
        -- simpl. destruct (_ + 1 =? 0) eqn:E'; [apply Z.eqb_eq in E'; lia|done].
      * rewrite lookup_insert_ne, bool_decide_eq_false_2, Z.add_0_r by done. apply Hinv.
    + intros H Hinv. eapply IH; [exact H|]. done.
Qed.

End Runs.

Lemma newegg_process_all_outcome clock p p' :
  Newegg.process_all clock p = Ok p' ->
  exists outs,
    normalize_each clock 1 (Newegg.raw_data p) = Ok outs
    /\ Newegg.raw_data p' = Newegg.raw_data p
    /\ Newegg.processed_data p' = accepted outs
    /\ Newegg.discarded_count p' = Newegg.discarded_count p + rejected outs.
Proof.
  unfold Newegg.process_all. unfold_py.
  destruct (Newegg.process_loop _ _ _ _) as [st|] eqn:E; [|done].
  intros [= <-]. apply process_loop_outcome in E as (outs & Ho & Hv & Hd).
  exists outs. simpl in *. done.
Qed.

(** X9.  When the Newegg [process_all] returns, the raw data is unchanged,
    the accepted records and the records newly counted as discarded add up
    to the number of raw records, and every accepted record has a price
    above zero, the category [detect_category] gives its title, and one of
    the raw records as its [original_data]. *)
Theorem process_all_returns (clock : nat -> str) (p p' : Newegg.Processor) :
  Newegg.process_all clock p = Ok p' ->
  Newegg.raw_data p' = Newegg.raw_data p
  /\ Z.of_nat (length (Newegg.processed_data p'))
     + (Newegg.discarded_count p' - Newegg.discarded_count p)
     = Z.of_nat (length (Newegg.raw_data p))
  /\ Forall (fun n => is_positive (Newegg.price n) = true
                      /\ Newegg.category n = Newegg.detect_category (Newegg.title n)
                      /\ Newegg.original_data n ∈ Newegg.raw_data p)
            (Newegg.processed_data p').
Proof.
  intros (outs & Ho & Hr & Hv & Hd)%newegg_process_all_outcome.
  split; [done|]. rewrite Hv, Hd. split.
  - pose proof (accepted_rejected_length outs).
    pose proof (normalize_each_length clock _ _ _ Ho). lia.
  - eapply Forall_impl; [eapply normalize_each_accepted, Ho|].
    intros n (now & r & Hin & Hn). cbv beta.
    destruct (newegg_record_category _ _ _ Hn) as (Hc & _ & Ho').
    split; [eapply newegg_record_price_positive, Hn|]. split; [done|by rewrite Ho'].
Qed.

Lemma process_all_returns_witness :
  exists p',
    Newegg.process_all (fun _ => s2l "2024-01-01T00:00:00")
      (Newegg.loaded [newegg_record "Widget A" "19.99"; newegg_record "Widget B" "0";
                      newegg_record "Intel Core i5 Processor" "$5.00"]) = Ok p'
    /\ Z.of_nat (length (Newegg.processed_data p')) + (Newegg.discarded_count p' - 0) = 3
    /\ Forall (fun n => is_positive (Newegg.price n) = true
                        /\ Newegg.category n = Newegg.detect_category (Newegg.title n))
              (Newegg.processed_data p').
Proof.
  destruct (Newegg.process_all (fun _ => s2l "2024-01-01T00:00:00")
              (Newegg.loaded [newegg_record "Widget A" "19.99"; newegg_record "Widget B" "0";
                              newegg_record "Intel Core i5 Processor" "$5.00"]))
    as [p'|e] eqn:E; [|exfalso; vm_compute in E; discriminate E].
  exists p'. split; [reflexivity|].
  destruct (process_all_returns _ _ p' E) as (_ & Hlen & Hall).
  split; [exact Hlen|].
  eapply Forall_impl; [exact Hall|]. intros n (Hp & Hc & _). by split.
Defined.

(** X10.  The per-category tally that [process_all] builds and prints is
    exact: when the loop ends, the dictionary holds, for each category, the
    number of accepted records of that category, and no entry for a
    category without accepted records. *)
Theorem category_tally (clock : nat -> str) (records : list Newegg.RawRecord)
    (d : Z) (st : Newegg.LoopState) :
  Newegg.process_loop clock 1 records
    {| Newegg.valid_records := []; Newegg.category_count := ∅; Newegg.discarded := d |}
  = Ok st ->
  forall c, Newegg.category_count st !! c
            = tally_entry (tally c (Newegg.valid_records st)).
Proof.
  intros H. eapply process_loop_tally; [exact H|]. intros c. simpl.
  by rewrite lookup_empty.
Qed.

Lemma category_tally_witness :
  exists st,
    Newegg.process_loop (fun _ => s2l "2024-01-01T00:00:00") 1
      [newegg_record "Intel Core i5 Processor" "$5.00"; newegg_record "Widget" "0";
       newegg_record "AMD Ryzen 5 CPU" "$9.00"]
      {| Newegg.valid_records := []; Newegg.category_count := ∅; Newegg.discarded := 0 |}
    = Ok st
    /\ Newegg.category_count st !! s2l "CPU"
       = tally_entry (tally "CPU" (Newegg.valid_records st))
    /\ Newegg.category_count st !! s2l "Other"
       = tally_entry (tally "Other" (Newegg.valid_records st)).
Proof.
  destruct (Newegg.process_loop (fun _ => s2l "2024-01-01T00:00:00") 1
      [newegg_record "Intel Core i5 Processor" "$5.00"; newegg_record "Widget" "0";
       newegg_record "AMD Ryzen 5 CPU" "$9.00"]
      {| Newegg.valid_records := []; Newegg.category_count := ∅; Newegg.discarded := 0 |})
    as [st|e] eqn:E; [|exfalso; vm_compute in E; discriminate E].
  exists st. split; [reflexivity|].
  split; apply (category_tally _ _ _ st E).
Defined.

(** ** Sylvane records *)

Lemma positive_truthy x : is_positive x = true -> truthy_price (Some x) = Some x.
Proof.
  unfold is_positive, flt, truthy_price, fzero, SFltb, SFeqb.
  destruct x as [[]|[]| |[] m e]; simpl; done.
Qed.

(** A CADR extractor that returns has found the field missing. *)
Lemma cadr_smoke_returns value r :
  Sylvane.extract_cadr_smoke value = Ok r -> r = None /\ Sylvane.missing value = true.
Proof.
  unfold Sylvane.extract_cadr_smoke. destruct (Sylvane.missing value); [|done].
  by intros [= <-].
Qed.

Lemma cadr_pollen_returns value r :
  Sylvane.extract_cadr_pollen value = Ok r -> r = None /\ Sylvane.missing value = true.
Proof.
  unfold Sylvane.extract_cadr_pollen. destruct (Sylvane.missing value); [|done].
  by intros [= <-].
Qed.

Lemma cadr_dust_returns value r :
  Sylvane.extract_cadr_dust value = Ok r -> r = None /\ Sylvane.missing value = true.
Proof.
  unfold Sylvane.extract_cadr_dust. destruct (Sylvane.missing value); [|done].
  by intros [= <-].
Qed.

Lemma sylvane_record_cadr now record n :
  Sylvane.normalize_record now record = Ok (Some n) ->
  (Sylvane.cadr_smoke n = None /\ Sylvane.cadr_pollen n = None
   /\ Sylvane.cadr_dust n = None)
  /\ (Sylvane.missing (Sylvane.r_cadr_smoke record) = true
      /\ Sylvane.missing (Sylvane.r_cadr_pollen record) = true
      /\ Sylvane.missing (Sylvane.r_cadr_dust record) = true).
Proof.
  unfold Sylvane.normalize_record. unfold_py.
  destruct (Sylvane.extract_price _) as [p|]; [|done].
  destruct (truthy_price p) as [x|]; [|done].
  destruct (Sylvane.extract_coverage_area _) as [cov|]; [|done].
  destruct (Sylvane.extract_cadr_smoke _) as [s|] eqn:Es; [|done].
  destruct (Sylvane.extract_cadr_pollen _) as [po|] eqn:Ep; [|done].
  destruct (Sylvane.extract_cadr_dust _) as [d|] eqn:Ed; [|done].
  destruct (Sylvane.extract_noise_level _) as [nz|]; [|done].
  destruct (Sylvane.extract_fan_speeds _) as [f|]; [|done].
  intros [= <-]. simpl.
  apply cadr_smoke_returns in Es as [-> ->].
  apply cadr_pollen_returns in Ep as [-> ->].
  apply cadr_dust_returns in Ed as [-> ->]. done.
Qed.

Lemma sylvane_record_with_cadr now record x :
  Sylvane.extract_price (default [] (Sylvane.r_price record)) = Ok (Some x) ->
  Sylvane.missing (Sylvane.r_cadr_smoke record) = false
  \/ Sylvane.missing (Sylvane.r_cadr_pollen record) = false
  \/ Sylvane.missing (Sylvane.r_cadr_dust record) = false ->
  Sylvane.normalize_record now record = Raise (NameError "self").
Proof.
  intros Hp Hc. unfold Sylvane.normalize_record.
  rewrite Hp, bind_ok, (positive_truthy x (sylvane_price_positive _ _ Hp)).
  destruct (coverage_area_spec (Sylvane.r_coverage_area record)) as (cov & -> & _).
  rewrite bind_ok.
  unfold Sylvane.extract_cadr_smoke, Sylvane.extract_cadr_pollen, Sylvane.extract_cadr_dust.
  destruct (Sylvane.missing (Sylvane.r_cadr_smoke record)); [|done].
  rewrite bind_ok.
  destruct (Sylvane.missing (Sylvane.r_cadr_pollen record)); [|done].
  rewrite bind_ok.
  destruct (Sylvane.missing (Sylvane.r_cadr_dust record)); [|done].
  destruct Hc as [|[|]]; done.
Qed.

(** X11.  The Sylvane [normalize_record] never stores a CADR value: every
    record it returns has null [cadr_smoke], [cadr_pollen] and [cadr_dust].
    A raw record with a price above zero and a CADR field that is present
    (not empty, not "N/A") is not normalized at all: [normalize_record]
    raises NameError for the name [self]. *)
Theorem sylvane_cadr_never_stored (now : str) (record : Sylvane.RawRecord) :
  (forall n, Sylvane.normalize_record now record = Ok (Some n) ->
     Sylvane.cadr_smoke n = None /\ Sylvane.cadr_pollen n = None
     /\ Sylvane.cadr_dust n = None)
  /\ (forall x,
        Sylvane.extract_price (default [] (Sylvane.r_price record)) = Ok (Some x) ->
        Sylvane.missing (Sylvane.r_cadr_smoke record) = false
        \/ Sylvane.missing (Sylvane.r_cadr_pollen record) = false
        \/ Sylvane.missing (Sylvane.r_cadr_dust record) = false ->
        Sylvane.normalize_record now record = Raise (NameError "self")).
Proof.
  split.
  - intros n Hn. by destruct (sylvane_record_cadr _ _ _ Hn).
  - apply sylvane_record_with_cadr.
Qed.

(** ** The Sylvane batch *)

Lemma sylvane_process_loop_inv (P : Sylvane.NormalizedRecord -> Prop) clock records :
  (forall now r n, r ∈ records -> Sylvane.normalize_record now r = Ok (Some n) -> P n) ->
  forall idx acc out,
    Sylvane.process_loop clock idx records acc = Ok out ->
    exists added, out = acc ++ added /\ Forall P added
                  /\ (length added <= length records)%nat
                  /\ map Sylvane.product_name added
                     `sublist_of` map (fun r => default [] (Sylvane.r_product_name r)) records.
Proof.
  induction records as [|r rest IH]; intros HP idx acc out; simpl.
  - intros [= <-]. exists []. rewrite app_nil_r.
    split; [done|]. split; [constructor|]. split; [simpl; lia|]. simpl. constructor.
  - unfold_py. destruct (Sylvane.normalize_record (clock idx) r) as [[n|]|e] eqn:E; [| |done].
    + intros H. apply IH in H as (added & -> & Hall & Hlen & Hsub).
      2:{ intros now r0 n0 Hin. apply HP. by right. }
      exists (n :: added). rewrite <- app_assoc. split; [done|].
      split; [constructor; [eapply HP; [left|exact E]|done]|].
      split; [simpl; lia|]. simpl.
      assert (Hname : Sylvane.product_name n = default [] (Sylvane.r_product_name r)).
      { clear -E. unfold Sylvane.normalize_record in E. unfold_py.
        destruct (Sylvane.extract_price _) as [p|]; [|done].
        destruct (truthy_price p) as [x|]; [|done].
        repeat match type of E with
        | context [match ?c with Ok _ => _ | Raise _ => _ end] => destruct c; [|done]
        end.
        by injection E as <-. }
      rewrite Hname. by constructor.
    + intros H. apply IH in H as (added & -> & Hall & Hlen & Hsub).
      2:{ intros now r0 n0 Hin. apply HP. by right. }
      exists added. split; [done|]. split; [done|]. split; [simpl; lia|].
      simpl. by constructor.
Qed.

(** X12.  When the Sylvane [process_all] returns, it returns no more
    records than it was given, the product names of the returned records
    are those of raw records, in input order, and every returned record has
    a price above zero and null CADR fields. *)
Theorem sylvane_process_all_returns (clock : nat -> str)
    (raw_data : list Sylvane.RawRecord) (out : list Sylvane.NormalizedRecord) :
  Sylvane.process_all clock raw_data = Ok out ->
  (length out <= length raw_data)%nat
  /\ map Sylvane.product_name out
     `sublist_of` map (fun r => default [] (Sylvane.r_product_name r)) raw_data
  /\ Forall (fun n => is_positive (Sylvane.price n) = true
                      /\ Sylvane.cadr_smoke n = None /\ Sylvane.cadr_pollen n = None
                      /\ Sylvane.cadr_dust n = None) out.
Proof.
  unfold Sylvane.process_all. intros H.
  eapply sylvane_process_loop_inv in H as (added & -> & Hall & Hlen & Hsub).
  - simpl. split; [done|]. split; [done|]. exact Hall.
  - intros now r n _ Hn. cbv beta.
    split; [eapply sylvane_record_price_positive, Hn|].
    by destruct (sylvane_record_cadr _ _ _ Hn).
Qed.

Lemma sylvane_process_all_returns_witness :
  exists out,
    Sylvane.process_all (fun _ => s2l "t")
      [sylvane_record "Purifier A" "$129.00"; sylvane_record "Purifier B" "N/A"] = Ok out
    /\ (length out <= 2)%nat
    /\ map Sylvane.product_name out `sublist_of` [s2l "Purifier A"; s2l "Purifier B"]
    /\ Forall (fun n => is_positive (Sylvane.price n) = true
                        /\ Sylvane.cadr_smoke n = None /\ Sylvane.cadr_pollen n = None
                        /\ Sylvane.cadr_dust n = None) out.
Proof.
  destruct (Sylvane.process_all (fun _ => s2l "t")
              [sylvane_record "Purifier A" "$129.00"; sylvane_record "Purifier B" "N/A"])
    as [out|e] eqn:E; [|exfalso; vm_compute in E; discriminate E].
  exists out. split; [reflexivity|].
  exact (sylvane_process_all_returns _ _ out E).
Defined.

(** ** Fan speeds *)

Lemma whole_number_group g :
  cap_lang false Sylvane.re_whole_number 1 g ->
  Forall (fun c => is_digit c = true) g /\ g <> [].
Proof.
  unfold Sylvane.re_whole_number, Plus. cbn [cap_lang]. intros H. split_cases.
  eapply digits_of_rep; eassumption.
Qed.

Lemma digits_val_nonneg w :
  forall acc n, 0 <= acc -> digits_val acc w = Some n -> 0 <= n.
Proof.
  induction w as [|c w IH]; intros acc n Hacc; simpl; [intros [= <-]; done|].
  destruct (is_digit c) eqn:Hc; [|done]. apply IH.
  unfold digit_val. unfold is_digit, between in Hc.
  apply andb_true_iff in Hc as [Hc _]. apply N.leb_le in Hc. lia.
Qed.

Lemma word_loop_range text items n :
  Forall (fun wn => 1 <= wn.2 <= 10) items ->
  Sylvane.word_loop text items = Some n -> 1 <= n <= 10.
Proof.
  induction 1 as [|[w k] items Hk _ IH]; simpl; [done|].
  destruct (str_in w text); [by intros [= <-]|done].
Qed.

Lemma extract_fan_speeds_outcome value :
  exists r, Sylvane.extract_fan_speeds value = Ok r /\ forall n, r = Some n -> 0 <= n.
Proof.
  unfold Sylvane.extract_fan_speeds.
  destruct (Sylvane.missing value); [by exists None|].
  set (text := strip (str_lower (default [] value))).
  destruct (re_search false Sylvane.re_whole_number text) as [m|] eqn:Em.
  - destruct (int_group TypeError false Sylvane.re_whole_number text m eq_refl
                whole_number_group Em) as (g & n & _ & Hg & Hn & Hv).
    rewrite Hg, bind_ok, Hn, bind_ok. exists (Some n). split; [done|].
    intros ? [= <-]. eapply digits_val_nonneg; [|exact Hv]. lia.
  - eexists. split; [reflexivity|]. intros n Hn.
    apply word_loop_range in Hn; [lia|].
    repeat constructor; simpl; lia.
Qed.

(** X13.  [extract_fan_speeds] never raises, for any value, and the number
    it returns, if any, is not negative. *)
Theorem fan_speeds_never_raise (value : option str) :
  exists r, Sylvane.extract_fan_speeds value = Ok r /\ forall n, r = Some n -> 0 <= n.
Proof. apply extract_fan_speeds_outcome. Qed.

(** *** Words are found as substrings *)

Lemma lstrip_contains t w :
  contains t w -> (exists c w', w = c :: w' /\ is_space c = false) ->
  contains (lstrip t) w.
Proof.
  intros (a & b & ->) (c & w' & -> & Hc).
  induction a as [|x a IH]; simpl.
  - rewrite Hc. by exists [], b.
  - destruct (is_space x); [exact IH|]. by exists (x :: a), b.
Qed.

Lemma contains_rev t w : contains t w -> contains (rev t) (rev w).
Proof.
  intros (a & b & ->). exists (rev b), (rev a).
  by rewrite !rev_app_distr, app_assoc.
Qed.

Lemma strip_contains t w :
  contains t w ->
  (exists c w', w = c :: w' /\ is_space c = false) ->
  (exists c w', rev w = c :: w' /\ is_space c = false) ->
  contains (strip t) w.
Proof.
  intros Ht Hfirst Hlast. unfold strip, rstrip.
  rewrite <- (rev_involutive w). apply contains_rev.
  apply lstrip_contains; [|done]. apply contains_rev.
  by apply lstrip_contains.
Qed.

Lemma whole_number_starts_with_digit prev s m :
  try_at false Sylvane.re_whole_number prev s = Some m ->
  exists c s', s = c :: s' /\ is_digit c = true.
Proof.
  intros (ctx & s' & Hx & ->)%try_at_inv.
  apply rmatch_sound in Hx as (w & Hs & _ & _ & Hl).
  unfold Sylvane.re_whole_number, Plus in Hl. cbn [lang] in Hl.
  destruct Hl as (w1 & w2 & -> & -> & (w3 & w4 & -> & (Hall & Hlen & _) & ->)).
  destruct w3 as [|c w3]; [simpl in Hlen; lia|].
  apply Forall_inv in Hall. rewrite atom_ok_digit in Hall.
  simpl in Hs. eauto.
Qed.

Lemma whole_number_needs_digit prev c s :
  no_digit c -> try_at false Sylvane.re_whole_number prev (c :: s) = None.
Proof.
  intros Hc. destruct (try_at _ _ _ _) as [m|] eqn:E; [|done].
  apply whole_number_starts_with_digit in E as (c' & s' & [= <- <-] & Hd).
  unfold no_digit in Hc. congruence.
Qed.

Lemma whole_number_at_end prev :
  try_at false Sylvane.re_whole_number prev [] = None.
Proof.
  destruct (try_at _ _ _ _) as [m|] eqn:E; [|done].
  by apply whole_number_starts_with_digit in E as (c' & s' & [=] & _).
Qed.

Lemma search_no_digit s :
  Forall no_digit s ->
  forall prev, search_from false Sylvane.re_whole_number prev s = None.
Proof.
  induction 1 as [|c s Hc _ IH]; intros prev; cbn [search_from].
  - by rewrite whole_number_at_end.
  - by rewrite whole_number_needs_digit.
Qed.

Lemma lstrip_forall (P : ascii -> Prop) s : Forall P s -> Forall P (lstrip s).
Proof.
  induction 1 as [|c s Hc Hs IH]; simpl; [constructor|].
  destruct (is_space c); [done|by constructor].
Qed.

Lemma strip_forall (P : ascii -> Prop) s : Forall P s -> Forall P (strip s).
Proof.
  intros H. unfold strip, rstrip.
  apply List.Forall_rev, lstrip_forall, List.Forall_rev, lstrip_forall, H.
Qed.

Lemma lower_no_digit s : Forall no_digit s -> Forall no_digit (str_lower s).
Proof.
  intros H. unfold str_lower. apply Forall_map.
  eapply Forall_impl; [exact H|]. intros c Hc. unfold no_digit in *. cbv beta.
  by rewrite lower_is_digit.
Qed.

(** X14.  [extract_fan_speeds] looks for its number words as substrings, in
    the fixed order one to ten: for every value without a digit whose
    lower-cased text holds "one" (as "None", "stone" or "phone" do) it
    returns 1. *)
Theorem fan_speeds_one_is_substring (value : str) :
  Forall no_digit value ->
  contains (str_lower value) "one" ->
  Sylvane.extract_fan_speeds (Some value) = Ok (Some 1).
Proof.
  intros Hd Hone. unfold Sylvane.extract_fan_speeds, Sylvane.missing.
  assert (Hne : value <> []).
  { intros ->. destruct Hone as ([|? a] & b & H); discriminate H. }
  assert (Hna : value <> "N/A").
  { intros ->. apply str_in_spec in Hone. vm_compute in Hone. discriminate Hone. }
  rewrite !bool_decide_eq_false_2 by done. cbn [orb default]. unfold id.
  unfold re_search.
  rewrite search_no_digit by (by apply strip_forall, lower_no_digit).
  unfold mret, py_ret. f_equal. unfold Sylvane.word_numbers. cbn [Sylvane.word_loop].
  replace (str_in "one" (strip (str_lower value))) with true; [done|].
  symmetry. apply str_in_spec, strip_contains; [done| |]; eexists _, _; split; reflexivity.
Qed.

Lemma fan_speeds_one_is_substring_witness :
  Sylvane.extract_fan_speeds (Some (s2l "None")) = Ok (Some 1).
Proof.
  apply (fan_speeds_one_is_substring "None").
  - repeat constructor.
  - by exists (s2l "n"), [].
Defined.

(** ** The largest number of a text *)

Lemma rep_loop_nonempty ic a lo hi s :
  forall count ctx acc,
    acc <> [] \/ (lo <= count)%nat ->
    rep_loop ic a lo hi count ctx s acc <> [].
Proof.
  induction s as [|c s IH]; intros count ctx acc H; simpl.
  - destruct H as [H|H]; [by destruct (lo <=? count)%nat|].
    apply Nat.leb_le in H. by rewrite H.
  - assert (H' : (if (lo <=? count)%nat then (ctx, c :: s) :: acc else acc) <> []).
    { destruct H as [H|H]; [by destruct (lo <=? count)%nat|].
      apply Nat.leb_le in H. by rewrite H. }
    destruct (atom_ok ic a c && below hi count); [|done].
    apply IH. by left.
Qed.

Lemma digits_at_digit prev c s :
  is_digit c = true -> is_Some (try_at false Sylvane.re_digits prev (c :: s)).
Proof.
  intros Hc. unfold try_at, Sylvane.re_digits, Plus. cbn [rmatch rep_loop].
  rewrite atom_ok_digit, Hc. cbn [below andb Nat.leb].
  match goal with
  | |- context [rep_loop ?ic ?a ?lo ?hi ?n ?ctx ?s ?acc] =>
      pose proof (rep_loop_nonempty ic a lo hi s n ctx acc) as H;
      destruct (rep_loop ic a lo hi n ctx s acc) as [|[ctx' s'] l]
  end.
  - exfalso. apply H; [right; lia|done].
  - eauto.
Qed.

Lemma digits_needs_digit prev c s :
  no_digit c -> try_at false Sylvane.re_digits prev (c :: s) = None.
Proof.
  intros Hc. unfold try_at, Sylvane.re_digits, Plus. cbn [rmatch].
  by rewrite plus_digit_needs_digit.
Qed.

Lemma findall_digits_nil s :
  forall prev, findall_loop false Sylvane.re_digits prev s 0 = [] <-> Forall no_digit s.
Proof.
  induction s as [|c s IH]; intros prev.
  - split; [constructor|]. intros _. reflexivity.
  - cbn [findall_loop]. destruct (is_digit c) eqn:Hc.
    + destruct (digits_at_digit prev c s Hc) as [m ->].
      split; [done|]. intros H. apply Forall_inv in H. unfold no_digit in H. congruence.
    + rewrite digits_needs_digit by done. rewrite IH.
      split; [by constructor|]. intros H. by apply Forall_inv_tail in H.
Qed.

Lemma digit_tokens s tok :
  tok ∈ re_findall false Sylvane.re_digits s ->
  Forall (fun c => is_digit c = true) tok /\ tok <> [].
Proof. intros H%findall_lang. eapply digits_of_rep, H. Qed.

Lemma mapM_py_int toks :
  Forall (fun tok => Forall (fun c => is_digit c = true) tok /\ tok <> []) toks ->
  mapM py_int toks = Ok (omap (digits_val 0) toks)
  /\ length (omap (digits_val 0) toks) = length toks.
Proof.
  induction 1 as [|tok toks [Hd Hne] _ [IH IHlen]]; [done|].
  rewrite mapM_py_cons, omap_cons.
  destruct (py_int_digits tok Hd Hne) as (n & -> & ->). rewrite IH. simpl.
  split; [done|]. by rewrite IHlen.
Qed.

(** X15.  [_extract_single_number] never raises; it returns null exactly
    when the text holds no digit, and otherwise the largest of the integers
    written in the text. *)
Theorem single_number_is_largest (value : str) :
  exists r,
    Sylvane._extract_single_number value = Ok r
    /\ (r = None <-> Forall no_digit value)
    /\ forall m, r = Some m ->
         In m (number_runs value) /\ forall n, In n (number_runs value) -> n <= m.
Proof.
  unfold Sylvane._extract_single_number, number_runs.
  destruct (bool_decide (value = [])) eqn:E0.
  { apply bool_decide_eq_true in E0 as ->. exists None.
    split; [done|]. split; [split; [constructor|done]|done]. }
  pose proof (findall_digits_nil value None) as Hnil. fold (re_findall false Sylvane.re_digits value) in Hnil.
  assert (Htok : Forall (fun tok => Forall (fun c => is_digit c = true) tok /\ tok <> [])
                        (re_findall false Sylvane.re_digits value)).
  { apply Forall_forall. intros tok. apply digit_tokens. }
  destruct (mapM_py_int _ Htok) as [Hm Hlen].
  destruct (re_findall false Sylvane.re_digits value) as [|t ts] eqn:Et.
  - exists None. split; [done|]. split; [|done].
    split; [intros _; by apply (proj1 Hnil)|done].
  - rewrite Hm, bind_ok. set (ns := omap (digits_val 0) (t :: ts)) in *.
    eexists. split; [reflexivity|]. split.
    + split; [done|]. intros H. by apply (proj2 Hnil) in H.
    + intros m [= <-]. apply py_max_spec.
      destruct ns; [simpl in Hlen; lia|done].
Qed.

(** ** Noise level *)

Lemma mapM_py_float toks :
  Forall (lang false Sylvane.re_decimal) toks ->
  exists xs, mapM py_float toks = Ok xs /\ Forall nonneg_float xs
             /\ length xs = length toks.
Proof.
  induction 1 as [|tok toks Htok _ (xs & IH & Hxs & Hlen)]; [by exists []|].
  rewrite mapM_py_cons. destruct (py_float_decimal tok Htok) as (m & k & Hx).
  rewrite Hx, IH. eexists. split; [reflexivity|]. split.
  - constructor; [apply float_of_decimal_nonneg|done].
  - simpl. by rewrite Hlen.
Qed.

Lemma int_if_whole_outcome x :
  nonneg_float x ->
  (exists v, Sylvane.int_if_whole x = Ok v /\ v <> VNone)
  \/ Sylvane.int_if_whole x = Raise OverflowError.
Proof.
  intros Hx. unfold Sylvane.int_if_whole.
  destruct (py_int_of_nonneg x Hx) as [[n ->]| ->]; [left|by right].
  rewrite bind_ok. eexists. split; [reflexivity|]. by destruct (float_eq_Z x n).
Qed.

Lemma fold_pick_in {A} (f : A -> A -> bool) l :
  forall x, fold_left (fun m y => if f m y then y else m) l x ∈ x :: l.
Proof.
  induction l as [|y l IH]; intros x; simpl; [left|].
  destruct (f x y).
  - right. apply IH.
  - specialize (IH x). apply elem_of_cons in IH as [->|IH]; [left|right; by right].
Qed.

Lemma py_min_float_in x l : Sylvane.py_min_float x l ∈ x :: l.
Proof. apply (fold_pick_in (fun m y => flt y m)). Qed.

Lemma py_max_float_in x l : Sylvane.py_max_float x l ∈ x :: l.
Proof. apply (fold_pick_in (fun m y => flt m y)). Qed.

Lemma extract_noise_level_outcome value :
  (exists lo hi, Sylvane.extract_noise_level value = Ok (Sylvane.noise_dict lo hi)
                 /\ (lo = VNone <-> hi = VNone))
  \/ Sylvane.extract_noise_level value = Raise OverflowError.
Proof.
  unfold Sylvane.extract_noise_level.
  destruct (Sylvane.missing value); [left; by exists VNone, VNone|].
  set (text := strip _).
  assert (Htok : Forall (lang false Sylvane.re_decimal)
                   (List.filter (fun n => negb (bool_decide (n = [])))
                                (re_findall false Sylvane.re_decimal text))).
  { apply Forall_forall. intros tok Hin%list_elem_of_In. apply filter_In in Hin as [Hin _].
    apply list_elem_of_In in Hin. eapply findall_lang, Hin. }
  destruct (mapM_py_float _ Htok) as (xs & -> & Hxs & _). rewrite bind_ok.
  destruct xs as [|x [|y rest]].
  - left. by exists VNone, VNone.
  - apply Forall_inv in Hxs.
    destruct (int_if_whole_outcome x Hxs) as [(v & -> & Hv)| ->]; [left|by right].
    rewrite bind_ok. exists v, v. done.
  - assert (Hmin : nonneg_float (Sylvane.py_min_float x (y :: rest))).
    { eapply (proj1 (Forall_forall _ _) Hxs), py_min_float_in. }
    assert (Hmax : nonneg_float (Sylvane.py_max_float x (y :: rest))).
    { eapply (proj1 (Forall_forall _ _) Hxs), py_max_float_in. }
    cbv zeta.
    destruct (int_if_whole_outcome _ Hmin) as [(lo & -> & Hlo)| ->]; [|by right].
    rewrite bind_ok.
    destruct (int_if_whole_outcome _ Hmax) as [(hi & -> & Hhi)| ->]; [left|by right].
    rewrite bind_ok. exists lo, hi. done.
Qed.

(** X16.  [extract_noise_level] either returns a dictionary with the two
    keys min_noise and max_noise, both null or both numbers, or raises
    OverflowError (a number too large for a float to hold as an integer);
    it raises nothing else. *)
Theorem noise_level_outcome (value : option str) :
  (exists lo hi, Sylvane.extract_noise_level value = Ok (Sylvane.noise_dict lo hi)
                 /\ (lo = VNone <-> hi = VNone))
  \/ Sylvane.extract_noise_level value = Raise OverflowError.
Proof. apply extract_noise_level_outcome. Qed.

(** ** Search links *)

Lemma quote_char_query c : Forall (fun x => query_char x = true) (quote_char c).
Proof.
  apply Forall_forall. intros x Hx%list_elem_of_In. revert x Hx. apply forallb_forall.
  destruct c as [[] [] [] [] [] [] [] []]; vm_compute; reflexivity.
Qed.

Lemma quote_char_plus c :
  occurrences "+" (quote_char c) = if bool_decide (c = " "%char) then 1%nat else 0%nat.
Proof. destruct c as [[] [] [] [] [] [] [] []]; vm_compute; reflexivity. Qed.

Lemma quote_plus_query s : Forall (fun x => query_char x = true) (quote_plus s).
Proof.
  unfold quote_plus. induction s as [|c s IH]; simpl; [constructor|].
  apply Forall_app. split; [apply quote_char_query|done].
Qed.

Lemma occurrences_app c0 a b :
  occurrences c0 (a ++ b) = (occurrences c0 a + occurrences c0 b)%nat.
Proof. unfold occurrences. by rewrite List.filter_app, length_app. Qed.

Lemma quote_plus_plus s : occurrences "+" (quote_plus s) = occurrences " " s.
Proof.
  unfold quote_plus. induction s as [|c s IH]; simpl; [done|].
  rewrite occurrences_app, quote_char_plus, IH. unfold occurrences at 2. simpl.
  by destruct (bool_decide (c = " "%char)).
Qed.

Lemma no_space_no_blank w : Forall (fun c => is_space c = false) w -> no_blank w.
Proof.
  unfold no_blank, occurrences. induction 1 as [|c w Hc _ IH]; simpl; [done|].
  destruct (decide (c = " "%char)) as [->|Hne]; [done|].
  by rewrite bool_decide_eq_false_2.
Qed.

Lemma split_loop_words s :
  forall cur, Forall (fun c => is_space c = false) cur ->
              Forall (fun w => Forall (fun c => is_space c = false) w) (split_loop s cur).
Proof.
  induction s as [|c s IH]; intros cur Hcur; simpl.
  - destruct cur; [constructor|]. constructor; [|constructor]. by apply List.Forall_rev.
  - destruct (is_space c) eqn:Hc.
    + destruct cur; [apply IH; constructor|].
      constructor; [by apply List.Forall_rev|apply IH; constructor].
    + apply IH. by constructor.
Qed.

Lemma split_ws_words s : Forall no_blank (split_ws s).
Proof.
  eapply Forall_impl; [apply (split_loop_words s []); constructor|].
  intros w. apply no_space_no_blank.
Qed.

Lemma join_blanks l :
  Forall no_blank l -> occurrences " " (join " " l) = Nat.pred (length l).
Proof.
  induction 1 as [|w l Hw Hl IH]; [done|].
  destruct l as [|w' l]; [done|].
  change (join " " (w :: w' :: l)) with (w ++ s2l " " ++ join " " (w' :: l)).
  rewrite !occurrences_app, Hw, IH. reflexivity.
Qed.

Lemma find_brand_in brands title b :
  find_brand brands title = Some b -> b ∈ brands.
Proof.
  induction brands as [|x brands IH]; simpl; [done|].
  destruct (str_in _ _); [intros [= <-]; left|intros H; right; auto].
Qed.

Lemma link_model_no_blank w : lang false Newegg.re_link_model w -> no_blank w.
Proof.
  unfold Newegg.re_link_model, Times. cbn [lang].
  intros (w1 & w2 & -> & (H1 & _) & (H2 & _)).
  apply no_space_no_blank, Forall_app. split.
  - eapply Forall_impl; [exact H1|]. intros c. cbv beta. rewrite atom_ok_digit.
    apply digit_not_space.
  - eapply Forall_impl; [exact H2|]. intros c.
    destruct c as [[] [] [] [] [] [] [] []]; vm_compute; congruence.
Qed.

Lemma take_forall {A} (P : A -> Prop) n l : Forall P l -> Forall P (take n l).
Proof. apply Forall_take. Qed.

(** X17.  The link of the Newegg [generate_amazon_link] is the fixed
    prefix, an encoded query and the fixed tag suffix.  The query holds only
    letters, digits and the characters [_.-~+%], so no title can add a
    parameter of its own, and it has at most three plus signs: at most four
    search terms. *)
Theorem newegg_search_link (title category : str) :
  exists q,
    Newegg.generate_amazon_link title category
    = s2l "https://www.amazon.com/s?k=" ++ q ++ s2l "&tag=YOUR_TAG-20"
    /\ Forall (fun c => query_char c = true) q
    /\ (occurrences "+" q <= 3)%nat.
Proof.
  unfold Newegg.generate_amazon_link.
  match goal with
  | |- context [quote_plus (join _ (take 4 ?l))] => set (terms := l)
  end.
  exists (quote_plus (join " " (take 4 terms))).
  split; [reflexivity|]. split; [apply quote_plus_query|].
  rewrite quote_plus_plus, join_blanks.
  - rewrite length_take. lia.
  - apply take_forall. subst terms.
    match goal with
    | |- context [find_brand ?bs title] =>
        assert (Hbs : Forall no_blank bs) by (repeat constructor)
    end.
    match goal with
    | |- context [match ?o with Some brand => [] ++ [brand] | None => [] end] =>
        set (terms1 := match o with Some brand => [] ++ [brand] | None => [] end)
    end.
    assert (H1 : Forall no_blank terms1).
    { subst terms1. destruct (find_brand _ title) as [b|] eqn:Eb; [|constructor].
      constructor; [|constructor].
      eapply (proj1 (Forall_forall _ _) Hbs), find_brand_in, Eb. }
    clearbody terms1.
    match goal with
    | |- Forall _ (match ?l with [] => _ | _ :: _ => _ end) => set (terms2 := l)
    end.
    assert (H2 : Forall no_blank terms2).
    { subst terms2. destruct (bool_decide (category = "CPU")).
      - destruct (re_search false Newegg.re_link_model title) as [m|] eqn:Em; [|done].
        apply Forall_app. split; [done|]. constructor; [|constructor].
        eapply link_model_no_blank, search_lang, Em.
      - apply Forall_app. split; [done|]. apply take_forall, split_ws_words. }
    clearbody terms2. destruct terms2; [|done]. apply take_forall, split_ws_words.
Qed.

(** X18.  The link of the Sylvane [generate_amazon_link] is the fixed
    prefix, an encoded query and the fixed tag suffix.  The query holds only
    letters, digits and the characters [_.-~+%], and it has at most four
    plus signs: at most five words of the product name. *)
Theorem sylvane_search_link (product_name : str) :
  exists q,
    Sylvane.generate_amazon_link product_name
    = s2l "https://www.amazon.com/s?k=" ++ q ++ s2l "&tag=YOUR_TAG-20"
    /\ Forall (fun c => query_char c = true) q
    /\ (occurrences "+" q <= 4)%nat.
Proof.
  unfold Sylvane.generate_amazon_link.
  eexists. split; [reflexivity|]. split; [apply quote_plus_query|].
  rewrite quote_plus_plus, join_blanks.
  - rewrite length_take. lia.
  - apply take_forall, split_ws_words.
Qed.

(** ** Prices from the scraper *)

Lemma try_at_prefix ic r prev s m :
  try_at ic r prev s = Some m -> exists rest, s = group0 m ++ rest.
Proof.
  intros (ctx & s' & Hx & ->)%try_at_inv.
  apply rmatch_sound in Hx as (w & Hs & Ht & _). simpl in *.
  exists s'. by rewrite Ht, app_nil_r, rev_involutive.
Qed.

Lemma findall_loop_sub ic r s :
  forall prev skip c,
    c ∈ findall_loop ic r prev s skip -> contains s c.
Proof.
  induction s as [|a s IH]; intros prev skip c Hc.
  - destruct skip; simpl in Hc; [|by apply elem_of_nil in Hc].
    destruct (try_at ic r prev []) eqn:E; [|by apply elem_of_nil in Hc].
    apply list_elem_of_singleton in Hc as ->.
    apply try_at_prefix in E as [rest E]. by exists [], rest.
  - assert (Hrec : forall prev skip, c ∈ findall_loop ic r prev s skip ->
                                     contains (a :: s) c).
    { intros p k (x & y & ->)%IH. by exists (a :: x), y. }
    destruct skip; simpl in Hc; [|eauto].
    destruct (try_at ic r prev (a :: s)) eqn:E; [|eauto].
    apply elem_of_cons in Hc as [->|Hc]; [|eauto].
    apply try_at_prefix in E as [rest E]. by exists [], rest.
Qed.

Lemma last_not_space s c w :
  rev (strip s) = c :: w -> is_space c = false.
Proof.
  unfold strip, rstrip. rewrite rev_involutive.
  generalize (rev (lstrip s)). intros l. induction l as [|x l IH]; simpl; [done|].
  destruct (is_space x) eqn:E; [done|]. by intros [= <- <-].
Qed.

Lemma rmatch_eos ic r :
  ends_with_eos r = true ->
  forall ctx s x, x ∈ rmatch ic r ctx s -> at_end x.2 = true.
Proof.
  induction r as [|a|w|r1 IH1 r2 IH2|r1 IH1 r2 IH2|lo hi a|n r IH| | |r IH];
    intros He ctx s x Hx; simpl in He; try discriminate; simpl in Hx.
  - apply list_elem_of_bind in Hx as (p & Hx & _). eauto.
  - destruct (at_end s) eqn:E; [|by apply elem_of_nil in Hx].
    by apply list_elem_of_singleton in Hx as ->.
Qed.

Lemma scraped_price_shape element :
  NeweggScraper.extract_price element = "0"
  \/ clean_price (NeweggScraper.extract_price element).
Proof.
  unfold NeweggScraper.extract_price.
  destruct element as [[[text|e]]|]; [|by left|by left]. cbn [NeweggScraper.inner_text].
  set (price_clean := strip _).
  destruct (re_match false NeweggScraper.re_clean_price price_clean) as [m|] eqn:Em;
    [right|by left].
  unfold re_match in Em.
  apply try_at_inv in Em as (ctx & s' & Hx & ->).
  pose proof ((fun He => rmatch_eos _ _ He _ _ _ Hx) eq_refl) as Hend.
  apply rmatch_sound in Hx as (w & Hs & _ & _ & Hl).
  unfold NeweggScraper.re_clean_price, Plus, Opt, Star in Hl. cbn [lang] in Hl.
  destruct Hl as (w1 & r1 & -> & (H1 & Hlen1 & _) & w2 & r2 & -> & (H2 & _ & Hlen2)
                  & w3 & r3 & -> & (H3 & _) & ->).
  simpl in Hend, Hs. rewrite app_nil_r in Hs.
  assert (Hs' : s' = []).
  { destruct s' as [|c [|c' s']]; [done| |done]. exfalso.
    apply N.eqb_eq in Hend.
    assert (Hsp : is_space c = true).
    { destruct c as [[] [] [] [] [] [] [] []]; try discriminate Hend. reflexivity. }
    assert (Hrev : rev price_clean = c :: rev (w1 ++ w2 ++ w3)).
    { rewrite Hs, rev_app_distr. reflexivity. }
    apply last_not_space in Hrev. congruence. }
  rewrite Hs' , app_nil_r in Hs. rewrite Hs.
  exists w1, w2, w3. split; [done|]. split; [|split; [|split]].
  - eapply Forall_impl; [exact H1|]. intros x. cbv beta. by rewrite atom_ok_digit.
  - destruct w1; [simpl in Hlen1; lia|done].
  - simpl in Hlen2. destruct w2 as [|p [|q w2]]; [by left| |simpl in Hlen2; lia].
    right. apply Forall_inv in H2. by apply atom_ok_lit in H2 as ->.
  - eapply Forall_impl; [exact H3|]. intros x. cbv beta. by rewrite atom_ok_digit.
Qed.

Lemma clean_price_chars s :
  clean_price s -> Forall (fun c => is_digit c = true \/ c = "."%char) s.
Proof.
  intros (w1 & w2 & w3 & -> & H1 & _ & H2 & H3).
  apply Forall_app. split; [eapply Forall_impl; [exact H1|]; intros x Hx; by left|].
  apply Forall_app. split; [|eapply Forall_impl; [exact H3|]; intros x Hx; by left].
  destruct H2 as [-> | ->]; [constructor|]. constructor; [by right|constructor].
Qed.

Lemma clean_price_candidates s :
  clean_price s -> Forall (fun c => has_digit c = true) (price_candidates s).
Proof.
  intros Hs%clean_price_chars. apply Forall_forall. intros c Hc.
  pose proof (findall_loop_sub _ _ _ _ _ _ Hc) as (a & b & Hab).
  apply findall_lang in Hc.
  unfold Newegg.re_price, Plus in Hc. cbn [lang] in Hc.
  destruct Hc as (w1 & r & -> & (H1 & Hlen & _) & _).
  destruct w1 as [|x w1]; [simpl in Hlen; lia|].
  apply Forall_inv in H1. apply atom_ok_digit_comma in H1.
  rewrite Hab in Hs. apply Forall_app in Hs as [_ Hs]. apply Forall_inv in Hs.
  simpl. destruct H1 as [-> | ->]; [done|]. by destruct Hs as [Hs|Hs].
Qed.

Lemma scraped_price_accepted element :
  exists p, Newegg.extract_price (NeweggScraper.extract_price element) = Ok p.
Proof.
  destruct (scraped_price_shape element) as [-> |Hc]; [by exists None|].
  destruct (candidate_values_exist _ (clean_price_candidates _ Hc)) as [xs Hxs].
  eexists. by apply newegg_price_rule.
Qed.

(** X19.  The price text the Newegg scraper writes is "0" or a clean
    number (digits, with at most one point after the first digit), and the
    processor's [extract_price] never raises on it: the ValueError that a
    price text of commas alone provokes cannot come from scraped data. *)
Theorem scraped_price_never_raises (price_element : option NeweggScraper.Locator) :
  (NeweggScraper.extract_price price_element = "0"
   \/ clean_price (NeweggScraper.extract_price price_element))
  /\ exists p, Newegg.extract_price (NeweggScraper.extract_price price_element) = Ok p.
Proof. split; [apply scraped_price_shape|apply scraped_price_accepted]. Qed.

(** ** A second run *)

Lemma normalize_same_outcome record t1 t2 :
  same_outcome (Newegg.normalize_record t1 record) (Newegg.normalize_record t2 record).
Proof.
  unfold Newegg.normalize_record. unfold_py.
  destruct (Newegg.extract_price _) as [p|e]; [|constructor].
  destruct (truthy_price p) as [x|]; [|constructor].
  match goal with
  | |- context [match ?c with Ok _ => _ | Raise _ => _ end] => destruct c as [[b sp]|e]
  end; constructor. by repeat split.
Qed.

Lemma normalize_each_again clock1 clock2 records :
  forall i j outs1,
    normalize_each clock1 i records = Ok outs1 ->
    exists outs2,
      normalize_each clock2 j records = Ok outs2
      /\ Forall2 same_but_time (accepted outs1) (accepted outs2)
      /\ rejected outs2 = rejected outs1.
Proof.
  induction records as [|r rest IH]; intros i j outs1; simpl.
  - intros [= <-]. exists []. split; [done|]. split; [constructor|done].
  - unfold_py. pose proof (normalize_same_outcome r (clock1 i) (clock2 j)) as Hs.
    destruct (Newegg.normalize_record (clock1 i) r) as [o1|]; [|done].
    destruct (normalize_each clock1 (S i) rest) as [os1|] eqn:E1; [|done].
    intros [= <-]. destruct (IH (S i) (S j) os1 E1) as (os2 & -> & Hacc & Hrej).
    inversion Hs as [| |a b Hab]; subst.
    + eexists. split; [reflexivity|]. simpl. split; [done|]. by rewrite Hrej.
    + eexists. split; [reflexivity|]. unfold accepted in *. csimpl.
      split; [by constructor|done].
Qed.

(** X20.  [process_all] can be run again on the processor it returned: the
    second run returns, accepts the same records (equal in every field
    except [processed_at]) and adds the same number to the discard counter
    once more, since the counter is never reset. *)
Theorem process_all_second_run (clock1 clock2 : nat -> str) (p p1 : Newegg.Processor) :
  Newegg.process_all clock1 p = Ok p1 ->
  exists p2,
    Newegg.process_all clock2 p1 = Ok p2
    /\ Forall2 same_but_time (Newegg.processed_data p1) (Newegg.processed_data p2)
    /\ Newegg.discarded_count p2 - Newegg.discarded_count p1
       = Newegg.discarded_count p1 - Newegg.discarded_count p.
Proof.
  intros (outs & Ho & Hr & Hv & Hd)%newegg_process_all_outcome.
  destruct (normalize_each_again clock1 clock2 _ 1%nat 1%nat outs Ho)
    as (outs2 & Ho2 & Hacc & Hrej).
  unfold Newegg.process_all. unfold_py. rewrite Hr.
  pose proof (process_loop_spec clock2 (Newegg.raw_data p) 1
    {| Newegg.valid_records := []; Newegg.category_count := ∅;
       Newegg.discarded := Newegg.discarded_count p1 |}) as Hs.
  rewrite Ho2 in Hs. destruct Hs as (st & -> & Hv' & Hd').
  eexists. split; [reflexivity|]. simpl in *. rewrite Hv', Hv, Hd', Hd, Hrej.
  split; [done|lia].
Qed.

Lemma process_all_second_run_witness :
  exists p1 p2,
    Newegg.process_all (fun _ => s2l "2024-01-01T00:00:00")
      (Newegg.loaded [newegg_record "Widget A" "19.99"; newegg_record "Widget B" "0"])
    = Ok p1
    /\ Newegg.process_all (fun _ => s2l "2025-06-30T12:00:00") p1 = Ok p2
    /\ Forall2 same_but_time (Newegg.processed_data p1) (Newegg.processed_data p2)
    /\ Newegg.discarded_count p2 - Newegg.discarded_count p1
       = Newegg.discarded_count p1 - 0.
Proof.
  destruct (Newegg.process_all (fun _ => s2l "2024-01-01T00:00:00")
              (Newegg.loaded [newegg_record "Widget A" "19.99"; newegg_record "Widget B" "0"]))
    as [p1|e] eqn:E; [|exfalso; vm_compute in E; discriminate E].
  destruct (process_all_second_run _ (fun _ => s2l "2025-06-30T12:00:00") _ p1 E)
    as (p2 & H2 & Hsame & Hd).
  exists p1, p2. split; [reflexivity|]. split; [exact H2|]. split; [exact Hsame|exact Hd].
Defined.

(** ** Categories *)

Lemma keyword_loop_category tl cat kws c :
  Newegg.keyword_loop tl cat kws = Some c -> c = cat.
Proof.
  induction kws as [|k kws IH]; simpl; [done|].
  destruct (str_in _ _); [by intros [= <-]|done].
Qed.

Lemma category_loop_declared tl items c :
  Newegg.category_loop tl items = Some c -> c ∈ map fst items.
Proof.
  induction items as [|[cat kws] items IH]; simpl; [done|].
  destruct (Newegg.keyword_loop tl cat kws) as [c'|] eqn:E.
  - intros [= <-]. apply keyword_loop_category in E as ->. left.
  - intros H. right. by apply IH.
Qed.

(** X21.  [detect_category] returns, for every title, one of the fifteen
    declared category names, "Other" included. *)
Theorem detect_category_closed (title : str) :
  Newegg.detect_category title ∈ map fst Newegg.category_keywords.
Proof.
  unfold Newegg.detect_category.
  destruct (Newegg.category_loop _ _) as [c|] eqn:E.
  - eapply category_loop_declared, E.
  - apply list_elem_of_In. vm_compute. tauto.
Qed.

(** ** Brand and specs of a record *)

Lemma brand_key (sp : gmap string pyval) l :
  dom sp = keys ("brand"%string :: l) -> is_Some (sp !! "brand").
Proof.
  intros Hd. apply elem_of_dom. rewrite Hd. unfold keys.
  apply elem_of_list_to_set. left.
Qed.

(** X22.  In every record the Newegg [normalize_record] returns, [brand]
    is the value of [specs] under "brand" (null when there is none).  For
    the six categories that have a parser [specs] holds the key "brand";
    for every other category [specs] is empty and [brand] is null. *)
Theorem record_brand_and_specs (now : str) (record : Newegg.RawRecord)
    (n : Newegg.NormalizedRecord) :
  Newegg.normalize_record now record = Ok (Some n) ->
  Newegg.brand n = default VNone (Newegg.specs n !! "brand")
  /\ (Newegg.category n ∈ parsed_categories -> is_Some (Newegg.specs n !! "brand"))
  /\ (Newegg.category n ∉ parsed_categories ->
      Newegg.specs n = ∅ /\ Newegg.brand n = VNone).
Proof.
  unfold Newegg.normalize_record.
  destruct (Newegg.extract_price _) as [p|e']; [|done].
  rewrite bind_ok. destruct (truthy_price p) as [x|]; [|done].
  set (title := default [] (Newegg.r_title record)).
  assert (Hin : forall c, c ∈ parsed_categories ->
            Newegg.detect_category title = c -> Newegg.detect_category title ∈ parsed_categories).
  { by intros c Hc ->. }
  destruct (bool_decide (Newegg.detect_category title = "CPU")) eqn:E1.
  { destruct (parse_cpu_specs_fields title) as (sp & -> & Hd & _).
    rewrite !bind_ok. intros [= <-]. simpl. split; [done|]. split.
    - intros _. eapply brand_key, Hd.
    - intros Hn. exfalso. apply Hn. apply bool_decide_eq_true in E1. rewrite E1.
      apply list_elem_of_In. vm_compute. tauto. }
  destruct (bool_decide (Newegg.detect_category title = "Motherboard")) eqn:E2.
  { destruct (parse_motherboard_specs_fields title) as (sp & -> & Hd & _).
    rewrite !bind_ok. intros [= <-]. simpl. split; [done|]. split.
    - intros _. eapply brand_key, Hd.
    - intros Hn. exfalso. apply Hn. apply bool_decide_eq_true in E2. rewrite E2.
      apply list_elem_of_In. vm_compute. tauto. }
  destruct (bool_decide (Newegg.detect_category title = "Memory")) eqn:E3.
  { destruct (parse_memory_specs_fields title) as (sp & -> & Hd & _).
    rewrite !bind_ok. intros [= <-]. simpl. split; [done|]. split.
    - intros _. eapply brand_key, Hd.
    - intros Hn. exfalso. apply Hn. apply bool_decide_eq_true in E3. rewrite E3.
      apply list_elem_of_In. vm_compute. tauto. }
  destruct (bool_decide (Newegg.detect_category title = "SSD")) eqn:E4.
  { destruct (parse_ssd_specs_outcome title) as [(sp & -> & Hd)|[-> _]]; [|done].
    rewrite !bind_ok. intros [= <-]. simpl. split; [done|]. split.
    - intros _. eapply brand_key, Hd.
    - intros Hn. exfalso. apply Hn. apply bool_decide_eq_true in E4. rewrite E4.
      apply list_elem_of_In. vm_compute. tauto. }
  destruct (bool_decide (Newegg.detect_category title = "Laptop")) eqn:E5.
  { destruct (parse_laptop_specs_fields title) as (sp & -> & Hd & _).
    rewrite !bind_ok. intros [= <-]. simpl. split; [done|]. split.
    - intros _. eapply brand_key, Hd.
    - intros Hn. exfalso. apply Hn. apply bool_decide_eq_true in E5. rewrite E5.
      apply list_elem_of_In. vm_compute. tauto. }
  destruct (bool_decide (Newegg.detect_category title = "Gaming PC")) eqn:E6.
  { destruct (parse_gaming_pc_specs_fields title) as (sp & -> & Hd & _).
    rewrite !bind_ok. intros [= <-]. simpl. split; [done|]. split.
    - intros _. eapply brand_key, Hd.
    - intros Hn. exfalso. apply Hn. apply bool_decide_eq_true in E6. rewrite E6.
      apply list_elem_of_In. vm_compute. tauto. }
  rewrite !bind_ok. intros [= <-]. simpl. split; [done|]. split; [|done].
  intros Hc. exfalso.
  apply bool_decide_eq_false in E1, E2, E3, E4, E5, E6.
  unfold parsed_categories, strs in Hc. cbn [map] in Hc.
  repeat (apply elem_of_cons in Hc as [Hc|Hc]; [done|]).
  by apply elem_of_nil in Hc.
Qed.

Lemma record_brand_and_specs_witness :
  Newegg.brand (e2e_normalized "2024-01-01T00:00:00")
  = default VNone (Newegg.specs (e2e_normalized "2024-01-01T00:00:00") !! "brand")
  /\ (Newegg.category (e2e_normalized "2024-01-01T00:00:00") ∈ parsed_categories ->
      is_Some (Newegg.specs (e2e_normalized "2024-01-01T00:00:00") !! "brand"))
  /\ (Newegg.category (e2e_normalized "2024-01-01T00:00:00") ∉ parsed_categories ->
      Newegg.specs (e2e_normalized "2024-01-01T00:00:00") = ∅
      /\ Newegg.brand (e2e_normalized "2024-01-01T00:00:00") = VNone).
Proof.
  apply (record_brand_and_specs "2024-01-01T00:00:00" e2e_record).
  vm_compute. reflexivity.
Defined.

(** ** What the Sylvane [normalize_record] can raise *)

Lemma price_loop_raises l e : Sylvane.price_loop l = Raise e -> e = ValueError.
Proof.
  induction l as [|c l IH]; simpl; [done|]. unfold_py.
  destruct (py_float _) as [x|e'] eqn:E; [|intros [= <-]; eapply py_float_raises, E].
  destruct (is_positive x); [done|exact IH].
Qed.

Lemma sylvane_price_raises s e : Sylvane.extract_price s = Raise e -> e = ValueError.
Proof.
  unfold Sylvane.extract_price. destruct (_ || _); [done|]. apply price_loop_raises.
Qed.

Lemma cadr_raises (f : option str -> py (option Z)) value e :
  f = Sylvane.extract_cadr_smoke \/ f = Sylvane.extract_cadr_pollen
  \/ f = Sylvane.extract_cadr_dust ->
  f value = Raise e -> e = NameError "self".
Proof.
  intros [-> |[-> | ->]];
    unfold Sylvane.extract_cadr_smoke, Sylvane.extract_cadr_pollen,
      Sylvane.extract_cadr_dust;
    (destruct (Sylvane.missing value); [done|]); simpl; by intros [= <-].
Qed.

(** X23.  The Sylvane [normalize_record] raises in three cases only:
    ValueError out of [extract_price], NameError for the name [self] out of
    a CADR extractor, and OverflowError out of [extract_noise_level]. *)
Theorem sylvane_normalize_raises_only (now : str) (record : Sylvane.RawRecord) (e : exn) :
  Sylvane.normalize_record now record = Raise e ->
  (e = ValueError
   /\ Sylvane.extract_price (default [] (Sylvane.r_price record)) = Raise ValueError)
  \/ e = NameError "self"
  \/ (e = OverflowError
      /\ Sylvane.extract_noise_level (Sylvane.r_noise_level record) = Raise OverflowError).
Proof.
  unfold Sylvane.normalize_record.
  destruct (Sylvane.extract_price _) as [p|e'] eqn:Ep.
  2:{ pose proof (sylvane_price_raises _ _ Ep) as ->. intros [= <-]. by left. }
  rewrite bind_ok. destruct (truthy_price p) as [x|]; [|done].
  destruct (coverage_area_spec (Sylvane.r_coverage_area record)) as (cov & -> & _).
  rewrite bind_ok.
  destruct (Sylvane.extract_cadr_smoke _) as [s|e1] eqn:E1.
  2:{ intros [= <-]. right. left. eapply (cadr_raises _ _ _ (or_introl eq_refl)), E1. }
  rewrite bind_ok.
  destruct (Sylvane.extract_cadr_pollen _) as [po|e2] eqn:E2.
  2:{ intros [= <-]. right. left.
      eapply (cadr_raises _ _ _ (or_intror (or_introl eq_refl))), E2. }
  rewrite bind_ok.
  destruct (Sylvane.extract_cadr_dust _) as [d|e3] eqn:E3.
  2:{ intros [= <-]. right. left.
      eapply (cadr_raises _ _ _ (or_intror (or_intror eq_refl))), E3. }
  rewrite bind_ok.
  destruct (extract_noise_level_outcome (Sylvane.r_noise_level record))
    as [(lo & hi & Hn & _)|Hn]; rewrite Hn.
  2:{ intros [= <-]. right. right. done. }
  rewrite bind_ok.
  destruct (extract_fan_speeds_outcome (Sylvane.r_fan_speeds record)) as (f & -> & _).
  done.
Qed.

Lemma sylvane_normalize_raises_only_witness :
  (NameError "self" = ValueError
   /\ Sylvane.extract_price (default [] (Some (s2l "$129.00"))) = Raise ValueError)
  \/ NameError "self" = NameError "self"
  \/ (NameError "self" = OverflowError
      /\ Sylvane.extract_noise_level None = Raise OverflowError).
Proof.
  apply (sylvane_normalize_raises_only "2024-01-01T00:00:00"
           {| Sylvane.r_product_name := Some (s2l "Purifier A");
              Sylvane.r_url := None; Sylvane.r_price := Some (s2l "$129.00");
              Sylvane.r_image_url := None; Sylvane.r_coverage_area := None;
              Sylvane.r_cadr_smoke := Some (s2l "250 CFM");
              Sylvane.r_cadr_pollen := None; Sylvane.r_cadr_dust := None;
              Sylvane.r_noise_level := None; Sylvane.r_filter_type := None;
              Sylvane.r_fan_speeds := None |} (NameError "self")).
  vm_compute. reflexivity.
Defined.
